(** * PanzerChasm server map: a shallow embedding of [server/map.cpp]

    The development follows [src/PanzerChasm/server/map.cpp].  Every
    definition names the C++ function (or the part of [Map::Tick]) it
    embeds.

    Conventions of the embedding.
    - [float] values are read as real numbers ([R]): arithmetic is exact,
      comparisons are the decidable order of [R].  Rounding, infinities and
      NaN are outside the model.
    - [Time] is a real number of seconds; [Time::ToSeconds] and
      [Time::FromSeconds] are the identity.
    - [std::vector]s are lists; [v[i]] is a lookup.  Where the source indexes
      without a check (undefined behaviour out of range) the model reads a
      default element, and an in-place write out of range changes nothing.
    - The monsters container is a list of (identity, monster) pairs in
      iteration order.
    - Identities ([EntityId]) are natural numbers; the counter the rockets
      and mines take them from wraps around at the number of values of the
      type, as [next_rocket_id_++] does.
    - Headers that are not part of the verified sources ([map.hpp],
      [collisions.hpp], [collision_index.inl], [game_constants.hpp],
      [monster_base.hpp], [player.hpp], the vector library) are represented
      by the record types below, read off the uses in [map.cpp], and by the
      variables of the section [MapModel]. *)

From Stdlib Require Import Reals Lra Lia ZArith String Permutation.
From stdpp Require Import base list list_relations.

Open Scope R_scope.

(** ** Vectors (the external vector library, [m_Vec2] and [m_Vec3]) *)

Record m_Vec2 := mkVec2 { v2x : R; v2y : R }.
Record m_Vec3 := mkVec3 { v3x : R; v3y : R; v3z : R }.

Definition xy (v : m_Vec3) : m_Vec2 := mkVec2 (v3x v) (v3y v).
Definition Vec3_of (p : m_Vec2) (h : R) : m_Vec3 := mkVec3 (v2x p) (v2y p) h.

Definition add2 (a b : m_Vec2) : m_Vec2 := mkVec2 (v2x a + v2x b) (v2y a + v2y b).
Definition sub2 (a b : m_Vec2) : m_Vec2 := mkVec2 (v2x a - v2x b) (v2y a - v2y b).
Definition scale2 (a : m_Vec2) (k : R) : m_Vec2 := mkVec2 (v2x a * k) (v2y a * k).
Definition SquareLength2 (a : m_Vec2) : R := v2x a * v2x a + v2y a * v2y a.
Definition Length2 (a : m_Vec2) : R := sqrt (SquareLength2 a).
Definition Normalize2 (a : m_Vec2) : m_Vec2 := scale2 a (/ Length2 a).

Definition add3 (a b : m_Vec3) : m_Vec3 := mkVec3 (v3x a + v3x b) (v3y a + v3y b) (v3z a + v3z b).
Definition sub3 (a b : m_Vec3) : m_Vec3 := mkVec3 (v3x a - v3x b) (v3y a - v3y b) (v3z a - v3z b).
Definition scale3 (a : m_Vec3) (k : R) : m_Vec3 := mkVec3 (v3x a * k) (v3y a * k) (v3z a * k).
Definition SquareLength3 (a : m_Vec3) : R := v3x a * v3x a + v3y a * v3y a + v3z a * v3z a.
Definition Length3 (a : m_Vec3) : R := sqrt (SquareLength3 a).
Definition Normalize3 (a : m_Vec3) : m_Vec3 := scale3 a (/ Length3 a).
Definition mVec3Cross (a b : m_Vec3) : m_Vec3 :=
  mkVec3 (v3y a * v3z b - v3z a * v3y b) (v3z a * v3x b - v3x a * v3z b) (v3x a * v3y b - v3y a * v3x b).

Definition set_z (v : m_Vec3) (h : R) : m_Vec3 := mkVec3 (v3x v) (v3y v) h.

(** Decidable equality of vectors, for the [==] tests of the source. *)
Definition Vec2_eq_dec (a b : m_Vec2) : {a = b} + {a <> b}.
Proof.
  destruct a as [a1 a2], b as [b1 b2].
  destruct (Req_dec_T a1 b1) as [->|N1]; [|right; congruence].
  destruct (Req_dec_T a2 b2) as [->|N2]; [left; reflexivity|right; congruence].
Defined.

(** Conversion of a [float] to an integer type: truncation toward zero. *)
Definition float_to_int (v : R) : Z :=
  if Rle_dec 0 v then Int_part v else (- Int_part (- v))%Z.
Definition float_to_uint (v : R) : nat := Z.to_nat (float_to_int v).

Abbreviation Time := R.
Abbreviation EntityId := nat.

(** ** Level data ([MapData], read only) *)

Module IndexElement.
Inductive Type_ := None | StaticWall | DynamicWall | StaticModel | Item.
End IndexElement.

Record IndexElementT := mkIndexElement {
  ie_type : IndexElement.Type_;
  ie_index : nat }.

Module Link.
Inductive LinkType :=
    None | Link_ | Floor | Shoot | Return | Destroy | ReturnFloor.
End Link.

Record LinkT := mkLink {
  link_type : Link.LinkType;
  link_x : nat;
  link_y : nat;
  proc_id : nat }.

Record Wall := mkWall {
  vert_pos0 : m_Vec2;
  vert_pos1 : m_Vec2;
  wall_texture_id : nat }.

(** [gso]: the three texture flags; [gso[0]] lets bodies through,
    [gso[1]] lets shots through. *)
Record WallTextureDescription := mkWallTexture {
  gso0 : bool; gso1 : bool; gso2 : bool }.

Record ModelDescription := mkModelDescription {
  model_radius : R;
  break_limit : Z;
  ac : nat;
  blow_effect : nat;
  bmpz : Z;
  break_sfx_number : nat }.

Record Model := mkModel {
  z_min : R;
  z_max : R;
  frame_count : Z }.

Record MapStaticModel := mkMapStaticModel {
  map_model_pos : m_Vec2;
  map_model_angle : R;
  map_model_id : Z;
  is_dynamic : bool }.

Module ActionCommandId.
Inductive t :=
    Lock | Unlock | PlayAnimation | StopAnimation | Move | XMove | YMove
  | Rotate | Up | Change | Wind | Death | Explode | Nonstop | Other.
End ActionCommandId.

Record ActionCommand := mkActionCommand {
  cmd_id : ActionCommandId.t;
  args : list R }.

Definition arg (c : ActionCommand) (i : nat) : R := nth i (args c) 0.

Record SwitchPos := mkSwitchPos { sw_x : nat; sw_y : nat }.

Record Procedure := mkProcedure {
  start_delay_s : R;
  back_wait_s : R;
  speed : R;
  end_delay_s : R;
  proc_locked : bool;
  red_key_required : bool;
  green_key_required : bool;
  blue_key_required : bool;
  first_message_number : nat;
  lock_message_number : nat;
  on_message_number : nat;
  linked_switches : list SwitchPos;
  action_commands : list ActionCommand }.

Record MapData := mkMapData {
  map_index : nat -> IndexElementT;
  static_walls : list Wall;
  md_dynamic_walls : list Wall;
  walls_textures : nat -> WallTextureDescription;
  md_static_models : list MapStaticModel;
  models_description : list ModelDescription;
  models : list Model;
  floor_textures : nat -> nat;
  ceiling_textures : nat -> nat;
  links : list LinkT;
  procedures : list Procedure }.

(** ** Game resources ([GameResources], read only) *)

Record RocketDescription := mkRocketDescription {
  model_file_name : string;
  gravity_force : Z;
  fast : bool;
  reflect : bool;
  Auto2 : bool;
  power : Z;
  rk_blow_effect : nat;
  smoke_trail_effect_id : nat }.

Record MonsterDescription := mkMonsterDescription { w_radius : R }.

Record GameResources := mkGameResources {
  rockets_description : list RocketDescription;
  monsters_description : list MonsterDescription }.

(** ** Run-time state of the map ([map.hpp]) *)

Module MovementState.
Inductive t := None | StartWait | Movement | BackWait | ReverseMovement.
End MovementState.

Record ProcedureState := mkProcedureState {
  locked : bool;
  first_message_printed : bool;
  movement_state : MovementState.t;
  movement_stage : R;
  last_state_change_time : Time }.

Module AnimationState.
Inductive t := Animation | SingleFrame | SingleAnimation | SingleReverseAnimation.
End AnimationState.

Record StaticModel := mkStaticModel {
  pos : m_Vec3;
  baze_z : R;
  angle : R;
  model_id : Z;
  health : Z;
  animation_state : AnimationState.t;
  animation_start_time : Time;
  animation_start_frame : Z;
  current_animation_frame : Z;
  picked : bool }.

Record DynamicWall := mkDynamicWall {
  vert_pos_0 : m_Vec2;
  vert_pos_1 : m_Vec2;
  wall_z : R;
  texture_id : nat }.

Record Rocket := mkRocket {
  start_time : Time;
  start_point : m_Vec3;
  normalized_direction : m_Vec3;
  rocket_id : EntityId;
  owner_id : EntityId;
  rocket_type_id : nat;
  previous_position : m_Vec3;
  track_length : R;
  rocket_speed : m_Vec3 }.

Record Mine := mkMine {
  mine_pos : m_Vec3;
  planting_time : Time;
  mine_id : EntityId }.

(** What [map.cpp] reads of a [MonsterBase]; a player is a monster whose
    [MonsterId] is 0. *)
Record MonsterBase := mkMonsterBase {
  MonsterId : nat;
  Health : Z;
  Position : m_Vec3;
  GetZMinMax : m_Vec2;
  IsNoclip : bool;
  on_floor : bool }.

Definition SetPosition (p : m_Vec3) (mo : MonsterBase) : MonsterBase :=
  mkMonsterBase (MonsterId mo) (Health mo) p (GetZMinMax mo) (IsNoclip mo) (on_floor mo).

Module ObjectType.
Inductive t := None | StaticWall | DynamicWall | Model | Monster | Floor.
End ObjectType.

Record HitResult := mkHitResult {
  object_type : ObjectType.t;
  object_index : nat;
  hit_pos : m_Vec3 }.

(** ** Outbound messages.  Positions and directions are kept as they are
    before the quantisation done by the message layer. *)

Inductive ParticleEffect :=
  Blood | Bullet | Sparkles | Explosion | FirstBlowEffect_plus (n : nat).

Inductive SoundId :=
  SoundNumber (n : nat) | MineOn | FirstRocketHit_plus (n : nat).

Record RocketBirth := mkRocketBirth {
  rb_rocket_id : EntityId;
  rb_rocket_type : nat;
  rb_xyz : m_Vec3;
  rb_direction : m_Vec3 }.

Record RocketDeath := mkRocketDeath { rd_rocket_id : EntityId }.

Record DynamicItemBirth := mkDynamicItemBirth {
  ib_item_id : EntityId;
  ib_item_type_id : nat;
  ib_xyz : m_Vec3 }.

Record DynamicItemDeath := mkDynamicItemDeath { id_item_id : EntityId }.

Record ParticleEffectBirth := mkParticleEffectBirth {
  pe_xyz : m_Vec3;
  pe_effect_id : ParticleEffect }.

Record MapEventSound := mkMapEventSound {
  se_xyz : m_Vec3;
  se_sound_id : SoundId }.

Record SpriteEffect := mkSpriteEffect {
  sprite_pos : m_Vec3;
  sprite_effect_id : nat }.

Record TextMessage := mkTextMessage { text_message_number : nat }.

Record DamageFiledCell := mkDamageFiledCell {
  damage : Z;
  cell_z_bottom : Z;
  cell_z_top : Z }.

Record Map := mkMap {
  procedures_ : list ProcedureState;
  static_models_ : list StaticModel;
  dynamic_walls_ : list DynamicWall;
  rockets_ : list Rocket;
  mines_ : list Mine;
  monsters_ : list (EntityId * MonsterBase);
  next_rocket_id_ : EntityId;
  wind_field_ : nat -> Z * Z;
  death_field_ : nat -> DamageFiledCell;
  map_end_triggered_ : bool;
  sprite_effects_ : list SpriteEffect;
  rockets_birth_messages_ : list RocketBirth;
  rockets_death_messages_ : list RocketDeath;
  dynamic_items_birth_messages_ : list DynamicItemBirth;
  dynamic_items_death_messages_ : list DynamicItemDeath;
  particles_effects_messages_ : list ParticleEffectBirth;
  map_events_sounds_messages_ : list MapEventSound }.

(** Field updates of [Map]. *)
Definition set_procedures_ (v : list ProcedureState) (m : Map) : Map :=
  mkMap v (static_models_ m) (dynamic_walls_ m) (rockets_ m) (mines_ m)
    (monsters_ m) (next_rocket_id_ m) (wind_field_ m) (death_field_ m)
    (map_end_triggered_ m) (sprite_effects_ m) (rockets_birth_messages_ m)
    (rockets_death_messages_ m) (dynamic_items_birth_messages_ m)
    (dynamic_items_death_messages_ m) (particles_effects_messages_ m)
    (map_events_sounds_messages_ m).
Definition set_static_models_ (v : list StaticModel) (m : Map) : Map :=
  mkMap (procedures_ m) v (dynamic_walls_ m) (rockets_ m) (mines_ m)
    (monsters_ m) (next_rocket_id_ m) (wind_field_ m) (death_field_ m)
    (map_end_triggered_ m) (sprite_effects_ m) (rockets_birth_messages_ m)
    (rockets_death_messages_ m) (dynamic_items_birth_messages_ m)
    (dynamic_items_death_messages_ m) (particles_effects_messages_ m)
    (map_events_sounds_messages_ m).
Definition set_dynamic_walls_ (v : list DynamicWall) (m : Map) : Map :=
  mkMap (procedures_ m) (static_models_ m) v (rockets_ m) (mines_ m)
    (monsters_ m) (next_rocket_id_ m) (wind_field_ m) (death_field_ m)
    (map_end_triggered_ m) (sprite_effects_ m) (rockets_birth_messages_ m)
    (rockets_death_messages_ m) (dynamic_items_birth_messages_ m)
    (dynamic_items_death_messages_ m) (particles_effects_messages_ m)
    (map_events_sounds_messages_ m).
Definition set_rockets_ (v : list Rocket) (m : Map) : Map :=
  mkMap (procedures_ m) (static_models_ m) (dynamic_walls_ m) v (mines_ m)
    (monsters_ m) (next_rocket_id_ m) (wind_field_ m) (death_field_ m)
    (map_end_triggered_ m) (sprite_effects_ m) (rockets_birth_messages_ m)
    (rockets_death_messages_ m) (dynamic_items_birth_messages_ m)
    (dynamic_items_death_messages_ m) (particles_effects_messages_ m)
    (map_events_sounds_messages_ m).
Definition set_mines_ (v : list Mine) (m : Map) : Map :=
  mkMap (procedures_ m) (static_models_ m) (dynamic_walls_ m) (rockets_ m) v
    (monsters_ m) (next_rocket_id_ m) (wind_field_ m) (death_field_ m)
    (map_end_triggered_ m) (sprite_effects_ m) (rockets_birth_messages_ m)
    (rockets_death_messages_ m) (dynamic_items_birth_messages_ m)
    (dynamic_items_death_messages_ m) (particles_effects_messages_ m)
    (map_events_sounds_messages_ m).
Definition set_monsters_ (v : list (EntityId * MonsterBase)) (m : Map) : Map :=
  mkMap (procedures_ m) (static_models_ m) (dynamic_walls_ m) (rockets_ m)
    (mines_ m) v (next_rocket_id_ m) (wind_field_ m) (death_field_ m)
    (map_end_triggered_ m) (sprite_effects_ m) (rockets_birth_messages_ m)
    (rockets_death_messages_ m) (dynamic_items_birth_messages_ m)
    (dynamic_items_death_messages_ m) (particles_effects_messages_ m)
    (map_events_sounds_messages_ m).
Definition set_next_rocket_id_ (v : EntityId) (m : Map) : Map :=
  mkMap (procedures_ m) (static_models_ m) (dynamic_walls_ m) (rockets_ m)
    (mines_ m) (monsters_ m) v (wind_field_ m) (death_field_ m)
    (map_end_triggered_ m) (sprite_effects_ m) (rockets_birth_messages_ m)
    (rockets_death_messages_ m) (dynamic_items_birth_messages_ m)
    (dynamic_items_death_messages_ m) (particles_effects_messages_ m)
    (map_events_sounds_messages_ m).
Definition set_wind_field_ (v : nat -> Z * Z) (m : Map) : Map :=
  mkMap (procedures_ m) (static_models_ m) (dynamic_walls_ m) (rockets_ m)
    (mines_ m) (monsters_ m) (next_rocket_id_ m) v (death_field_ m)
    (map_end_triggered_ m) (sprite_effects_ m) (rockets_birth_messages_ m)
    (rockets_death_messages_ m) (dynamic_items_birth_messages_ m)
    (dynamic_items_death_messages_ m) (particles_effects_messages_ m)
    (map_events_sounds_messages_ m).
Definition set_death_field_ (v : nat -> DamageFiledCell) (m : Map) : Map :=
  mkMap (procedures_ m) (static_models_ m) (dynamic_walls_ m) (rockets_ m)
    (mines_ m) (monsters_ m) (next_rocket_id_ m) (wind_field_ m) v
    (map_end_triggered_ m) (sprite_effects_ m) (rockets_birth_messages_ m)
    (rockets_death_messages_ m) (dynamic_items_birth_messages_ m)
    (dynamic_items_death_messages_ m) (particles_effects_messages_ m)
    (map_events_sounds_messages_ m).
Definition set_map_end_triggered_ (v : bool) (m : Map) : Map :=
  mkMap (procedures_ m) (static_models_ m) (dynamic_walls_ m) (rockets_ m)
    (mines_ m) (monsters_ m) (next_rocket_id_ m) (wind_field_ m)
    (death_field_ m) v (sprite_effects_ m) (rockets_birth_messages_ m)
    (rockets_death_messages_ m) (dynamic_items_birth_messages_ m)
    (dynamic_items_death_messages_ m) (particles_effects_messages_ m)
    (map_events_sounds_messages_ m).
Definition set_sprite_effects_ (v : list SpriteEffect) (m : Map) : Map :=
  mkMap (procedures_ m) (static_models_ m) (dynamic_walls_ m) (rockets_ m)
    (mines_ m) (monsters_ m) (next_rocket_id_ m) (wind_field_ m)
    (death_field_ m) (map_end_triggered_ m) v (rockets_birth_messages_ m)
    (rockets_death_messages_ m) (dynamic_items_birth_messages_ m)
    (dynamic_items_death_messages_ m) (particles_effects_messages_ m)
    (map_events_sounds_messages_ m).
Definition set_rockets_birth_messages_ (v : list RocketBirth) (m : Map) : Map :=
  mkMap (procedures_ m) (static_models_ m) (dynamic_walls_ m) (rockets_ m)
    (mines_ m) (monsters_ m) (next_rocket_id_ m) (wind_field_ m)
    (death_field_ m) (map_end_triggered_ m) (sprite_effects_ m) v
    (rockets_death_messages_ m) (dynamic_items_birth_messages_ m)
    (dynamic_items_death_messages_ m) (particles_effects_messages_ m)
    (map_events_sounds_messages_ m).
Definition set_rockets_death_messages_ (v : list RocketDeath) (m : Map) : Map :=
  mkMap (procedures_ m) (static_models_ m) (dynamic_walls_ m) (rockets_ m)
    (mines_ m) (monsters_ m) (next_rocket_id_ m) (wind_field_ m)
    (death_field_ m) (map_end_triggered_ m) (sprite_effects_ m)
    (rockets_birth_messages_ m) v (dynamic_items_birth_messages_ m)
    (dynamic_items_death_messages_ m) (particles_effects_messages_ m)
    (map_events_sounds_messages_ m).
Definition set_dynamic_items_birth_messages_ (v : list DynamicItemBirth) (m : Map) : Map :=
  mkMap (procedures_ m) (static_models_ m) (dynamic_walls_ m) (rockets_ m)
    (mines_ m) (monsters_ m) (next_rocket_id_ m) (wind_field_ m)
    (death_field_ m) (map_end_triggered_ m) (sprite_effects_ m)
    (rockets_birth_messages_ m) (rockets_death_messages_ m) v
    (dynamic_items_death_messages_ m) (particles_effects_messages_ m)
    (map_events_sounds_messages_ m).
Definition set_dynamic_items_death_messages_ (v : list DynamicItemDeath) (m : Map) : Map :=
  mkMap (procedures_ m) (static_models_ m) (dynamic_walls_ m) (rockets_ m)
    (mines_ m) (monsters_ m) (next_rocket_id_ m) (wind_field_ m)
    (death_field_ m) (map_end_triggered_ m) (sprite_effects_ m)
    (rockets_birth_messages_ m) (rockets_death_messages_ m)
    (dynamic_items_birth_messages_ m) v (particles_effects_messages_ m)
    (map_events_sounds_messages_ m).
Definition set_particles_effects_messages_ (v : list ParticleEffectBirth) (m : Map) : Map :=
  mkMap (procedures_ m) (static_models_ m) (dynamic_walls_ m) (rockets_ m)
    (mines_ m) (monsters_ m) (next_rocket_id_ m) (wind_field_ m)
    (death_field_ m) (map_end_triggered_ m) (sprite_effects_ m)
    (rockets_birth_messages_ m) (rockets_death_messages_ m)
    (dynamic_items_birth_messages_ m) (dynamic_items_death_messages_ m) v
    (map_events_sounds_messages_ m).
Definition set_map_events_sounds_messages_ (v : list MapEventSound) (m : Map) : Map :=
  mkMap (procedures_ m) (static_models_ m) (dynamic_walls_ m) (rockets_ m)
    (mines_ m) (monsters_ m) (next_rocket_id_ m) (wind_field_ m)
    (death_field_ m) (map_end_triggered_ m) (sprite_effects_ m)
    (rockets_birth_messages_ m) (rockets_death_messages_ m)
    (dynamic_items_birth_messages_ m) (dynamic_items_death_messages_ m)
    (particles_effects_messages_ m) v.

(** Field updates of [ProcedureState], [StaticModel] and [Rocket]. *)
Definition set_locked (v : bool) (ps : ProcedureState) : ProcedureState :=
  mkProcedureState v (first_message_printed ps) (movement_state ps)
    (movement_stage ps) (last_state_change_time ps).
Definition set_first_message_printed (v : bool) (ps : ProcedureState) : ProcedureState :=
  mkProcedureState (locked ps) v (movement_state ps)
    (movement_stage ps) (last_state_change_time ps).
Definition set_movement_state (v : MovementState.t) (ps : ProcedureState) : ProcedureState :=
  mkProcedureState (locked ps) (first_message_printed ps) v
    (movement_stage ps) (last_state_change_time ps).
Definition set_movement_stage (v : R) (ps : ProcedureState) : ProcedureState :=
  mkProcedureState (locked ps) (first_message_printed ps) (movement_state ps)
    v (last_state_change_time ps).
Definition set_last_state_change_time (v : Time) (ps : ProcedureState) : ProcedureState :=
  mkProcedureState (locked ps) (first_message_printed ps) (movement_state ps)
    (movement_stage ps) v.

Definition set_pos (v : m_Vec3) (sm : StaticModel) : StaticModel :=
  mkStaticModel v (baze_z sm) (angle sm) (model_id sm) (health sm)
    (animation_state sm) (animation_start_time sm) (animation_start_frame sm)
    (current_animation_frame sm) (picked sm).
Definition set_model_id (v : Z) (sm : StaticModel) : StaticModel :=
  mkStaticModel (pos sm) (baze_z sm) (angle sm) v (health sm)
    (animation_state sm) (animation_start_time sm) (animation_start_frame sm)
    (current_animation_frame sm) (picked sm).
Definition set_health (v : Z) (sm : StaticModel) : StaticModel :=
  mkStaticModel (pos sm) (baze_z sm) (angle sm) (model_id sm) v
    (animation_state sm) (animation_start_time sm) (animation_start_frame sm)
    (current_animation_frame sm) (picked sm).
Definition set_animation (st : AnimationState.t) (t : Time) (frame : Z)
    (sm : StaticModel) : StaticModel :=
  mkStaticModel (pos sm) (baze_z sm) (angle sm) (model_id sm) (health sm)
    st t frame (current_animation_frame sm) (picked sm).

Definition set_texture_id (v : nat) (w : DynamicWall) : DynamicWall :=
  mkDynamicWall (vert_pos_0 w) (vert_pos_1 w) (wall_z w) v.

(** Wrap-around of 32-bit unsigned arithmetic. *)
Definition wrap32 (v : Z) : Z := (v mod 2 ^ 32)%Z.

(** Defaults read by an unchecked index out of range (see the header). *)
Definition default_procedure : Procedure :=
  mkProcedure 0 0 0 0 false false false false 0 0 0 [] [].
Definition default_model_description : ModelDescription :=
  mkModelDescription 0 0 0 0 0 0.
Definition default_model : Model := mkModel 0 0 0.
Definition default_wall : Wall := mkWall (mkVec2 0 0) (mkVec2 0 0) 0.
Definition default_rocket_description : RocketDescription :=
  mkRocketDescription EmptyString 0 false false false 0 0 0.
Definition default_monster_description : MonsterDescription :=
  mkMonsterDescription 0.
Definition default_static_model : StaticModel :=
  mkStaticModel (mkVec3 0 0 0) 0 0 0 0 AnimationState.Animation 0 0 0 false.

(** A procedure state as [procedures_.resize] creates it. *)
Definition initial_procedure_state : ProcedureState :=
  mkProcedureState false false MovementState.None 0 0.

(** The pure part of [Map::MoveMapObjects] that reads a procedure state:
    the absolute stage that scales every transformation. *)
Definition absolute_action_stage (procedure_state : ProcedureState) : R :=
  match movement_state procedure_state with
  | MovementState.Movement => movement_stage procedure_state
  | MovementState.BackWait => 1
  | MovementState.ReverseMovement => 1 - movement_stage procedure_state
  | _ => 0
  end.

(** What [map.cpp] reads of a [Player] when a procedure is activated. *)
Record Player := mkPlayer {
  HaveRedKey : bool;
  HaveGreenKey : bool;
  HaveBlueKey : bool;
  last_activated_procedure : nat;
  last_activated_procedure_activation_time : Time }.

(** * The sound engine: a shallow embedding of [sound/sound_engine.cpp]

    [sound_engine.hpp], the sound driver and the sound loader are not part
    of the verified sources: [Source], [Channel] and the sound data are
    records read off the uses in [sound_engine.cpp]; a null pointer to sound
    data is [None]; the arrays [global_sounds_], [sources_] and the channels
    of the driver are lists, [sources_] and the channels of the same length
    [Channel::c_max_channels].  An index past the end of [global_sounds_]
    (undefined behaviour in the source) reads a null pointer. *)

Module SoundEngine.

Record SoundData := mkSoundData {
  sample_count_ : nat;
  data_size : nat }.

Record Source := mkSource {
  is_free : bool;
  sound_id : nat;
  pos_samples : nat }.

Record Channel := mkChannel {
  is_active : bool;
  volume0 : R;
  volume1 : R;
  position_samples : nat;
  src_sound_data : option SoundData }.

Record t := mkSoundEngine {
  global_sounds_ : list (option SoundData);
  sources_ : list Source;
  channels : list Channel }.

Definition sound_at (global_sounds : list (option SoundData)) (s : nat)
    : option SoundData :=
  default None (global_sounds !! s).

(** [SoundEngine::~SoundEngine]: "Force stop all channels." *)
Definition stop_all_channels (e : t) : t :=
  mkSoundEngine (global_sounds_ e) (sources_ e)
    (map (fun channel =>
            mkChannel false (volume0 channel) (volume1 channel)
              (position_samples channel) (src_sound_data channel))
         (channels e)).

(** The body of the loop of [SoundEngine::Tick] for one channel and its
    source. *)
Definition tick_channel (global_sounds : list (option SoundData))
    (source : Source) (channel : Channel) : Source * Channel :=
  if is_free source
  then (source,
        mkChannel false (volume0 channel) (volume1 channel)
          (position_samples channel) (src_sound_data channel))
  else
    let channel :=
      mkChannel (is_active channel) 1 1 (position_samples channel)
        (src_sound_data channel) in
    let channel :=
      if negb (is_active channel)
      then mkChannel true (volume0 channel) (volume1 channel) 0
             (sound_at global_sounds (sound_id source))
      else channel in
    if is_active channel &&
       match src_sound_data channel with
       | Some sound => (sample_count_ sound <=? position_samples channel)%nat
       | None => false
       end
    then (mkSource true (sound_id source) (pos_samples source),
          mkChannel false (volume0 channel) (volume1 channel)
            (position_samples channel) (src_sound_data channel))
    else (source, channel).

Definition Tick (e : t) : t :=
  let ticked :=
    zip_with (tick_channel (global_sounds_ e)) (sources_ e) (channels e) in
  mkSoundEngine (global_sounds_ e) (map fst ticked) (map snd ticked).

(** [SoundEngine::PlayHeadSound] *)
Definition PlayHeadSound (sound_number : nat) (e : t) : t :=
  match list_find (fun s => is_free s = true) (sources_ e) with
  | None => e
  | Some (i, _) =>
    match sound_at (global_sounds_ e) sound_number with
    | None => e
    | Some _ =>
      mkSoundEngine (global_sounds_ e)
        (<[i := mkSource false sound_number 0]> (sources_ e)) (channels e)
    end
  end.

(** [SoundEngine::SetHeadPosition] and [SoundEngine::PlayWorldSound] do
    nothing yet. *)
Definition SetHeadPosition (position : m_Vec3) (z_angle x_angle : R) (e : t)
    : t := e.

Definition PlayWorldSound (sound_number : nat) (position : m_Vec3) (e : t)
    : t := e.

(** The engine never has an active channel on a free source. *)
Definition channels_follow_sources (e : t) : Prop :=
  forall i source channel,
    sources_ e !! i = Some source -> channels e !! i = Some channel ->
    is_active channel = true -> is_free source = false.

(** An engine as it is between two sounds: two channels, the first playing
    the sound 1 (of four samples) from its end, the second idle. *)
Definition example_engine : t :=
  mkSoundEngine [None; Some (mkSoundData 4 8)]
    [mkSource false 1 0; mkSource true 0 0]
    [mkChannel true 1 1 4 (Some (mkSoundData 4 8));
     mkChannel false 0 0 0 None].

End SoundEngine.

Section MapModel.

(** The level and the resources the map was built from. *)
Variable map_data_ : MapData.
Variable game_resources_ : GameResources.

(** Constants of headers outside the verified sources. *)
Variable c_map_size : nat.
Variable c_empty_floor_texture_id : nat.
Variable c_sky_floor_texture_id : nat.
Variable ACode_Switch : nat.
Variable procedures_speed_scale : R.
Variable mines_preparation_time_s : R.
Variable mines_activation_radius : R.
Variable player_radius : R.
Variable player_z_pull_distance : R.
Variable rockets_gravity_scale : R.
Variable rockets_speed : R.
Variable fast_rockets_speed : R.
Variable max_float : R.

(** Modelled from the spec: [GameConstants::walls_height] of
    [game_constants.hpp]; the spec places the ceiling at z = 2, and
    [ProcessShot] uses the literal 2 for the top of a wall. *)
Definition walls_height : R := 2.

(** [Player::TryActivateProcedure] ([player.hpp]): the player's own gate
    (debounce), which may update the player. *)
Variable Player_TryActivateProcedure : Player -> nat -> Time -> bool * Player.

Definition procedure_at (p : nat) : Procedure :=
  nth p (procedures map_data_) default_procedure.

Definition model_description_at (model_id : Z) : option ModelDescription :=
  if (0 <=? model_id)%Z then models_description map_data_ !! Z.to_nat model_id
  else None.

Definition model_at (model_id : Z) : option Model :=
  if (0 <=? model_id)%Z then models map_data_ !! Z.to_nat model_id
  else None.

(** ** [Map::Map]: the procedure states after construction *)
Definition initial_procedures : list ProcedureState :=
  map (fun procedure =>
         if proc_locked procedure
         then set_locked true initial_procedure_state
         else initial_procedure_state)
      (procedures map_data_).

(** ** [Map::ActivateProcedure] *)
Definition ActivateProcedure (procedure_number : nat) (current_time : Time)
    (m : Map) : Map :=
  set_procedures_
    (alter (fun procedure_state =>
              set_last_state_change_time current_time
                (set_movement_state MovementState.StartWait
                   (set_movement_stage 0 procedure_state)))
           procedure_number (procedures_ m)) m.

Definition is_None (s : MovementState.t) : bool :=
  match s with MovementState.None => true | _ => false end.

(** ** [Map::TryActivateProcedure].  [messages_sender] is the list of text
    messages sent so far. *)
Definition have_necessary_keys (procedure : Procedure) (player : Player) : bool :=
  (negb (red_key_required procedure) || HaveRedKey player) &&
  (negb (green_key_required procedure) || HaveGreenKey player) &&
  (negb (blue_key_required procedure) || HaveBlueKey player).

Definition TryActivateProcedure (procedure_number : nat) (current_time : Time)
    (player : Player) (messages_sender : list TextMessage) (m : Map)
    : Player * list TextMessage * Map :=
  let '(permitted, player) :=
    Player_TryActivateProcedure player procedure_number current_time in
  if negb permitted then (player, messages_sender, m) else
  match procedures_ m !! procedure_number with
  | None => (player, messages_sender, m)
  | Some procedure_state =>
    let procedure := procedure_at procedure_number in
    let keys := have_necessary_keys procedure player in
    let m :=
      if keys && negb (locked procedure_state) &&
         is_None (movement_state procedure_state)
      then ActivateProcedure procedure_number current_time m
      else m in
    let first := negb (first_message_number procedure =? 0)%nat &&
                 negb (first_message_printed procedure_state) in
    let m :=
      if first
      then set_procedures_
             (alter (set_first_message_printed true) procedure_number
                    (procedures_ m)) m
      else m in
    let messages_sender :=
      if first
      then messages_sender ++ [mkTextMessage (first_message_number procedure)]
      else messages_sender in
    let messages_sender :=
      if negb (lock_message_number procedure =? 0)%nat &&
         (locked procedure_state || negb keys)
      then messages_sender ++ [mkTextMessage (lock_message_number procedure)]
      else messages_sender in
    let messages_sender :=
      if negb (on_message_number procedure =? 0)%nat
      then messages_sender ++ [mkTextMessage (on_message_number procedure)]
      else messages_sender in
    (player, messages_sender, m)
  end.

(** ** [Map::ProcedureProcessDestroy] *)
Definition ProcedureProcessDestroy (procedure_number : nat)
    (current_time : Time) (m : Map) : Map :=
  ActivateProcedure procedure_number current_time
    (set_procedures_
       (alter (set_locked false) procedure_number (procedures_ m)) m).

(** ** [Map::ProcedureProcessShoot] *)
Definition ProcedureProcessShoot (procedure_number : nat)
    (current_time : Time) (m : Map) : Map :=
  match procedures_ m !! procedure_number with
  | None => m
  | Some procedure_state =>
    if negb (is_None (movement_state procedure_state)) then m
    else if locked procedure_state then m
    else ActivateProcedure procedure_number current_time m
  end.

(** ** [Map::ReturnProcedure] *)
Definition ReturnProcedure (procedure_number : nat) (current_time : Time)
    (m : Map) : Map :=
  let procededure := procedure_at procedure_number in
  match procedures_ m !! procedure_number with
  | None => m
  | Some procedure_state =>
    if locked procedure_state then m else
    match movement_state procedure_state with
    | MovementState.None | MovementState.ReverseMovement => m
    | MovementState.StartWait =>
      set_procedures_
        (alter (set_movement_state MovementState.None) procedure_number
               (procedures_ m)) m
    | MovementState.Movement =>
      let dt_s :=
        if Rlt_dec 0 (speed procededure)
        then Rmax (1 / (speed procededure * procedures_speed_scale) -
                   (current_time - last_state_change_time procedure_state)) 0
        else 0 in
      set_procedures_
        (alter (fun ps =>
                  set_last_state_change_time (current_time - dt_s)
                    (set_movement_state MovementState.ReverseMovement ps))
               procedure_number (procedures_ m)) m
    | MovementState.BackWait =>
      set_procedures_
        (alter (fun ps =>
                  set_last_state_change_time current_time
                    (set_movement_state MovementState.ReverseMovement ps))
               procedure_number (procedures_ m)) m
    end
  end.

(** ** [Map::PlayMapEventSound], [Map::AddParticleEffect] *)
Definition PlayMapEventSound (p : m_Vec3) (sound_id : SoundId) (m : Map) : Map :=
  set_map_events_sounds_messages_
    (map_events_sounds_messages_ m ++ [mkMapEventSound p sound_id]) m.

Definition AddParticleEffect (p : m_Vec3) (particle_effect : ParticleEffect)
    (m : Map) : Map :=
  set_particles_effects_messages_
    (particles_effects_messages_ m ++ [mkParticleEffectBirth p particle_effect]) m.

(** ** [Map::ActivateProcedureSwitches] *)
Definition activate_switch_model (inverse_animation : bool)
    (current_time : Time) (model : StaticModel) : StaticModel :=
  match animation_state model with
  | AnimationState.SingleFrame =>
    if inverse_animation
    then set_animation AnimationState.SingleReverseAnimation current_time
           (match model_at (model_id model) with
            | Some model_geometry => wrap32 (frame_count model_geometry - 1)
            | None => 0%Z
            end) model
    else set_animation AnimationState.SingleAnimation current_time 0%Z model
  | _ => model
  end.

Definition activate_switch (inverse_animation : bool) (current_time : Time)
    (m : Map) (siwtch_pos : SwitchPos) : Map :=
  if ((c_map_size <=? sw_x siwtch_pos) || (c_map_size <=? sw_y siwtch_pos))%nat
  then m
  else
    let index_element :=
      map_index map_data_ (sw_x siwtch_pos + sw_y siwtch_pos * c_map_size)%nat in
    match ie_type index_element with
    | IndexElement.StaticModel =>
      set_static_models_
        (alter (activate_switch_model inverse_animation current_time)
               (ie_index index_element) (static_models_ m)) m
    | _ => m
    end.

Definition ActivateProcedureSwitches (procedure : Procedure)
    (inverse_animation : bool) (current_time : Time) (m : Map) : Map :=
  foldl (activate_switch inverse_animation current_time) m
        (linked_switches procedure).

(** ** [Map::EmitModelDestructionEffects] and [Map::DestroyModel] *)
Definition EmitModelDestructionEffects (model_number : nat) (m : Map) : Map :=
  match static_models_ m !! model_number with
  | None => m
  | Some model =>
    match model_description_at (model_id model) with
    | None => m
    | Some description =>
      let model_data := default default_model (model_at (model_id model)) in
      let blow_effect_id := (blow_effect description mod 100)%nat in
      let p :=
        set_z (pos model)
          (v3z (pos model) + (z_min model_data + z_max model_data) * 0.5 +
           IZR (bmpz description) / 128) in
      let m := AddParticleEffect p (FirstBlowEffect_plus blow_effect_id) m in
      if (break_sfx_number description =? 0)%nat then m
      else PlayMapEventSound p (SoundNumber (break_sfx_number description)) m
    end
  end.

Definition DestroyModel (model_index : nat) (m : Map) : Map :=
  let m := EmitModelDestructionEffects model_index m in
  set_static_models_
    (alter (fun model =>
              let new_id := (model_id model + 1)%Z in
              set_health
                (match model_description_at new_id with
                 | Some description => break_limit description
                 | None => 0%Z
                 end)
                (set_model_id new_id model))
           model_index (static_models_ m)) m.

(** ** [Map::ProcessWind] and [Map::ProcessDeathZone] *)

(** The cells visited by
    [for( y= y0; y <= y1 && y < c_map_size; y++ )
     for( x= x0; x <= x1 && x < c_map_size; x++ )], in order. *)
Definition rect_cells (x0 y0 x1 y1 : nat) : list nat :=
  flat_map
    (fun yy => map (fun xx => (xx + yy * c_map_size)%nat)
                   (seq x0 (Nat.min (S x1) c_map_size - x0)))
    (seq y0 (Nat.min (S y1) c_map_size - y0)).

Definition update_cell {A} (f : nat -> A) (i : nat) (v : A) : nat -> A :=
  fun j => if (j =? i)%nat then v else f j.

Definition ProcessWind (command : ActionCommand) (activate : bool) (m : Map) : Map :=
  let x0 := float_to_uint (arg command 0) in
  let y0 := float_to_uint (arg command 1) in
  let x1 := float_to_uint (arg command 2) in
  let y1 := float_to_uint (arg command 3) in
  let dir_x := float_to_int (arg command 4) in
  let dir_y := float_to_int (arg command 5) in
  set_wind_field_
    (foldl (fun field cell =>
              update_cell field cell
                (if activate then (dir_x, dir_y) else (0%Z, 0%Z)))
           (wind_field_ m) (rect_cells x0 y0 x1 y1)) m.

Definition ProcessDeathZone (command : ActionCommand) (activate : bool)
    (m : Map) : Map :=
  let x0 := float_to_uint (arg command 0) in
  let y0 := float_to_uint (arg command 1) in
  let x1 := float_to_uint (arg command 2) in
  let y1 := float_to_uint (arg command 3) in
  let z_0 := float_to_int (arg command 4) in
  let z_1 := float_to_int (arg command 5) in
  let damage_ := float_to_int (arg command 6) in
  set_death_field_
    (foldl (fun field cell =>
              update_cell field cell
                (if activate
                 then mkDamageFiledCell damage_
                        (Z.max (Z.min z_0 255) 0) (Z.max (Z.min z_1 255) 0)
                 else mkDamageFiledCell 0 (cell_z_bottom (field cell))
                        (cell_z_top (field cell))))
           (death_field_ m) (rect_cells x0 y0 x1 y1)) m.

(** ** [Map::DoProcedureImmediateCommands] *)
Definition change_model (new_id : nat) (model : StaticModel) : StaticModel :=
  let model :=
    match model_description_at (model_id model) with
    | Some description =>
      if (ac description =? ACode_Switch)%nat
      then set_animation AnimationState.SingleFrame
             (animation_start_time model) 0%Z model
      else model
    | None =>
      set_animation AnimationState.Animation (animation_start_time model) 0%Z model
    end in
  set_model_id (Z.of_nat new_id - 163)%Z model.

Definition do_immediate_command (m : Map) (command : ActionCommand) : Map :=
  match cmd_id command with
  | ActionCommandId.Lock =>
    set_procedures_
      (alter (set_locked true) (float_to_uint (arg command 0)) (procedures_ m)) m
  | ActionCommandId.Unlock =>
    set_procedures_
      (alter (set_locked false) (float_to_uint (arg command 0)) (procedures_ m)) m
  | ActionCommandId.PlayAnimation => m
  | ActionCommandId.StopAnimation => m
  | ActionCommandId.Change =>
    let cx := float_to_uint (arg command 0) in
    let cy := float_to_uint (arg command 1) in
    let new_id := float_to_uint (arg command 2) in
    if ((cx <? c_map_size) && (cy <? c_map_size))%nat then
      let index_element := map_index map_data_ (cx + cy * c_map_size)%nat in
      match ie_type index_element with
      | IndexElement.StaticModel =>
        set_static_models_
          (alter (change_model new_id) (ie_index index_element)
                 (static_models_ m)) m
      | IndexElement.DynamicWall =>
        set_dynamic_walls_
          (alter (set_texture_id new_id) (ie_index index_element)
                 (dynamic_walls_ m)) m
      | _ => m
      end
    else m
  | ActionCommandId.Wind => ProcessWind command true m
  | ActionCommandId.Death => ProcessDeathZone command true m
  | ActionCommandId.Explode =>
    let cx := float_to_uint (arg command 0) in
    let cy := float_to_uint (arg command 1) in
    if ((cx <? c_map_size) && (cy <? c_map_size))%nat then
      let index_element := map_index map_data_ (cx + cy * c_map_size)%nat in
      match ie_type index_element with
      | IndexElement.StaticModel => DestroyModel (ie_index index_element) m
      | _ => m
      end
    else m
  | _ => m
  end.

Definition DoProcedureImmediateCommands (procedure : Procedure) (m : Map) : Map :=
  foldl do_immediate_command m (action_commands procedure).

(** ** [Map::DoProcedureDeactivationCommands] *)
Definition is_Nonstop (command : ActionCommand) : bool :=
  match cmd_id command with ActionCommandId.Nonstop => true | _ => false end.

Definition do_deactivation_command (m : Map) (command : ActionCommand) : Map :=
  match cmd_id command with
  | ActionCommandId.Wind => ProcessWind command false m
  | ActionCommandId.Death => ProcessDeathZone command false m
  | _ => m
  end.

Definition DoProcedureDeactivationCommands (procedure : Procedure) (m : Map) : Map :=
  if existsb is_Nonstop (action_commands procedure) then m
  else foldl do_deactivation_command m (action_commands procedure).

(** ** [Map::Tick], first loop: "Update state of procedures" *)

(** Writes through the reference [procedure_state]. *)
Definition enter_state (p : nat) (s : MovementState.t) (current_time : Time)
    (m : Map) : Map :=
  set_procedures_
    (alter (fun ps =>
              set_last_state_change_time current_time
                (set_movement_stage 0 (set_movement_state s ps)))
           p (procedures_ m)) m.

Definition write_stage (p : nat) (new_stage : R) (m : Map) : Map :=
  set_procedures_ (alter (set_movement_stage new_stage) p (procedures_ m)) m.

Definition new_stage_of (procedure : Procedure) (elapsed : R) : R :=
  if Rlt_dec 0 (speed procedure)
  then elapsed * speed procedure * procedures_speed_scale
  else 1.

(** The body of the loop for procedure number [p]. *)
Definition tick_procedure (current_time : Time) (m : Map) (p : nat) : Map :=
  match procedures_ m !! p with
  | None => m
  | Some procedure_state =>
    let procedure := procedure_at p in
    let time_since_last_state_change :=
      current_time - last_state_change_time procedure_state in
    let new_stage := new_stage_of procedure time_since_last_state_change in
    let m :=
      if negb (is_None (movement_state procedure_state)) &&
         (if Rlt_dec 0 (end_delay_s procedure) then true else false) &&
         (if Rle_dec (end_delay_s procedure) time_since_last_state_change
          then true else false)
      then set_map_end_triggered_ true m
      else m in
    match movement_state procedure_state with
    | MovementState.None => m
    | MovementState.StartWait =>
      if Rle_dec (start_delay_s procedure) time_since_last_state_change
      then
        let m := ActivateProcedureSwitches procedure false current_time m in
        let m := DoProcedureImmediateCommands procedure m in
        enter_state p MovementState.Movement current_time m
      else write_stage p new_stage m
    | MovementState.Movement =>
      if Rle_dec 1 new_stage
      then
        let m := DoProcedureDeactivationCommands procedure m in
        enter_state p MovementState.BackWait current_time m
      else write_stage p new_stage m
    | MovementState.BackWait =>
      let wait_time := current_time - last_state_change_time procedure_state in
      if Rlt_dec 0 (back_wait_s procedure) then
        if Rle_dec (back_wait_s procedure) wait_time then
          let m := ActivateProcedureSwitches procedure true current_time m in
          enter_state p MovementState.ReverseMovement current_time m
        else m
      else m
    | MovementState.ReverseMovement =>
      if Rle_dec 1 new_stage
      then enter_state p MovementState.None current_time m
      else write_stage p new_stage m
    end
  end.

Definition Tick_procedures (current_time : Time) (m : Map) : Map :=
  foldl (tick_procedure current_time) m (seq 0 (length (procedures_ m))).

(** ** Nearest-hit resolution: [Map::ProcessShot] *)

(** Geometry queries of [collisions.hpp] and the ray traversal of the
    collision index ([collision_index.inl]).  [RayCast] gives the index
    elements the traversal visits, in order; the visitor of [ProcessShot]
    never stops it. *)
Variable RayCast : m_Vec3 -> m_Vec3 -> R -> list IndexElementT.
Variable RayIntersectWall :
  m_Vec2 -> m_Vec2 -> R -> R -> m_Vec3 -> m_Vec3 -> option m_Vec3.
Variable RayIntersectCylinder :
  m_Vec2 -> R -> R -> R -> m_Vec3 -> m_Vec3 -> option m_Vec3.
Variable RayIntersectXYPlane : R -> m_Vec3 -> m_Vec3 -> option m_Vec3.
(** [MonsterBase::TryShot] ([monster_base.hpp]). *)
Variable TryShot : MonsterBase -> m_Vec3 -> m_Vec3 -> option m_Vec3.

(** A default-constructed [HitResult]. *)
Definition no_hit : HitResult := mkHitResult ObjectType.None 0 (mkVec3 0 0 0).

(** The accumulator of [ProcessShot]: [result] and
    [nearest_shot_point_square_distance]. *)
Definition ShotAcc : Type := HitResult * R.

(** The lambda [process_candidate_shot_pos]. *)
Definition process_candidate_shot_pos (shot_start_point : m_Vec3)
    (acc : ShotAcc) (candidate_pos : m_Vec3) (object_type : ObjectType.t)
    (object_index : nat) : ShotAcc :=
  let square_distance := SquareLength3 (sub3 candidate_pos shot_start_point) in
  if Rlt_dec square_distance (snd acc)
  then (mkHitResult object_type object_index candidate_pos, square_distance)
  else acc.

(** The lambda [func], the visitor of the static index elements. *)
Definition shot_static_element (m : Map) (shot_start_point direction : m_Vec3)
    (acc : ShotAcc) (element : IndexElementT) : ShotAcc :=
  match ie_type element with
  | IndexElement.StaticWall =>
    let wall := nth (ie_index element) (static_walls map_data_) default_wall in
    if gso1 (walls_textures map_data_ (wall_texture_id wall)) then acc
    else
      match RayIntersectWall (vert_pos0 wall) (vert_pos1 wall) 0 2
              shot_start_point direction with
      | Some candidate_pos =>
        process_candidate_shot_pos shot_start_point acc candidate_pos
          ObjectType.StaticWall (ie_index element)
      | None => acc
      end
  | IndexElement.StaticModel =>
    match static_models_ m !! ie_index element with
    | None => acc
    | Some model =>
      match model_description_at (model_id model) with
      | None => acc
      | Some model_description =>
        if Rle_dec (model_radius model_description) 0 then acc
        else
          let model_data := default default_model (model_at (model_id model)) in
          match RayIntersectCylinder (xy (pos model))
                  (model_radius model_description)
                  (z_min model_data + v3z (pos model))
                  (z_max model_data + v3z (pos model))
                  shot_start_point direction with
          | Some candidate_pos =>
            process_candidate_shot_pos shot_start_point acc candidate_pos
              ObjectType.Model (ie_index element)
          | None => acc
          end
      end
    end
  | _ => acc
  end.

(** The body of the loop over [dynamic_walls_]; the index is the position
    of the wall in the vector. *)
Definition shot_dynamic_wall (shot_start_point direction : m_Vec3)
    (acc : ShotAcc) (iw : nat * DynamicWall) : ShotAcc :=
  let wall := snd iw in
  if gso1 (walls_textures map_data_ (texture_id wall)) then acc
  else
    match RayIntersectWall (vert_pos_0 wall) (vert_pos_1 wall)
            (wall_z wall) (wall_z wall + 2) shot_start_point direction with
    | Some candidate_pos =>
      process_candidate_shot_pos shot_start_point acc candidate_pos
        ObjectType.DynamicWall (fst iw)
    | None => acc
    end.

(** The body of the loop over [monsters_]. *)
Definition shot_monster (shot_start_point direction : m_Vec3)
    (skip_monster_id : EntityId) (acc : ShotAcc)
    (monster_value : EntityId * MonsterBase) : ShotAcc :=
  if (fst monster_value =? skip_monster_id)%nat then acc
  else
    match TryShot (snd monster_value) shot_start_point direction with
    | Some candidate_pos =>
      process_candidate_shot_pos shot_start_point acc candidate_pos
        ObjectType.Monster (fst monster_value)
    | None => acc
    end.

(** The body of the loop [for( z= 0; z <= 2; z+= 2 )] over floor and
    ceiling. *)
Definition shot_floor (shot_start_point direction : m_Vec3)
    (acc : ShotAcc) (zi : nat) : ShotAcc :=
  match RayIntersectXYPlane (INR zi) shot_start_point direction with
  | None => acc
  | Some candidate_pos =>
    let fx := Int_part (v3x candidate_pos) in
    let fy := Int_part (v3y candidate_pos) in
    if ((fx <? 0) || (Z.of_nat c_map_size <=? fx) ||
        (fy <? 0) || (Z.of_nat c_map_size <=? fy))%Z
    then acc
    else
      let coord := Z.to_nat (fx + fy * Z.of_nat c_map_size) in
      let texture :=
        (if (zi =? 0)%nat then floor_textures map_data_
         else ceiling_textures map_data_) coord in
      if ((texture =? c_empty_floor_texture_id) ||
          (texture =? c_sky_floor_texture_id))%nat
      then acc
      else process_candidate_shot_pos shot_start_point acc candidate_pos
             ObjectType.Floor (zi / 2)%nat
  end.

Definition indexed {A} (l : list A) : list (nat * A) :=
  combine (seq 0 (length l)) l.

Definition ProcessShot_acc (m : Map) (shot_start_point
    shot_direction_normalized : m_Vec3) (max_distance : R)
    (skip_monster_id : EntityId) : ShotAcc :=
  let acc : ShotAcc := (no_hit, max_distance * max_distance) in
  let acc :=
    foldl (shot_static_element m shot_start_point shot_direction_normalized)
      acc (RayCast shot_start_point shot_direction_normalized max_distance) in
  let acc :=
    foldl (shot_dynamic_wall shot_start_point shot_direction_normalized)
      acc (indexed (dynamic_walls_ m)) in
  let acc :=
    foldl (shot_monster shot_start_point shot_direction_normalized
             skip_monster_id) acc (monsters_ m) in
  foldl (shot_floor shot_start_point shot_direction_normalized)
    acc [0; 2]%nat.

Definition ProcessShot (m : Map) (shot_start_point
    shot_direction_normalized : m_Vec3) (max_distance : R)
    (skip_monster_id : EntityId) : HitResult :=
  fst (ProcessShot_acc m shot_start_point shot_direction_normalized
         max_distance skip_monster_id).

(** ** [Map::Rocket::HasInfiniteSpeed] *)
Definition rocket_description_at (rocket_type_id : nat) : RocketDescription :=
  nth rocket_type_id (rockets_description game_resources_)
      default_rocket_description.

Definition HasInfiniteSpeed (rocket : Rocket) : bool :=
  match model_file_name (rocket_description_at (rocket_type_id rocket)) with
  | EmptyString => true
  | _ => false
  end.

(** The counter [next_rocket_id_] has the type [EntityId], an unsigned
    integer type of a header that is not part of the verified sources: it
    has [2 ^ EntityId_bits] values, and [next_rocket_id_++] wraps around
    from the greatest of them to 0. *)
Variable EntityId_bits : nat.

Definition EntityId_count : nat := 2 ^ EntityId_bits.

Definition increment_id (id : EntityId) : EntityId :=
  (S id) mod EntityId_count.

(** ** [Map::Shoot].  The parameter the source calls [rocket_id] is the
    rocket type. *)
Definition set_rocket_speed (v : m_Vec3) (rocket : Rocket) : Rocket :=
  mkRocket (start_time rocket) (start_point rocket)
    (normalized_direction rocket) (rocket_id rocket) (owner_id rocket)
    (rocket_type_id rocket) (previous_position rocket) (track_length rocket) v.

Definition Shoot (in_owner_id : EntityId) (in_rocket_type_id : nat)
    (from : m_Vec3) (in_normalized_direction : m_Vec3) (current_time : Time)
    (m : Map) : Map :=
  (* the constructor [Rocket::Rocket] *)
  let rocket :=
    mkRocket current_time from in_normalized_direction (next_rocket_id_ m)
      in_owner_id in_rocket_type_id from 0 (mkVec3 0 0 0) in
  let m := set_next_rocket_id_ (increment_id (next_rocket_id_ m)) m in
  let m :=
    if negb (HasInfiniteSpeed rocket)
    then set_rockets_birth_messages_
           (rockets_birth_messages_ m ++
            [mkRocketBirth (rocket_id rocket) (rocket_type_id rocket)
               (start_point rocket) (normalized_direction rocket)]) m
    else m in
  let description := rocket_description_at (rocket_type_id rocket) in
  let rocket :=
    if reflect description
    then set_rocket_speed
           (scale3 (normalized_direction rocket)
              (if fast description then fast_rockets_speed else rockets_speed))
           rocket
    else rocket in
  set_rockets_ (rockets_ m ++ [rocket]) m.

(** ** [Map::GetFloorLevel] *)
Definition GetFloorLevel (p : m_Vec2) (radius : R) : R :=
  foldl (fun max_dz map_model =>
           if is_dynamic map_model then max_dz else
           match model_description_at (map_model_id map_model) with
           | None => max_dz
           | Some model_description =>
             if negb (ac model_description =? 0)%nat then max_dz
             else if Rle_dec (model_radius model_description) 0 then max_dz
             else
               let square_distance :=
                 SquareLength2 (sub2 p (map_model_pos map_model)) in
               let collision_distance :=
                 model_radius model_description + radius in
               if Rlt_dec (collision_distance * collision_distance)
                    square_distance
               then max_dz
               else
                 let model :=
                   default default_model (model_at (map_model_id map_model)) in
                 if Rle_dec 1.2 (z_max model) then max_dz
                 else Rmax max_dz (z_max model)
           end)
        0 (md_static_models map_data_).

(** ** [Map::PlantMine] *)
Definition PlantMine (p : m_Vec3) (current_time : Time) (m : Map) : Map :=
  let mine :=
    mkMine (set_z p (GetFloorLevel (xy p) 0.2)) current_time
           (next_rocket_id_ m) in
  let m := set_mines_ (mines_ m ++ [mine]) m in
  let m := set_next_rocket_id_ (increment_id (next_rocket_id_ m)) m in
  let m :=
    set_dynamic_items_birth_messages_
      (dynamic_items_birth_messages_ m ++
       [mkDynamicItemBirth (mine_id mine) 30 (mine_pos mine)]) m in
  PlayMapEventSound (mine_pos mine) MineOn m.

(** ** [Map::Tick], "Process shots" *)

(** [MonsterBase::Hit] ([monster_base.hpp]), as far as the monster itself
    is concerned, and the rotation of a vector about an axis
    ([m_Mat4::Rotate] of the vector library). *)
Variable Monster_Hit : MonsterBase -> Z -> EntityId -> Time -> MonsterBase.
Variable Rotate : m_Vec3 -> R -> m_Vec3 -> m_Vec3.

(** [GetNormalForWall] *)
Definition GetNormalForWall (v0 v1 : m_Vec2) : m_Vec3 :=
  let n := mkVec3 (v2y v0 - v2y v1) (v2x v1 - v2x v0) 0 in
  scale3 n (/ Length2 (xy n)).

(** [Map::GenParticleEffectForRocketHit] *)
Definition GenParticleEffectForRocketHit (p : m_Vec3) (rocket_type_id : nat)
    (m : Map) : Map :=
  let description := rocket_description_at rocket_type_id in
  let m :=
    match model_file_name description with
    | EmptyString =>
      if (rk_blow_effect description =? 1)%nat
      then AddParticleEffect p Bullet m else m
    | _ =>
      let m :=
        if ((rk_blow_effect description =? 1) ||
            (rk_blow_effect description =? 3) ||
            (rk_blow_effect description =? 4))%nat
        then AddParticleEffect p Sparkles m else m in
      if (rk_blow_effect description =? 2)%nat
      then AddParticleEffect p Explosion m else m
    end in
  PlayMapEventSound p (FirstRocketHit_plus rocket_type_id) m.

(** [Map::FindNearestPlayerPos].  The players are the monsters whose
    [MonsterId] is 0. *)
Definition players_ (m : Map) : list (EntityId * MonsterBase) :=
  filter (fun mv => MonsterId (snd mv) = 0%nat) (monsters_ m).

Definition FindNearestPlayerPos (p : m_Vec3) (m : Map) : option m_Vec3 :=
  match players_ m with
  | [] => None
  | first_player :: _ =>
    let z_minmax := GetZMinMax (snd first_player) in
    let dz := (v2x z_minmax + v2y z_minmax) * 0.5 in
    Some (fst (foldl
      (fun (acc : m_Vec3 * R) player_value =>
         let player := snd player_value in
         let player_pos_corrected :=
           mkVec3 (v3x (Position player)) (v3y (Position player))
                  (v3z (Position player) + dz) in
         let square_distance := SquareLength3 (sub3 player_pos_corrected p) in
         if Rlt_dec square_distance (snd acc)
         then (player_pos_corrected, square_distance) else acc)
      (mkVec3 0 0 0, max_float) (players_ m)))
  end.

(** [Map::ProcessElementLinks] *)
Definition ie_type_eqb (a b : IndexElement.Type_) : bool :=
  match a, b with
  | IndexElement.None, IndexElement.None
  | IndexElement.StaticWall, IndexElement.StaticWall
  | IndexElement.DynamicWall, IndexElement.DynamicWall
  | IndexElement.StaticModel, IndexElement.StaticModel
  | IndexElement.Item, IndexElement.Item => true
  | _, _ => false
  end.

Definition ProcessElementLinks (element_type : IndexElement.Type_)
    (index : nat) (func : LinkT -> Map -> Map) (m : Map) : Map :=
  foldl (fun m link =>
           let index_element :=
             map_index map_data_ (link_x link + link_y link * c_map_size)%nat in
           if ie_type_eqb (ie_type index_element) element_type &&
              (ie_index index_element =? index)%nat
           then func link m else m)
        m (links map_data_).

Definition shoot_link (current_time : Time) (link : LinkT) (m : Map) : Map :=
  match link_type link with
  | Link.Shoot => ProcedureProcessShoot (proc_id link) current_time m
  | _ => m
  end.

Definition destroy_link (current_time : Time) (link : LinkT) (m : Map) : Map :=
  match link_type link with
  | Link.Destroy => ProcedureProcessDestroy (proc_id link) current_time m
  | _ => m
  end.

(** Field updates of [Rocket]. *)
Definition set_flight (direction previous : m_Vec3) (length_ : R)
    (velocity : m_Vec3) (rocket : Rocket) : Rocket :=
  mkRocket (start_time rocket) (start_point rocket) direction
    (rocket_id rocket) (owner_id rocket) (rocket_type_id rocket)
    previous length_ velocity.

(** The trajectory of a rocket with finite speed during one tick: the
    rocket with its updated velocity and heading, and [new_pos]. *)
Definition rocket_flight (current_time last_tick_delta_s : R) (m : Map)
    (rocket : Rocket) : Rocket * m_Vec3 :=
  let rocket_description := rocket_description_at (rocket_type_id rocket) in
  let time_delta_s := current_time - start_time rocket in
  let gravity_force_ :=
    rockets_gravity_scale * IZR (gravity_force rocket_description) in
  let speed_ :=
    if fast rocket_description then fast_rockets_speed else rockets_speed in
  if reflect rocket_description then
    let velocity :=
      set_z (rocket_speed rocket)
        (v3z (rocket_speed rocket) - gravity_force_ * last_tick_delta_s) in
    let new_pos :=
      add3 (previous_position rocket) (scale3 velocity last_tick_delta_s) in
    let '(new_pos, velocity) :=
      if Rlt_dec (v3z new_pos) 0
      then (set_z new_pos 0, set_z velocity (Rabs (v3z velocity)))
      else (new_pos, velocity) in
    (set_flight (Normalize3 velocity) (previous_position rocket)
       (track_length rocket) velocity rocket, new_pos)
  else if Auto2 rocket_description then
    let direction :=
      match FindNearestPlayerPos (previous_position rocket) m with
      | Some target_pos =>
        let dir_to_target :=
          Normalize3 (sub3 target_pos (previous_position rocket)) in
        let rot_axis := mVec3Cross (normalized_direction rocket) dir_to_target in
        let rot_axis :=
          if Rlt_dec (SquareLength3 rot_axis) (0.001 * 0.001)
          then mkVec3 0 0 1 else rot_axis in
        Normalize3
          (Rotate rot_axis (last_tick_delta_s * (PI / 2))
                  (normalized_direction rocket))
      | None => normalized_direction rocket
      end in
    (set_flight direction (previous_position rocket) (track_length rocket)
       (rocket_speed rocket) rocket,
     add3 (previous_position rocket)
          (scale3 (scale3 direction speed_) last_tick_delta_s))
  else
    (rocket,
     add3 (add3 (start_point rocket)
                (scale3 (normalized_direction rocket) (time_delta_s * speed_)))
          (scale3 (mkVec3 0 0 (-1))
                  (gravity_force_ * time_delta_s * time_delta_s * 0.5))).

(** The smoke trail of one tick. *)
Definition smoke_trail (sprite_effect_id : nat) (rocket : Rocket)
    (new_pos : m_Vec3) : list SpriteEffect * R :=
  let length_delta :=
    Length3 (sub3 new_pos (previous_position rocket)) * 2 in
  let new_track_length := track_length rocket + length_delta in
  (map (fun i =>
          let part := (INR i - track_length rocket) / length_delta in
          mkSpriteEffect
            (add3 (scale3 (previous_position rocket) (1 - part))
                  (scale3 new_pos part))
            sprite_effect_id)
       (seq (S (float_to_uint (track_length rocket)))
            (float_to_uint new_track_length -
             float_to_uint (track_length rocket))),
   new_track_length).

(** "Reflecting rockets does not hit floors." *)
Definition discard_floor_hit (rocket_description : RocketDescription)
    (hit_result : HitResult) : HitResult :=
  match object_type hit_result with
  | ObjectType.Floor =>
    if reflect rocket_description && (object_index hit_result =? 0)%nat
    then mkHitResult ObjectType.None (object_index hit_result)
           (hit_pos hit_result)
    else hit_result
  | _ => hit_result
  end.

(** The first part of the loop body: the hit of this tick and the
    rocket as the body leaves it; sprites of the smoke trail are added to
    the map. *)
Definition rocket_advance (current_time last_tick_delta_s : R) (m : Map)
    (rocket : Rocket) : HitResult * Rocket * Map :=
  let rocket_description := rocket_description_at (rocket_type_id rocket) in
  if HasInfiniteSpeed rocket then
    (ProcessShot m (start_point rocket) (normalized_direction rocket)
       max_float (owner_id rocket), rocket, m)
  else
    let '(rocket, new_pos) :=
      rocket_flight current_time last_tick_delta_s m rocket in
    let dir := sub3 new_pos (previous_position rocket) in
    let max_distance := Length3 dir + 1 / 64 in
    let hit_result :=
      discard_floor_hit rocket_description
        (ProcessShot m (previous_position rocket) (Normalize3 dir)
           max_distance (owner_id rocket)) in
    let sprite_effect_id := smoke_trail_effect_id rocket_description in
    let '(sprites, new_track_length) :=
      if (sprite_effect_id =? 0)%nat then ([], track_length rocket)
      else smoke_trail sprite_effect_id rocket new_pos in
    (hit_result,
     set_flight (normalized_direction rocket) new_pos new_track_length
       (rocket_speed rocket) rocket,
     set_sprite_effects_ (sprite_effects_ m ++ sprites) m).

Definition update_monster (monster_id : EntityId)
    (f : MonsterBase -> MonsterBase) (l : list (EntityId * MonsterBase))
    : list (EntityId * MonsterBase) :=
  map (fun mv => if (fst mv =? monster_id)%nat then (fst mv, f (snd mv)) else mv) l.

(** "Gen hit effect" *)
Definition rocket_hit_particles (rocket : Rocket) (has_infinite_speed : bool)
    (hit_result : HitResult) (m : Map) : Map :=
  let c_walls_effect_offset := 1 / 32 in
  match object_type hit_result with
  | ObjectType.StaticWall =>
    let wall :=
      nth (object_index hit_result) (static_walls map_data_) default_wall in
    GenParticleEffectForRocketHit
      (add3 (hit_pos hit_result)
            (scale3 (GetNormalForWall (vert_pos0 wall) (vert_pos1 wall))
                    c_walls_effect_offset))
      (rocket_type_id rocket) m
  | ObjectType.DynamicWall =>
    let wall :=
      nth (object_index hit_result) (dynamic_walls_ m)
          (mkDynamicWall (mkVec2 0 0) (mkVec2 0 0) 0 0) in
    GenParticleEffectForRocketHit
      (add3 (hit_pos hit_result)
            (scale3 (GetNormalForWall (vert_pos_0 wall) (vert_pos_1 wall))
                    c_walls_effect_offset))
      (rocket_type_id rocket) m
  | ObjectType.Floor =>
    GenParticleEffectForRocketHit
      (add3 (hit_pos hit_result)
            (mkVec3 0 0
               ((if (object_index hit_result =? 0)%nat then 1 else -1) *
                c_walls_effect_offset)))
      (rocket_type_id rocket) m
  | ObjectType.Model =>
    GenParticleEffectForRocketHit (hit_pos hit_result) (rocket_type_id rocket) m
  | ObjectType.Monster =>
    let m := AddParticleEffect (hit_pos hit_result) Blood m in
    if (rk_blow_effect (rocket_description_at (rocket_type_id rocket)) =? 2)%nat
       && negb has_infinite_speed
    then GenParticleEffectForRocketHit (hit_pos hit_result)
           (rocket_type_id rocket) m
    else m
  | ObjectType.None => m
  end.

(** "Try break breakable models" and the other consequences of a hit. *)
Definition rocket_hit_consequences (current_time : Time) (rocket : Rocket)
    (hit_result : HitResult) (m : Map) : Map :=
  let rocket_description := rocket_description_at (rocket_type_id rocket) in
  let index := object_index hit_result in
  match object_type hit_result with
  | ObjectType.Model =>
    match static_models_ m !! index with
    | None => m
    | Some model =>
      match model_description_at (model_id model) with
      | None => m
      | Some model_description =>
        let m :=
          ProcessElementLinks IndexElement.StaticModel index
            (shoot_link current_time) m in
        if (blow_effect model_description =? 0)%nat then m
        else
          let new_health := (health model - power rocket_description)%Z in
          let m :=
            set_static_models_
              (alter (set_health new_health) index (static_models_ m)) m in
          if (new_health <=? 0)%Z
          then ProcessElementLinks IndexElement.StaticModel index
                 (destroy_link current_time) (DestroyModel index m)
          else m
      end
    end
  | ObjectType.StaticWall =>
    ProcessElementLinks IndexElement.StaticWall index
      (shoot_link current_time) m
  | ObjectType.DynamicWall =>
    ProcessElementLinks IndexElement.DynamicWall index
      (shoot_link current_time) m
  | ObjectType.Floor => m
  | ObjectType.Monster =>
    set_monsters_
      (update_monster index
         (fun monster =>
            Monster_Hit monster (power rocket_description) index current_time)
         (monsters_ m)) m
  | ObjectType.None => m
  end.

(** [rockets_[r]= rockets_.back(); rockets_.pop_back()] *)
Definition swap_remove {A} (r : nat) (l : list A) : list A :=
  match last l with
  | Some back =>
    if (r =? length l - 1)%nat then removelast l
    else removelast (<[r := back]> l)
  | None => l
  end.

(** "Try remove rocket": the decision. *)
Definition rocket_dies (current_time : Time) (rocket : Rocket)
    (hit_result : HitResult) : bool :=
  match object_type hit_result with
  | ObjectType.None =>
    (if Rlt_dec 16 (current_time - start_time rocket) then true else false)
    || HasInfiniteSpeed rocket
  | _ => true
  end.

(** The loop body for the rocket at index [r]; the result is the map and
    the next index. *)
Definition tick_rocket (current_time last_tick_delta_s : R) (r : nat)
    (m : Map) : Map * nat :=
  match rockets_ m !! r with
  | None => (m, r)
  | Some rocket0 =>
    let has_infinite_speed := HasInfiniteSpeed rocket0 in
    let '(hit_result, rocket, m) :=
      rocket_advance current_time last_tick_delta_s m rocket0 in
    let m := set_rockets_ (<[r := rocket]> (rockets_ m)) m in
    let m := rocket_hit_particles rocket has_infinite_speed hit_result m in
    let m := rocket_hit_consequences current_time rocket hit_result m in
    if rocket_dies current_time rocket hit_result then
      let m :=
        if negb has_infinite_speed
        then set_rockets_death_messages_
               (rockets_death_messages_ m ++ [mkRocketDeath (rocket_id rocket)]) m
        else m in
      (set_rockets_ (swap_remove r (rockets_ m)) m, r)
    else (m, S r)
  end.

(** The loop [for( r= 0; r < rockets_.size(); )]: every iteration either
    removes a rocket or advances [r], so [rockets_.size() - r] iterations
    are enough; [fuel] counts them. *)
Fixpoint rockets_loop (fuel : nat) (current_time last_tick_delta_s : R)
    (r : nat) (m : Map) : Map :=
  match fuel with
  | O => m
  | S fuel =>
    if (r <? length (rockets_ m))%nat then
      let '(m, r) := tick_rocket current_time last_tick_delta_s r m in
      rockets_loop fuel current_time last_tick_delta_s r m
    else m
  end.

Definition Tick_rockets (current_time last_tick_delta : Time) (m : Map) : Map :=
  rockets_loop (length (rockets_ m)) current_time last_tick_delta 0 m.

(** ** [Map::Tick], "Process mines" *)

Definition monster_description_at (monster_id : nat) : MonsterDescription :=
  nth monster_id (monsters_description game_resources_)
      default_monster_description.

(** The loop "Try activate mine" over [monsters_], with [activated] as
    accumulator. *)
Definition mine_activation_step (mine : Mine) (activated : bool)
    (monster_value : EntityId * MonsterBase) : bool :=
  let monster := snd monster_value in
  let square_distance :=
    SquareLength2 (sub2 (xy (Position monster)) (xy (mine_pos mine))) in
  if Rlt_dec (8 * 8) square_distance then activated
  else
    let monster_radius :=
      if (MonsterId monster =? 0)%nat then player_radius
      else w_radius (monster_description_at (MonsterId monster)) in
    let activation_distance := mines_activation_radius + monster_radius in
    if Rlt_dec square_distance (activation_distance * activation_distance)
    then true else activated.

Definition mine_activated (mine : Mine) (m : Map) : bool :=
  foldl (mine_activation_step mine) false (monsters_ m).

(** The two flags the loop body computes for one mine, [need_kill] and
    [activated]. *)
Definition mine_too_old (current_time : Time) (mine : Mine) : bool :=
  if Rlt_dec 30 (current_time - planting_time mine) then true else false.

Definition mine_explodes (current_time : Time) (mine : Mine) (m : Map) : bool :=
  negb (mine_too_old current_time mine) &&
  (if Rle_dec mines_preparation_time_s (current_time - planting_time mine)
   then true else false) &&
  mine_activated mine m.

Definition mine_need_kill (current_time : Time) (mine : Mine) (m : Map) : bool :=
  mine_too_old current_time mine || mine_explodes current_time mine m.

(** The loop body for the mine at index [i]. *)
Definition tick_mine (current_time : Time) (i : nat) (m : Map) : Map * nat :=
  match mines_ m !! i with
  | None => (m, i)
  | Some mine =>
    let time_delta_s := current_time - planting_time mine in
    let '(need_kill, m) :=
      if Rlt_dec 30 time_delta_s then (true, m)
      else if Rle_dec mines_preparation_time_s time_delta_s then
        if mine_activated mine m
        then (true,
              PlayMapEventSound (mine_pos mine) (SoundNumber 40)
                (AddParticleEffect (mine_pos mine) Explosion m))
        else (false, m)
      else (false, m) in
    if need_kill then
      let m :=
        set_dynamic_items_death_messages_
          (dynamic_items_death_messages_ m ++
           [mkDynamicItemDeath (mine_id mine)]) m in
      (set_mines_ (swap_remove i (mines_ m)) m, i)
    else (m, S i)
  end.

(** The loop [for( m= 0; m < mines_.size(); )], with the same shape as the
    loop over the rockets. *)
Fixpoint mines_loop (fuel : nat) (current_time : Time) (i : nat) (m : Map) : Map :=
  match fuel with
  | O => m
  | S fuel =>
    if (i <? length (mines_ m))%nat then
      let '(m, i) := tick_mine current_time i m in
      mines_loop fuel current_time i m
    else m
  end.

Definition Tick_mines (current_time : Time) (m : Map) : Map :=
  mines_loop (length (mines_ m)) current_time 0 m.

(** ** [Map::CollideWithMap] *)

(** [CollideCircleWithLineSegment] ([collisions.hpp]) and the index
    elements that [collision_index_.ProcessElementsInRadius] visits, in
    order. *)
Variable CollideCircleWithLineSegment :
  m_Vec2 -> m_Vec2 -> m_Vec2 -> R -> option m_Vec2.
Variable ProcessElementsInRadius : m_Vec2 -> R -> list IndexElementT.

(** The variables the lambda captures by reference: [pos], [new_z] and
    [out_on_floor]. *)
Record CollideState := mkCollideState {
  cs_pos : m_Vec2;
  cs_new_z : R;
  cs_on_floor : bool }.

(** The lambda [elements_process_func]. *)
Definition elements_process_func (m : Map) (in_pos : m_Vec3)
    (height radius : R) (st : CollideState) (index_element : IndexElementT)
    : CollideState :=
  let z_bottom := v3z in_pos in
  let z_top := z_bottom + height in
  match ie_type index_element with
  | IndexElement.StaticWall =>
    let wall :=
      nth (ie_index index_element) (static_walls map_data_) default_wall in
    if gso0 (walls_textures map_data_ (wall_texture_id wall)) then st
    else
      match CollideCircleWithLineSegment (vert_pos0 wall) (vert_pos1 wall)
              (cs_pos st) radius with
      | Some new_pos => mkCollideState new_pos (cs_new_z st) (cs_on_floor st)
      | None => st
      end
  | IndexElement.StaticModel =>
    match static_models_ m !! ie_index index_element with
    | None => st
    | Some model =>
      match model_description_at (model_id model) with
      | None => st
      | Some model_description =>
        if Rle_dec (model_radius model_description) 0 then st
        else
          let model_geometry :=
            default default_model (model_at (model_id model)) in
          let model_z_min := z_min model_geometry + v3z (pos model) in
          let model_z_max := z_max model_geometry + v3z (pos model) in
          if Rlt_dec z_top model_z_min then st
          else if Rlt_dec model_z_max z_bottom then st
          else
            let min_distance := radius + model_radius model_description in
            let vec_to_pos := sub2 (cs_pos st) (xy (pos model)) in
            let square_distance := SquareLength2 vec_to_pos in
            if Rle_dec square_distance (min_distance * min_distance) then
              if Rle_dec (z_max model_geometry - z_bottom)
                   player_z_pull_distance
              then mkCollideState (cs_pos st)
                     (Rmax (cs_new_z st) model_z_max) true
              else if Rle_dec (z_top - z_min model_geometry)
                        player_z_pull_distance
              then mkCollideState (cs_pos st)
                     (Rmin (cs_new_z st) (model_z_min - height))
                     (cs_on_floor st)
              else mkCollideState
                     (add2 (xy (pos model))
                        (scale2 vec_to_pos
                           (min_distance / sqrt square_distance)))
                     (cs_new_z st) (cs_on_floor st)
            else st
      end
    end
  | _ => st
  end.

(** The loop over [dynamic_walls_]. *)
Definition collide_dynamic_wall (in_pos : m_Vec3) (height radius : R)
    (st : CollideState) (wall : DynamicWall) : CollideState :=
  let z_bottom := v3z in_pos in
  let z_top := z_bottom + height in
  if Vec2_eq_dec (vert_pos_0 wall) (vert_pos_1 wall) then st
  else if gso0 (walls_textures map_data_ (texture_id wall)) then st
  else if Rlt_dec z_top (wall_z wall) then st
  else if Rlt_dec (wall_z wall + walls_height) z_bottom then st
  else
    match CollideCircleWithLineSegment (vert_pos_0 wall) (vert_pos_1 wall)
            (cs_pos st) radius with
    | Some new_pos => mkCollideState new_pos (cs_new_z st) (cs_on_floor st)
    | None => st
    end.

(** The result is the returned position and [out_on_floor]. *)
Definition CollideWithMap (m : Map) (in_pos : m_Vec3) (height radius : R)
    : m_Vec3 * bool :=
  let st := mkCollideState (xy in_pos) (v3z in_pos) false in
  let st :=
    foldl (elements_process_func m in_pos height radius) st
          (ProcessElementsInRadius (xy in_pos) radius) in
  let st :=
    foldl (collide_dynamic_wall in_pos height radius) st (dynamic_walls_ m) in
  if Rle_dec (cs_new_z st) 0 then (Vec3_of (cs_pos st) 0, true)
  else if Rlt_dec walls_height (cs_new_z st + height)
  then (Vec3_of (cs_pos st) (walls_height - height), cs_on_floor st)
  else (Vec3_of (cs_pos st) (cs_new_z st), cs_on_floor st).

(** ** [Map::Tick], "Collide monsters together" *)

(** The body of the inner loop below the test
    [&second_monster == &first_monster]: both monsters after it. *)
Definition first_monster_k_of (first_monster second_monster : MonsterBase) : R :=
  if ((MonsterId first_monster =? 0) && negb (MonsterId second_monster =? 0))%nat
  then 1
  else if (negb (MonsterId first_monster =? 0) && (MonsterId second_monster =? 0))%nat
  then 0
  else 0.5.

Definition collide_pair (first_monster_radius : R)
    (first_monster_z_minmax : m_Vec2) (first_monster second_monster : MonsterBase)
    : MonsterBase * MonsterBase :=
  if (Health second_monster <=? 0)%Z then (first_monster, second_monster) else
  let square_distance :=
    SquareLength2 (sub2 (xy (Position first_monster))
                        (xy (Position second_monster))) in
  let c_max_collide_distance := 8 in
  if Rlt_dec (c_max_collide_distance * c_max_collide_distance) square_distance
  then (first_monster, second_monster) else
  let second_monster_radius :=
    w_radius (monster_description_at (MonsterId second_monster)) in
  let min_distance := second_monster_radius + first_monster_radius in
  if Rlt_dec (min_distance * min_distance) square_distance
  then (first_monster, second_monster) else
  let second_monster_z_minmax :=
    add2 (GetZMinMax second_monster)
         (mkVec2 (v3z (Position second_monster)) (v3z (Position second_monster))) in
  if Rlt_dec (v2y first_monster_z_minmax) (v2x second_monster_z_minmax)
  then (first_monster, second_monster)
  else if Rlt_dec (v2y second_monster_z_minmax) (v2x first_monster_z_minmax)
  then (first_monster, second_monster) else
  let collide_vec :=
    Normalize2 (sub2 (xy (Position second_monster))
                     (xy (Position first_monster))) in
  let move_delta := min_distance - sqrt square_distance in
  let first_monster_k := first_monster_k_of first_monster second_monster in
  let first_monster_pos :=
    sub2 (xy (Position first_monster))
         (scale2 (scale2 collide_vec move_delta) first_monster_k) in
  let second_monster_pos :=
    add2 (xy (Position second_monster))
         (scale2 (scale2 collide_vec move_delta) (1 - first_monster_k)) in
  (SetPosition (Vec3_of first_monster_pos (v3z (Position first_monster)))
     first_monster,
   SetPosition (Vec3_of second_monster_pos (v3z (Position second_monster)))
     second_monster).

(** The inner loop at the monsters number [i] (first) and [j] (second). *)
Definition collide_inner (i : nat) (first_monster_radius : R)
    (first_monster_z_minmax : m_Vec2) (l : list (EntityId * MonsterBase))
    (j : nat) : list (EntityId * MonsterBase) :=
  if (j =? i)%nat then l else
  match l !! i, l !! j with
  | Some first_monster_value, Some second_monster_value =>
    let '(first_monster, second_monster) :=
      collide_pair first_monster_radius first_monster_z_minmax
        (snd first_monster_value) (snd second_monster_value) in
    <[j := (fst second_monster_value, second_monster)]>
      (<[i := (fst first_monster_value, first_monster)]> l)
  | _, _ => l
  end.

(** The outer loop at the monster number [i]. *)
Definition collide_outer (l : list (EntityId * MonsterBase)) (i : nat)
    : list (EntityId * MonsterBase) :=
  match l !! i with
  | None => l
  | Some first_monster_value =>
    let first_monster := snd first_monster_value in
    if (Health first_monster <=? 0)%Z then l else
    let first_monster_radius :=
      w_radius (monster_description_at (MonsterId first_monster)) in
    let first_monster_z_minmax :=
      add2 (GetZMinMax first_monster)
           (mkVec2 (v3z (Position first_monster)) (v3z (Position first_monster))) in
    foldl (collide_inner i first_monster_radius first_monster_z_minmax) l
          (seq 0 (length l))
  end.

Definition Tick_collide_monsters (m : Map) : Map :=
  set_monsters_
    (foldl collide_outer (monsters_ m) (seq 0 (length (monsters_ m)))) m.

(** ** Vocabulary of the statements *)

(** The vertical extent of a monster, as the collision pass computes it. *)
Definition monster_z_minmax (monster : MonsterBase) : m_Vec2 :=
  add2 (GetZMinMax monster)
       (mkVec2 (v3z (Position monster)) (v3z (Position monster))).

Definition collision_radius (monster : MonsterBase) : R :=
  w_radius (monster_description_at (MonsterId monster)).

(** A pair the pass collides: the second monster is alive, the pair is
    within the coarse cutoff of 8 units, the circles interpenetrate and the
    vertical extents overlap. *)
Definition pair_collides (first_monster second_monster : MonsterBase) : Prop :=
  (0 < Health second_monster)%Z /\
  SquareLength2 (sub2 (xy (Position first_monster))
                      (xy (Position second_monster))) <= 8 * 8 /\
  SquareLength2 (sub2 (xy (Position first_monster))
                      (xy (Position second_monster))) <=
    (collision_radius second_monster + collision_radius first_monster) *
    (collision_radius second_monster + collision_radius first_monster) /\
  ~ v2y (monster_z_minmax first_monster) < v2x (monster_z_minmax second_monster) /\
  ~ v2y (monster_z_minmax second_monster) < v2x (monster_z_minmax first_monster).

(** The positional correction of a pair: the unit vector from the first
    to the second monster times the penetration depth. *)
Definition pair_correction (first_monster second_monster : MonsterBase) : m_Vec2 :=
  scale2
    (Normalize2 (sub2 (xy (Position second_monster))
                      (xy (Position first_monster))))
    (collision_radius second_monster + collision_radius first_monster -
     sqrt (SquareLength2 (sub2 (xy (Position first_monster))
                               (xy (Position second_monster))))).

(** The inner loop body as [collide_outer] calls it. *)
Definition collide_monsters (first_monster second_monster : MonsterBase)
    : MonsterBase * MonsterBase :=
  collide_pair (collision_radius first_monster)
    (monster_z_minmax first_monster) first_monster second_monster.

(** The movement part of a procedure state: state, stage and time of the
    last change. *)
Abbreviation Movement3 := (MovementState.t * R * Time)%type.

Definition movement_of (ps : ProcedureState) : Movement3 :=
  (movement_state ps, movement_stage ps, last_state_change_time ps).

Definition movements (m : Map) : list Movement3 :=
  map movement_of (procedures_ m).

(** What the first loop of [Map::Tick] does to the movement part of one
    procedure (see [movements_tick_procedure]). *)
Definition tick_movement (procedure : Procedure) (current_time : Time)
    (mv : Movement3) : Movement3 :=
  let '(s, stage, last) := mv in
  let elapsed := current_time - last in
  let new_stage := new_stage_of procedure elapsed in
  match s with
  | MovementState.None => mv
  | MovementState.StartWait =>
    if Rle_dec (start_delay_s procedure) elapsed
    then (MovementState.Movement, 0, current_time)
    else (s, new_stage, last)
  | MovementState.Movement =>
    if Rle_dec 1 new_stage
    then (MovementState.BackWait, 0, current_time)
    else (s, new_stage, last)
  | MovementState.BackWait =>
    if Rlt_dec 0 (back_wait_s procedure) then
      if Rle_dec (back_wait_s procedure) elapsed
      then (MovementState.ReverseMovement, 0, current_time)
      else mv
    else mv
  | MovementState.ReverseMovement =>
    if Rle_dec 1 new_stage
    then (MovementState.None, 0, current_time)
    else (s, new_stage, last)
  end.

(** What [ReturnProcedure] does to the movement part of an unlocked
    procedure. *)
Definition return_movement (procedure : Procedure) (current_time : Time)
    (mv : Movement3) : Movement3 :=
  let '(s, stage, last) := mv in
  match s with
  | MovementState.None | MovementState.ReverseMovement => mv
  | MovementState.StartWait => (MovementState.None, stage, last)
  | MovementState.Movement =>
    (MovementState.ReverseMovement, stage,
     current_time -
     (if Rlt_dec 0 (speed procedure)
      then Rmax (1 / (speed procedure * procedures_speed_scale) -
                 (current_time - last)) 0
      else 0))
  | MovementState.BackWait =>
    (MovementState.ReverseMovement, stage, current_time)
  end.

(** The calls that write procedure states.  [CallTick] stands for the part
    of [Map::Tick] that does, its first loop; the calls of
    [ProcedureProcessShoot] and [ProcedureProcessDestroy] that [Tick] makes
    for the hits of rockets are calls of their own. *)
Inductive MapCall :=
| CallTick (current_time : Time)
| CallTryActivateProcedure (procedure_number : nat) (current_time : Time)
    (player : Player)
| CallReturnProcedure (procedure_number : nat) (current_time : Time)
| CallProcedureProcessShoot (procedure_number : nat) (current_time : Time)
| CallProcedureProcessDestroy (procedure_number : nat) (current_time : Time).

Definition call_time (c : MapCall) : Time :=
  match c with
  | CallTick t | CallTryActivateProcedure _ t _ | CallReturnProcedure _ t
  | CallProcedureProcessShoot _ t | CallProcedureProcessDestroy _ t => t
  end.

Definition run_call (c : MapCall) (m : Map) : Map :=
  match c with
  | CallTick t => Tick_procedures t m
  | CallTryActivateProcedure n t player =>
    snd (TryActivateProcedure n t player [] m)
  | CallReturnProcedure n t => ReturnProcedure n t m
  | CallProcedureProcessShoot n t => ProcedureProcessShoot n t m
  | CallProcedureProcessDestroy n t => ProcedureProcessDestroy n t m
  end.

(** The maps reachable from a freshly built map by calls whose times do not
    decrease; the first argument is the time of the last call. *)
Inductive reachable : Time -> Map -> Prop :=
| reachable_initial (t0 : Time) (m : Map) :
    procedures_ m = initial_procedures -> reachable t0 m
| reachable_call (clock : Time) (m : Map) (c : MapCall) :
    reachable clock m -> clock <= call_time c ->
    reachable (call_time c) (run_call c m).

(** The edges the claim lists: the cycle
    None, StartWait, Movement, BackWait, ReverseMovement, None and the
    early reversals of [ReturnProcedure]. *)
Definition listed_edge (a b : MovementState.t) : Prop :=
  match a, b with
  | MovementState.None, MovementState.StartWait
  | MovementState.StartWait, MovementState.Movement
  | MovementState.Movement, MovementState.BackWait
  | MovementState.BackWait, MovementState.ReverseMovement
  | MovementState.ReverseMovement, MovementState.None
  | MovementState.StartWait, MovementState.None
  | MovementState.Movement, MovementState.ReverseMovement => True
  | _, _ => False
  end.

Definition is_destroy (c : MapCall) : Prop :=
  match c with CallProcedureProcessDestroy _ _ => True | _ => False end.

(** The change of one procedure in one call. *)
Definition movement_step (procedure : Procedure) (c : MapCall)
    (mv mv' : Movement3) : Prop :=
  mv' = mv \/
  match c with
  | CallTick t => mv' = tick_movement procedure t mv
  | CallTryActivateProcedure _ t _ | CallProcedureProcessShoot _ t =>
    fst (fst mv) = MovementState.None /\ mv' = (MovementState.StartWait, 0, t)
  | CallProcedureProcessDestroy _ t => mv' = (MovementState.StartWait, 0, t)
  | CallReturnProcedure _ t => mv' = return_movement procedure t mv
  end.

(** The invariant of the movement part of a procedure at time [clock]. *)
Definition movement_ok (clock : Time) (mv : Movement3) : Prop :=
  let '(s, stage, last) := mv in
  0 <= stage /\
  match s with
  | MovementState.None => True
  | MovementState.StartWait => last <= clock
  | MovementState.Movement | MovementState.ReverseMovement =>
    last <= clock /\ stage < 1
  | MovementState.BackWait => last <= clock /\ stage = 0
  end.

(** The static model a linked switch refers to, if any. *)
Definition switch_target (siwtch_pos : SwitchPos) : option nat :=
  if ((c_map_size <=? sw_x siwtch_pos) || (c_map_size <=? sw_y siwtch_pos))%nat
  then None
  else
    let index_element :=
      map_index map_data_ (sw_x siwtch_pos + sw_y siwtch_pos * c_map_size)%nat in
    match ie_type index_element with
    | IndexElement.StaticModel => Some (ie_index index_element)
    | _ => None
    end.

(** An obstacle on the ray: what one call of
    [process_candidate_shot_pos] receives. *)
Record ShotCandidate := mkShotCandidate {
  cand_pos : m_Vec3;
  cand_type : ObjectType.t;
  cand_index : nat }.

Definition hit_of (c : ShotCandidate) : HitResult :=
  mkHitResult (cand_type c) (cand_index c) (cand_pos c).

(** The square of the distance of a candidate from the start of the ray. *)
Definition square_distance_of (shot_start_point : m_Vec3) (c : ShotCandidate) : R :=
  SquareLength3 (sub3 (cand_pos c) shot_start_point).

Definition consider (shot_start_point : m_Vec3) (acc : ShotAcc)
    (c : ShotCandidate) : ShotAcc :=
  process_candidate_shot_pos shot_start_point acc (cand_pos c) (cand_type c)
    (cand_index c).

(** The candidate each scanned object gives, if it is an obstacle. *)
Definition static_candidate (m : Map) (shot_start_point direction : m_Vec3)
    (element : IndexElementT) : option ShotCandidate :=
  match ie_type element with
  | IndexElement.StaticWall =>
    let wall := nth (ie_index element) (static_walls map_data_) default_wall in
    if gso1 (walls_textures map_data_ (wall_texture_id wall)) then None
    else
      match RayIntersectWall (vert_pos0 wall) (vert_pos1 wall) 0 2
              shot_start_point direction with
      | Some p => Some (mkShotCandidate p ObjectType.StaticWall (ie_index element))
      | None => None
      end
  | IndexElement.StaticModel =>
    match static_models_ m !! ie_index element with
    | None => None
    | Some model =>
      match model_description_at (model_id model) with
      | None => None
      | Some model_description =>
        if Rle_dec (model_radius model_description) 0 then None
        else
          let model_data := default default_model (model_at (model_id model)) in
          match RayIntersectCylinder (xy (pos model))
                  (model_radius model_description)
                  (z_min model_data + v3z (pos model))
                  (z_max model_data + v3z (pos model))
                  shot_start_point direction with
          | Some p => Some (mkShotCandidate p ObjectType.Model (ie_index element))
          | None => None
          end
      end
    end
  | _ => None
  end.

Definition dynamic_wall_candidate (shot_start_point direction : m_Vec3)
    (iw : nat * DynamicWall) : option ShotCandidate :=
  let wall := snd iw in
  if gso1 (walls_textures map_data_ (texture_id wall)) then None
  else
    match RayIntersectWall (vert_pos_0 wall) (vert_pos_1 wall)
            (wall_z wall) (wall_z wall + 2) shot_start_point direction with
    | Some p => Some (mkShotCandidate p ObjectType.DynamicWall (fst iw))
    | None => None
    end.

Definition monster_candidate (shot_start_point direction : m_Vec3)
    (skip_monster_id : EntityId) (monster_value : EntityId * MonsterBase)
    : option ShotCandidate :=
  if (fst monster_value =? skip_monster_id)%nat then None
  else
    match TryShot (snd monster_value) shot_start_point direction with
    | Some p => Some (mkShotCandidate p ObjectType.Monster (fst monster_value))
    | None => None
    end.

Definition floor_candidate (shot_start_point direction : m_Vec3) (zi : nat)
    : option ShotCandidate :=
  match RayIntersectXYPlane (INR zi) shot_start_point direction with
  | None => None
  | Some p =>
    let fx := Int_part (v3x p) in
    let fy := Int_part (v3y p) in
    if ((fx <? 0) || (Z.of_nat c_map_size <=? fx) ||
        (fy <? 0) || (Z.of_nat c_map_size <=? fy))%Z
    then None
    else
      let coord := Z.to_nat (fx + fy * Z.of_nat c_map_size) in
      let texture :=
        (if (zi =? 0)%nat then floor_textures map_data_
         else ceiling_textures map_data_) coord in
      if ((texture =? c_empty_floor_texture_id) ||
          (texture =? c_sky_floor_texture_id))%nat
      then None
      else Some (mkShotCandidate p ObjectType.Floor (zi / 2)%nat)
  end.

(** All the obstacles on the ray, in the order [ProcessShot] scans them:
    static walls and models the index visits, dynamic walls, monsters other
    than [skip_monster_id], floor and ceiling. *)
Definition shot_candidates (m : Map) (shot_start_point direction : m_Vec3)
    (max_distance : R) (skip_monster_id : EntityId) : list ShotCandidate :=
  omap (static_candidate m shot_start_point direction)
       (RayCast shot_start_point direction max_distance) ++
  omap (dynamic_wall_candidate shot_start_point direction)
       (indexed (dynamic_walls_ m)) ++
  omap (monster_candidate shot_start_point direction skip_monster_id)
       (monsters_ m) ++
  omap (floor_candidate shot_start_point direction) [0; 2]%nat.

(** ** Concrete data used by the instances at the end of the file *)

(** Two monster descriptions of radius 1; a player at the origin and a
    monster one unit away on the x axis. *)
Definition example_resources : GameResources :=
  mkGameResources
    [mkRocketDescription EmptyString 0 false false false 10 1 0;
     mkRocketDescription "rocket.3o" 0 false false false 30 2 0;
     mkRocketDescription "grenade.3o" 1 false true false 30 2 0]
    [mkMonsterDescription 1; mkMonsterDescription 1].

Definition example_player : MonsterBase :=
  mkMonsterBase 0 100 (mkVec3 0 0 0) (mkVec2 0 1) false true.

Definition example_monster : MonsterBase :=
  mkMonsterBase 1 100 (mkVec3 1 0 0) (mkVec2 0 1) false true.

(** A map without anything in it, and a level without anything in it. *)
Definition example_empty_map : Map :=
  mkMap [] [] [] [] [] [] 0%nat (fun _ => (0%Z, 0%Z))
    (fun _ => mkDamageFiledCell 0 0 0) false [] [] [] [] [] [] [].

Definition example_map_data : MapData :=
  mkMapData (fun _ => mkIndexElement IndexElement.None 0%nat) [] []
    (fun _ => mkWallTexture false false false) [] [] []
    (fun _ => 1%nat) (fun _ => 1%nat) [] [].

(** Two doors: the first holds open for ever ([back_wait] 0), the second
    closes after one second, needs the red key and has lock message 7. *)
Definition door_hold : Procedure :=
  mkProcedure 10 0 1 0 false false false false 0 0 0 [] [].

Definition door_timed : Procedure :=
  mkProcedure 10 1 1 0 false true false false 0 7 0 [mkSwitchPos 1 1] [].

Definition example_level : MapData :=
  mkMapData (fun _ => mkIndexElement IndexElement.None 0%nat) [] []
    (fun _ => mkWallTexture false false false) [] [] []
    (fun _ => 1%nat) (fun _ => 1%nat) [] [door_hold; door_timed].

Definition example_map (states : list ProcedureState) : Map :=
  set_procedures_ states example_empty_map.

Definition in_state (s : MovementState.t) (stage : R) (last : Time)
    : ProcedureState :=
  mkProcedureState false false s stage last.

(** The absolute stage of a movement part, as [absolute_action_stage]
    computes it from the procedure state. *)
Definition absolute_stage_of (mv : Movement3) : R :=
  let '(s, stage, last) := mv in
  match s with
  | MovementState.Movement => stage
  | MovementState.BackWait => 1
  | MovementState.ReverseMovement => 1 - stage
  | _ => 0
  end.

(** A player gate that always permits, a player without keys, and the map
    as built from [example_level]. *)
Definition example_gate : Player -> nat -> Time -> bool * Player :=
  fun player _ _ => (true, player).

Definition keyless_player : Player := mkPlayer false false false 0 0.

Definition example_initial_map : Map :=
  example_map [in_state MovementState.None 0 0;
               in_state MovementState.None 0 0].

(** The first door of [example_initial_map], triggered by a shot at time 0. *)
Definition example_waiting_map : Map :=
  ProcedureProcessShoot 0 0 example_initial_map.

(** The part of the map the loop over the rockets is judged by. *)
Definition rocket_view (m : Map)
    : list Rocket * list RocketBirth * list RocketDeath * list Mine * nat :=
  (rockets_ m, rockets_birth_messages_ m, rockets_death_messages_ m,
   mines_ m, next_rocket_id_ m).




(** The flight of a reflecting rocket during one tick, written out: the
    velocity after gravity, the position it would reach, and both after the
    bounce on the ground. *)
Definition reflect_velocity_z (rocket : Rocket) (dt : R) : R :=
  v3z (rocket_speed rocket) -
  rockets_gravity_scale *
  IZR (gravity_force (rocket_description_at (rocket_type_id rocket))) * dt.

Definition reflect_free_pos (rocket : Rocket) (dt : R) : m_Vec3 :=
  add3 (previous_position rocket)
       (scale3 (set_z (rocket_speed rocket) (reflect_velocity_z rocket dt)) dt).

Definition reflect_velocity (rocket : Rocket) (dt : R) : m_Vec3 :=
  if Rlt_dec (v3z (reflect_free_pos rocket dt)) 0
  then set_z (rocket_speed rocket) (Rabs (reflect_velocity_z rocket dt))
  else set_z (rocket_speed rocket) (reflect_velocity_z rocket dt).

Definition reflect_new_pos (rocket : Rocket) (dt : R) : m_Vec3 :=
  if Rlt_dec (v3z (reflect_free_pos rocket dt)) 0
  then set_z (reflect_free_pos rocket dt) 0
  else reflect_free_pos rocket dt.

(** The hit the nearest-hit resolver reports for the segment flown. *)
Definition reflect_raw_hit (m : Map) (rocket : Rocket) (dt : R) : HitResult :=
  ProcessShot m (previous_position rocket)
    (Normalize3 (sub3 (reflect_new_pos rocket dt) (previous_position rocket)))
    (Length3 (sub3 (reflect_new_pos rocket dt) (previous_position rocket)) +
     1 / 64)
    (owner_id rocket).

(** The messages a mine leaves when it is removed and when it explodes. *)
Definition mine_death (mine : Mine) : DynamicItemDeath :=
  mkDynamicItemDeath (mine_id mine).
Definition mine_explosion (mine : Mine) : ParticleEffectBirth :=
  mkParticleEffectBirth (mine_pos mine) Explosion.
Definition mine_sound (mine : Mine) : MapEventSound :=
  mkMapEventSound (mine_pos mine) (SoundNumber 40).

(** The 2-D distance of a monster to a mine, the radius the mine loop uses
    for a monster, and the activation test of the claim. *)
Definition mine_distance (mine : Mine) (monster : MonsterBase) : R :=
  Length2 (sub2 (xy (Position monster)) (xy (mine_pos mine))).

Definition mine_monster_radius (monster : MonsterBase) : R :=
  if (MonsterId monster =? 0)%nat then player_radius
  else w_radius (monster_description_at (MonsterId monster)).

Definition in_reach (mine : Mine) (monster : MonsterBase) : Prop :=
  mine_distance mine monster <
  mines_activation_radius + mine_monster_radius monster.

(** The activation distance of every monster on the map is between 0 and
    the 8 units of the early reject of the mine loop. *)
Definition activation_distances_ok (m : Map) : Prop :=
  forall mv, mv ∈ monsters_ m ->
    0 <= mines_activation_radius + mine_monster_radius (snd mv) <= 8.

(** The part of the map the loop over the mines is judged by. *)
Record MineView := mkMineView {
  mv_mines : list Mine;
  mv_deaths : list DynamicItemDeath;
  mv_particles : list ParticleEffectBirth;
  mv_sounds : list MapEventSound;
  mv_monsters : list (EntityId * MonsterBase);
  mv_next_id : nat }.

Definition mine_view (m : Map) : MineView :=
  mkMineView (mines_ m) (dynamic_items_death_messages_ m)
    (particles_effects_messages_ m) (map_events_sounds_messages_ m)
    (monsters_ m) (next_rocket_id_ m).

(** The invariant of the loop over the mines at index [i]: [killed] are
    the mines removed so far, in the order of their removal. *)
Definition mines_loop_inv (t : Time) (m0 : Map) (killed : list Mine) (m : Map)
    (i : nat) : Prop :=
  mines_ m0 ≡ₚ killed ++ mines_ m /\
  Forall (fun mine => mine_need_kill t mine m0 = true) killed /\
  Forall (fun mine => mine_need_kill t mine m0 = false) (take i (mines_ m)) /\
  mine_view m =
    mkMineView (mines_ m)
      (dynamic_items_death_messages_ m0 ++ map mine_death killed)
      (particles_effects_messages_ m0 ++
       map mine_explosion
         (filter (fun mine => mine_explodes t mine m0 = true) killed))
      (map_events_sounds_messages_ m0 ++
       map mine_sound
         (filter (fun mine => mine_explodes t mine m0 = true) killed))
      (monsters_ m0) (next_rocket_id_ m0).

(** The calls that create and advance rockets and mines.  [CallTickBallistics]
    stands for the part of [Map::Tick] that processes the rockets and then
    the mines. *)
Inductive BallisticCall :=
| CallShoot (owner type_id : nat) (from direction : m_Vec3) (t : Time)
| CallPlantMine (p : m_Vec3) (t : Time)
| CallTickBallistics (t dt : Time).

Definition run_ballistic (m : Map) (c : BallisticCall) : Map :=
  match c with
  | CallShoot owner type_id from direction t =>
    Shoot owner type_id from direction t m
  | CallPlantMine p t => PlantMine p t m
  | CallTickBallistics t dt => Tick_mines t (Tick_rockets t dt m)
  end.

(** The time of a call. *)
Definition ballistic_call_time (c : BallisticCall) : Time :=
  match c with
  | CallShoot _ _ _ _ t => t
  | CallPlantMine _ t => t
  | CallTickBallistics t _ => t
  end.

(** A level with one static wall, and geometry queries that find that wall
    three units along every ray and nothing else. *)
Definition example_walled_level : MapData :=
  mkMapData (fun _ => mkIndexElement IndexElement.None 0%nat)
    [mkWall (mkVec2 3 (-1)) (mkVec2 3 1) 0] []
    (fun _ => mkWallTexture false false false) [] [] []
    (fun _ => 1%nat) (fun _ => 1%nat) [] [].

Definition example_RayCast : m_Vec3 -> m_Vec3 -> R -> list IndexElementT :=
  fun _ _ _ => [mkIndexElement IndexElement.StaticWall 0].

Definition example_RayIntersectWall
    : m_Vec2 -> m_Vec2 -> R -> R -> m_Vec3 -> m_Vec3 -> option m_Vec3 :=
  fun _ _ _ _ start direction => Some (add3 start (scale3 direction 3)).

Definition no_cylinder
    : m_Vec2 -> R -> R -> R -> m_Vec3 -> m_Vec3 -> option m_Vec3 :=
  fun _ _ _ _ _ _ => None.

Definition no_plane : R -> m_Vec3 -> m_Vec3 -> option m_Vec3 :=
  fun _ _ _ => None.

Definition no_TryShot : MonsterBase -> m_Vec3 -> m_Vec3 -> option m_Vec3 :=
  fun _ _ _ => None.

Definition example_Hit : MonsterBase -> Z -> EntityId -> Time -> MonsterBase :=
  fun monster _ _ _ => monster.

Definition example_Rotate : m_Vec3 -> R -> m_Vec3 -> m_Vec3 :=
  fun _ _ v => v.

(** A grenade (reflecting, type 2 of [example_resources]) falling at the
    origin, and a mine planted at time 0. *)
Definition example_grenade : Rocket :=
  mkRocket 0 (mkVec3 0 0 1) (mkVec3 0 0 (-1)) 0 0 2 (mkVec3 0 0 1) 0
    (mkVec3 0 0 (-4)).

Definition example_grenade_map : Map :=
  set_rockets_ [example_grenade] (set_next_rocket_id_ 1 example_empty_map).

Definition example_mine : Mine := mkMine (mkVec3 5 5 0) 0 0.

Definition example_mine_map : Map :=
  set_mines_ [example_mine] (set_next_rocket_id_ 1 example_empty_map).


(** The identities in use: those of the live rockets and of the live mines,
    which [Shoot] and [PlantMine] take from the one counter
    [next_rocket_id_]. *)
Definition ballistic_ids (m : Map) : list EntityId :=
  map rocket_id (rockets_ m) ++ map mine_id (mines_ m).

(** How many identities ago [k] was handed out: 1 for the last one, up to
    [EntityId_count] for the value the counter stands at, which is handed
    out next. *)
Definition id_age (m : Map) (k : EntityId) : nat :=
  if (k <? next_rocket_id_ m)%nat then (next_rocket_id_ m - k)%nat
  else (next_rocket_id_ m + EntityId_count - k)%nat.

(** The identities in use are values of [EntityId], pairwise distinct, and
    each of them is among the last [w] that were handed out. *)
Definition ballistic_ids_fresh (w : nat) (m : Map) : Prop :=
  (next_rocket_id_ m < EntityId_count)%nat /\
  NoDup (ballistic_ids m) /\
  Forall (fun k => (k < EntityId_count)%nat /\ (id_age m k <= w)%nat)
         (ballistic_ids m).

(** The number of identities a sequence of calls hands out: one for every
    [Shoot] and every [PlantMine]. *)
Fixpoint allocations (calls : list BallisticCall) : nat :=
  match calls with
  | [] => 0%nat
  | CallTickBallistics _ _ :: calls => allocations calls
  | _ :: calls => S (allocations calls)
  end.

(** The mine [PlantMine] creates. *)
Definition planted_mine (p : m_Vec3) (current_time : Time) (m : Map) : Mine :=
  mkMine (set_z p (GetFloorLevel (xy p) 0.2)) current_time (next_rocket_id_ m).

(** The rectangle of cells a [Wind] or [Death] command names: columns
    [args[0]..args[2]], rows [args[1]..args[3]]. *)
Definition command_rect (command : ActionCommand) (cx cy : nat) : bool :=
  ((float_to_uint (arg command 0) <=? cx) &&
   (cx <=? float_to_uint (arg command 2)) &&
   (float_to_uint (arg command 1) <=? cy) &&
   (cy <=? float_to_uint (arg command 3)))%nat.

Definition is_Wind (command : ActionCommand) : bool :=
  match cmd_id command with ActionCommandId.Wind => true | _ => false end.

Definition is_Death (command : ActionCommand) : bool :=
  match cmd_id command with ActionCommandId.Death => true | _ => false end.

(** The test "Check map end" of the first loop of [Map::Tick], on the
    state of procedure [p] in the map [m]. *)
Definition end_reached (current_time : Time) (m : Map) (p : nat) : bool :=
  match procedures_ m !! p with
  | Some procedure_state =>
    negb (is_None (movement_state procedure_state)) &&
    (if Rlt_dec 0 (end_delay_s (procedure_at p)) then true else false) &&
    (if Rle_dec (end_delay_s (procedure_at p))
          (current_time - last_state_change_time procedure_state)
     then true else false)
  | None => false
  end.

(** What the pass that collides the monsters together keeps of a monster
    [a] when it leaves it as [b]: the identity, everything of the monster
    but the horizontal position, and also that if the monster is dead. *)
Definition same_body (a b : EntityId * MonsterBase) : Prop :=
  fst b = fst a /\
  MonsterId (snd b) = MonsterId (snd a) /\
  Health (snd b) = Health (snd a) /\
  GetZMinMax (snd b) = GetZMinMax (snd a) /\
  IsNoclip (snd b) = IsNoclip (snd a) /\
  on_floor (snd b) = on_floor (snd a) /\
  v3z (Position (snd b)) = v3z (Position (snd a)) /\
  ((Health (snd a) <= 0)%Z -> b = a).

(** A rocket with finite speed: one that flies, and is announced. *)
Definition finite_speed (rocket : Rocket) : Prop :=
  HasInfiniteSpeed rocket = false.

#[local] Instance finite_speed_dec (rocket : Rocket) : Decision (finite_speed rocket).
Proof. unfold finite_speed. apply _. Defined.

(** The point of a player that [Map::FindNearestPlayerPos] measures to: the
    position raised to the middle of the vertical extent of the first
    player of the container. *)
Definition player_pos_corrected (m : Map) (player : MonsterBase) : m_Vec3 :=
  match players_ m with
  | [] => Position player
  | first_player :: _ =>
    mkVec3 (v3x (Position player)) (v3y (Position player))
      (v3z (Position player) +
       (v2x (GetZMinMax (snd first_player)) +
        v2y (GetZMinMax (snd first_player))) * 0.5)
  end.

(** The flags [first_message_printed] of the procedures. *)
Definition printed (m : Map) : list bool :=
  map first_message_printed (procedures_ m).

(** The text messages an attempt on a procedure sends apart from the first
    message: the lock message and the "on" message. *)
Definition lock_and_on_messages (procedure : Procedure)
    (procedure_state : ProcedureState) (player : Player) : list TextMessage :=
  (if negb (lock_message_number procedure =? 0)%nat &&
      (locked procedure_state || negb (have_necessary_keys procedure player))
   then [mkTextMessage (lock_message_number procedure)] else []) ++
  (if negb (on_message_number procedure =? 0)%nat
   then [mkTextMessage (on_message_number procedure)] else []).

(** ** [Map::CanSee] *)

Definition Vec3_eq_dec (a b : m_Vec3) : {a = b} + {a <> b}.
Proof.
  destruct a as [a1 a2 a3], b as [b1 b2 b3].
  destruct (Req_dec_T a1 b1) as [->|N1]; [|right; congruence].
  destruct (Req_dec_T a2 b2) as [->|N2]; [|right; congruence].
  destruct (Req_dec_T a3 b3) as [->|N3]; [left; reflexivity|right; congruence].
Defined.

(** The lambda [try_set_occluder]: whether the point hides the target
    (then [can_see] becomes false and the traversal stops). *)
Definition try_set_occluder (from : m_Vec3) (max_see_distance : R)
    (intersection_point : m_Vec3) : bool :=
  if Rle_dec (SquareLength3 (sub3 intersection_point from))
       (max_see_distance * max_see_distance)
  then true else false.

(** The lambda [element_process_func]; its result tells the traversal of
    the collision index to stop. *)
Definition see_static_element (m : Map) (from direction : m_Vec3)
    (max_see_distance : R) (element : IndexElementT) : bool :=
  match ie_type element with
  | IndexElement.StaticWall =>
    let wall := nth (ie_index element) (static_walls map_data_) default_wall in
    if gso1 (walls_textures map_data_ (wall_texture_id wall)) then false
    else
      match RayIntersectWall (vert_pos0 wall) (vert_pos1 wall) 0 2
              from direction with
      | Some candidate_pos =>
        try_set_occluder from max_see_distance candidate_pos
      | None => false
      end
  | IndexElement.StaticModel =>
    match static_models_ m !! ie_index element with
    | None => false
    | Some model =>
      match model_description_at (model_id model) with
      | None => false
      | Some model_description =>
        if Rle_dec (model_radius model_description) 0 then false
        else
          let model_data := default default_model (model_at (model_id model)) in
          match RayIntersectCylinder (xy (pos model))
                  (model_radius model_description)
                  (z_min model_data + v3z (pos model))
                  (z_max model_data + v3z (pos model))
                  from direction with
          | Some candidate_pos =>
            try_set_occluder from max_see_distance candidate_pos
          | None => false
          end
      end
    end
  | _ => false
  end.

(** The body of the loop over [dynamic_walls_]; the result tells the loop
    to [break]. *)
Definition see_dynamic_wall (from direction : m_Vec3) (max_see_distance : R)
    (wall : DynamicWall) : bool :=
  if gso1 (walls_textures map_data_ (texture_id wall)) then false
  else
    match RayIntersectWall (vert_pos_0 wall) (vert_pos_1 wall)
            (wall_z wall) (wall_z wall + 2) from direction with
    | Some candidate_pos => try_set_occluder from max_see_distance candidate_pos
    | None => false
    end.

(** [existsb] stops at the first element for which the visitor answers
    true, as the traversal and the loop do. *)
Definition CanSee (m : Map) (from to : m_Vec3) : bool :=
  if Vec3_eq_dec from to then true else
  let direction := sub3 to from in
  let max_see_distance := Length3 direction in
  let direction := Normalize3 direction in
  let occluded :=
    existsb (see_static_element m from direction max_see_distance)
            (RayCast from direction max_see_distance) in
  let occluded :=
    occluded ||
    existsb (see_dynamic_wall from direction max_see_distance)
            (dynamic_walls_ m) in
  negb occluded.

(** The walls and models on a ray, as [ProcessShot] scans them. *)
Definition sight_candidates (m : Map) (from direction : m_Vec3)
    (max_distance : R) : list ShotCandidate :=
  omap (static_candidate m from direction)
       (RayCast from direction max_distance) ++
  omap (dynamic_wall_candidate from direction) (indexed (dynamic_walls_ m)).

Definition is_wall_or_model (t : ObjectType.t) : bool :=
  match t with
  | ObjectType.StaticWall | ObjectType.DynamicWall | ObjectType.Model => true
  | _ => false
  end.

(** ** [Map::Tick], "Process static models" *)

(** [GameConstants::animations_frames_per_second] ([game_constants.hpp]). *)
Variable animations_frames_per_second : R.

(** [std::round]: to the nearest integer, halves away from zero. *)
Definition float_round (v : R) : Z :=
  if Rle_dec 0 v then Int_part (v + / 2) else (- Int_part (- v + / 2))%Z.

Definition set_current_animation_frame (v : Z) (sm : StaticModel) : StaticModel :=
  mkStaticModel (pos sm) (baze_z sm) (angle sm) (model_id sm) (health sm)
    (animation_state sm) (animation_start_time sm) (animation_start_frame sm)
    v (picked sm).

(** The body of the loop for one model.  A [frame_count] of 0 makes the
    source divide by zero; the model then keeps the dividend. *)
Definition tick_static_model (current_time : Time) (model : StaticModel)
    : StaticModel :=
  let time_delta_s := current_time - animation_start_time model in
  let animation_frame := time_delta_s * animations_frames_per_second in
  match animation_state model with
  | AnimationState.Animation =>
    match model_at (model_id model) with
    | Some model_geometry =>
      set_current_animation_frame
        (Z.of_nat (float_to_uint (IZR (float_round animation_frame))) mod
         frame_count model_geometry)%Z model
    | None => set_current_animation_frame 0 model
    end
  | AnimationState.SingleAnimation =>
    match model_at (model_id model) with
    | Some model_geometry =>
      let animation_frame_integer :=
        Z.of_nat (float_to_uint (IZR (float_round animation_frame))) in
      if (wrap32 (frame_count model_geometry - 1) <=? animation_frame_integer)%Z
      then set_animation AnimationState.SingleFrame
             (animation_start_time model)
             (wrap32 (frame_count model_geometry - 1)) model
      else set_current_animation_frame animation_frame_integer model
    | None => set_current_animation_frame 0 model
    end
  | AnimationState.SingleReverseAnimation =>
    match model_at (model_id model) with
    | Some model_geometry =>
      let animation_frame_integer :=
        (animation_start_frame model -
         float_to_int (IZR (float_round animation_frame)))%Z in
      if (animation_frame_integer <=? 0)%Z
      then set_animation AnimationState.SingleFrame
             (animation_start_time model) 0 model
      else set_current_animation_frame animation_frame_integer model
    | None => set_current_animation_frame 0 model
    end
  | AnimationState.SingleFrame =>
    set_current_animation_frame (animation_start_frame model) model
  end.

Definition Tick_static_models (current_time : Time) (m : Map) : Map :=
  set_static_models_ (map (tick_static_model current_time) (static_models_ m)) m.

(** What the animation never touches of a model. *)
Definition same_model_body (a b : StaticModel) : Prop :=
  pos b = pos a /\ baze_z b = baze_z a /\ angle b = angle a /\
  model_id b = model_id a /\ health b = health a /\ picked b = picked a /\
  animation_start_time b = animation_start_time a.

(** ** [Map::Tick], the loops over the monsters *)

(** [GameConstants::death_ticks_per_second] and [GameConstants::player_height]
    ([game_constants.hpp]); [MonsterBase::ClampSpeed] ([monster_base.hpp]). *)
Variable death_ticks_per_second : R.
Variable player_height : R.
Variable ClampSpeed : m_Vec3 -> MonsterBase -> MonsterBase.

(** [death_ticks], computed at the head of [Map::Tick] in 32-bit unsigned
    arithmetic. *)
Definition death_ticks (current_time last_tick_delta : Time) : Z :=
  let prev_tick_time := current_time - last_tick_delta in
  wrap32 (Z.of_nat (float_to_uint (death_ticks_per_second * current_time)) -
          Z.of_nat (float_to_uint (death_ticks_per_second * prev_tick_time))).




(** "Collide monsters with map". *)
Definition SetOnFloor (v : bool) (mo : MonsterBase) : MonsterBase :=
  mkMonsterBase (MonsterId mo) (Health mo) (Position mo) (GetZMinMax mo)
    (IsNoclip mo) v.

Definition collide_monster_with_map (m : Map) (monster : MonsterBase)
    : MonsterBase :=
  let is_player := (MonsterId monster =? 0)%nat in
  if is_player && IsNoclip monster then monster else
  let height := player_height in
  let radius :=
    if is_player then player_radius
    else w_radius (monster_description_at (MonsterId monster)) in
  let old_monster_pos := Position monster in
  let '(new_monster_pos, on_floor_) :=
    CollideWithMap m old_monster_pos height radius in
  let position_delta := sub3 new_monster_pos old_monster_pos in
  let monster :=
    if Req_dec_T (v3z position_delta) 0 then monster
    else ClampSpeed
           (mkVec3 0 0 (if Rlt_dec 0 (v3z position_delta) then 1 else -1))
           monster in
  let position_delta_length := Length2 (xy position_delta) in
  let monster :=
    if Req_dec_T position_delta_length 0 then monster
    else ClampSpeed
           (Vec3_of (scale2 (xy position_delta) (/ position_delta_length)) 0)
           monster in
  SetOnFloor on_floor_ (SetPosition new_monster_pos monster).

Definition Tick_collide_with_map (m : Map) : Map :=
  set_monsters_
    (map (fun monster_value =>
            (fst monster_value, collide_monster_with_map m (snd monster_value)))
         (monsters_ m)) m.

(** ** [Map::MoveMapObjects] *)

(** The 3x3 matrices of the vector library ([m_Mat3] of [matrix.hpp], not
    part of the verified sources) and the constant [Constants::to_rad]
    ([math_utils.hpp]). *)
Variable m_Mat3 : Type.
Variable Mat3_Identity : m_Mat3.
Variable Mat3_mul : m_Mat3 -> m_Mat3 -> m_Mat3.
Variable Mat3_Translate : m_Vec2 -> m_Mat3.
Variable Mat3_RotateZ : R -> m_Mat3.
Variable Vec2_mul_Mat3 : m_Vec2 -> m_Mat3 -> m_Vec2.
Variable to_rad : R.

(** The transformation a procedure accumulates on an object.  The source
    keeps it in the object; [MoveMapObjects] clears it first and nothing else
    reads it, so here it lives in the accumulator of the function.  For a
    static model [transformation_angle_delta] goes with it. *)
Record Transformation := mkTransformation {
  tr_mat : m_Mat3;
  d_z : R }.

Definition Transformation_Clear : Transformation :=
  mkTransformation Mat3_Identity 0.

Record MoveAcc := mkMoveAcc {
  walls_transformation : list Transformation;
  models_transformation : list (Transformation * R) }.

Definition g_commands_coords_scale : R := 1 / 256.

(** The displacement [d_pos] of a [Move], [XMove] or [YMove] command. *)
Definition move_d_pos (command_id : ActionCommandId.t) (dx dy : R)
    (absolute_action_stage_ : R) : m_Vec2 :=
  let x_fraction := 0.5 in
  let y_fraction := 0.5 in
  match command_id with
  | ActionCommandId.XMove =>
    if Rle_dec absolute_action_stage_ x_fraction
    then mkVec2 (0 + dx * absolute_action_stage_ / x_fraction) 0
    else mkVec2 (0 + dx)
                (0 + dy * (absolute_action_stage_ - x_fraction) / y_fraction)
  | ActionCommandId.YMove =>
    if Rle_dec absolute_action_stage_ y_fraction
    then mkVec2 0 (0 + dy * absolute_action_stage_ / y_fraction)
    else mkVec2 (0 + dx * (absolute_action_stage_ - y_fraction) / x_fraction)
                (0 + dy)
  | _ =>
    mkVec2 (0 + dx * absolute_action_stage_) (0 + dy * absolute_action_stage_)
  end.

(** The object of the cell ([x], [y]) gets its transformation changed. *)
Definition transform_target (cx cy : nat)
    (on_transformation : Transformation -> Transformation)
    (on_angle : R -> R) (acc : MoveAcc) : MoveAcc :=
  let index_element := map_index map_data_ (cx + cy * c_map_size)%nat in
  match ie_type index_element with
  | IndexElement.DynamicWall =>
    mkMoveAcc
      (alter on_transformation (ie_index index_element)
             (walls_transformation acc))
      (models_transformation acc)
  | IndexElement.StaticModel =>
    mkMoveAcc (walls_transformation acc)
      (alter (fun ta => (on_transformation (fst ta), on_angle (snd ta)))
             (ie_index index_element) (models_transformation acc))
  | _ => acc
  end.

Definition mul_mat (mat : m_Mat3) (tr : Transformation) : Transformation :=
  mkTransformation (Mat3_mul (tr_mat tr) mat) (d_z tr).

Definition add_d_z (dz : R) (tr : Transformation) : Transformation :=
  mkTransformation (tr_mat tr) (d_z tr + dz).

(** The body of the loop over the action commands of a procedure whose
    absolute stage is [absolute_action_stage_].  The source converts the
    cell coordinates to [unsigned char] and asserts that they are inside the
    grid; the conversion is the truncation, as it is for the coordinates of
    a level. *)
Definition move_command (absolute_action_stage_ : R) (acc : MoveAcc)
    (command : ActionCommand) : MoveAcc :=
  match cmd_id command with
  | ActionCommandId.Move | ActionCommandId.XMove | ActionCommandId.YMove =>
    let cx := float_to_uint (arg command 0) in
    let cy := float_to_uint (arg command 1) in
    let dx := arg command 2 * g_commands_coords_scale in
    let dy := arg command 3 * g_commands_coords_scale in
    let mat :=
      Mat3_Translate
        (move_d_pos (cmd_id command) dx dy absolute_action_stage_) in
    transform_target cx cy (mul_mat mat) (fun a => a) acc
  | ActionCommandId.Rotate =>
    let cx := float_to_uint (arg command 0) in
    let cy := float_to_uint (arg command 1) in
    let center_x := arg command 2 * g_commands_coords_scale in
    let center_y := arg command 3 * g_commands_coords_scale in
    let angle_ := arg command 4 * to_rad in
    let center := mkVec2 center_x center_y in
    let angle_delta := angle_ * absolute_action_stage_ in
    let shift := Mat3_Translate (mkVec2 (- center_x) (- center_y)) in
    let rot := Mat3_RotateZ angle_delta in
    let back_shift := Mat3_Translate center in
    let mat := Mat3_mul (Mat3_mul shift rot) back_shift in
    transform_target cx cy (mul_mat mat) (fun a => a + angle_delta) acc
  | ActionCommandId.Up =>
    let cx := float_to_uint (arg command 0) in
    let cy := float_to_uint (arg command 1) in
    let height := arg command 2 * g_commands_coords_scale * 4 in
    let dz := height * absolute_action_stage_ in
    transform_target cx cy (add_d_z dz) (fun a => a) acc
  | _ => acc
  end.

(** The body of the loop over the procedures. *)
Definition move_procedure (m : Map) (acc : MoveAcc) (p : nat) : MoveAcc :=
  match procedures_ m !! p with
  | None => acc
  | Some procedure_state =>
    foldl (move_command (absolute_action_stage procedure_state)) acc
          (action_commands (procedure_at p))
  end.

(** "Accumulate transformations from procedures on objects." *)
Definition accumulate_transformations (m : Map) : MoveAcc :=
  foldl (move_procedure m)
    (mkMoveAcc
       (map (fun _ => Transformation_Clear) (dynamic_walls_ m))
       (map (fun _ => (Transformation_Clear, 0)) (static_models_ m)))
    (seq 0 (length (procedures_ m))).

(** "Apply objects transformations." *)
Definition apply_wall_transformation (acc : MoveAcc)
    (iw : nat * DynamicWall) : DynamicWall :=
  let map_wall := nth (fst iw) (md_dynamic_walls map_data_) default_wall in
  let transformation :=
    nth (fst iw) (walls_transformation acc) Transformation_Clear in
  mkDynamicWall
    (Vec2_mul_Mat3 (vert_pos0 map_wall) (tr_mat transformation))
    (Vec2_mul_Mat3 (vert_pos1 map_wall) (tr_mat transformation))
    (d_z transformation) (texture_id (snd iw)).

Definition default_map_static_model : MapStaticModel :=
  mkMapStaticModel (mkVec2 0 0) 0 0 false.

Definition apply_model_transformation (acc : MoveAcc)
    (im : nat * StaticModel) : StaticModel :=
  let map_model :=
    nth (fst im) (md_static_models map_data_) default_map_static_model in
  let model := snd im in
  let '(transformation, transformation_angle_delta) :=
    nth (fst im) (models_transformation acc) (Transformation_Clear, 0) in
  let xy_ := Vec2_mul_Mat3 (map_model_pos map_model) (tr_mat transformation) in
  mkStaticModel
    (mkVec3 (v2x xy_) (v2y xy_) (baze_z model + d_z transformation))
    (baze_z model)
    (map_model_angle map_model + transformation_angle_delta)
    (model_id model) (health model) (animation_state model)
    (animation_start_time model) (animation_start_frame model)
    (current_animation_frame model) (picked model).

Definition MoveMapObjects (m : Map) : Map :=
  let acc := accumulate_transformations m in
  set_static_models_
    (map (apply_model_transformation acc) (indexed (static_models_ m)))
    (set_dynamic_walls_
       (map (apply_wall_transformation acc) (indexed (dynamic_walls_ m))) m).

(** Whether a command names the object [index] of the kind [element_type]
    by its cell, and the height by which an [Up] command lifts that
    object at the end of the movement. *)
Definition command_targets (command : ActionCommand)
    (element_type : IndexElement.Type_) (index : nat) : bool :=
  let index_element :=
    map_index map_data_
      (float_to_uint (arg command 0) +
       float_to_uint (arg command 1) * c_map_size)%nat in
  ie_type_eqb (ie_type index_element) element_type &&
  (ie_index index_element =? index)%nat.

Definition up_height (command : ActionCommand)
    (element_type : IndexElement.Type_) (index : nat) : R :=
  match cmd_id command with
  | ActionCommandId.Up =>
    if command_targets command element_type index
    then arg command 2 * g_commands_coords_scale * 4 else 0
  | _ => 0
  end.

Definition sum_R (l : list R) : R := foldr Rplus 0 l.

(** The lift of an object: every [Up] command that names it contributes
    its height times the absolute stage of its procedure. *)
Definition procedure_lifts (m : Map) (element_type : IndexElement.Type_)
    (index : nat) (p : nat) : list R :=
  match procedures_ m !! p with
  | Some procedure_state =>
    map (fun command =>
           up_height command element_type index *
           absolute_action_stage procedure_state)
        (action_commands (procedure_at p))
  | None => []
  end.

Definition lift_of (m : Map) (element_type : IndexElement.Type_) (index : nat)
    : R :=
  sum_R (flat_map (procedure_lifts m element_type index)
                  (seq 0 (length (procedures_ m)))).

(** The accumulated [d_z] of an object. *)
Definition acc_d_z (element_type : IndexElement.Type_) (acc : MoveAcc)
    (index : nat) : option R :=
  match element_type with
  | IndexElement.DynamicWall => d_z <$> walls_transformation acc !! index
  | IndexElement.StaticModel =>
    (fun ta => d_z (fst ta)) <$> models_transformation acc !! index
  | _ => None
  end.

(** The lift of an object when all the [Up] commands that name it are at
    the end of their movement. *)
Definition full_lift_of (m : Map) (element_type : IndexElement.Type_)
    (index : nat) : R :=
  sum_R (flat_map
           (fun p => map (fun command => up_height command element_type index)
                         (action_commands (procedure_at p)))
           (seq 0 (length (procedures_ m)))).

(** ** Further concrete data *)

(** A level with one model geometry of four frames, and a switch model of
    that geometry at rest. *)
Definition example_switch_level : MapData :=
  mkMapData (fun _ => mkIndexElement IndexElement.None 0%nat) [] []
    (fun _ => mkWallTexture false false false) [] [] [mkModel 0 1 4]
    (fun _ => 1%nat) (fun _ => 1%nat) [] [].

Definition example_switch_model : StaticModel :=
  mkStaticModel (mkVec3 0 0 0) 0 0 0 0 AnimationState.SingleFrame 0 0 0 false.

(** A level with one procedure that prints the message 3 when it is first
    activated. *)
Definition door_greeting : Procedure :=
  mkProcedure 0 0 1 0 false false false false 3 0 0 [] [].

Definition example_greeting_level : MapData :=
  mkMapData (fun _ => mkIndexElement IndexElement.None 0%nat) [] []
    (fun _ => mkWallTexture false false false) [] [] []
    (fun _ => 1%nat) (fun _ => 1%nat) [] [door_greeting].

(** A level whose cells all name the dynamic wall 0, with one procedure
    that lifts the wall of the cell (0, 0) by 256 units of the script. *)
Definition door_lift : Procedure :=
  mkProcedure 0 0 1 0 false false false false 0 0 0 []
    [mkActionCommand ActionCommandId.Up [0; 0; 256]].

Definition example_lift_level : MapData :=
  mkMapData (fun _ => mkIndexElement IndexElement.DynamicWall 0%nat) []
    [mkWall (mkVec2 0 0) (mkVec2 1 0) 0]
    (fun _ => mkWallTexture false false false) [] [] []
    (fun _ => 1%nat) (fun _ => 1%nat) [] [door_lift].

(** A map with the player of [example_player] in it, five units above the
    floor. *)
Definition example_monsters_map : Map :=
  set_monsters_ [(0%nat, SetPosition (mkVec3 0 0 5) example_player)]
    example_empty_map.

(** A wind command and a death zone command for the four cells
    (0..1, 0..1). *)
Definition example_wind_command : ActionCommand :=
  mkActionCommand ActionCommandId.Wind [0; 0; 1; 1; 3; -4].

Definition example_death_command : ActionCommand :=
  mkActionCommand ActionCommandId.Death [0; 0; 1; 1; 0; 1; 20].

(** * Properties *)

(** ** Vector algebra used below *)

Lemma xy_Vec3_of (p : m_Vec2) (h : R) : xy (Vec3_of p h) = p.
Proof. destruct p; reflexivity. Qed.

Lemma Vec3_of_xy (p : m_Vec3) : Vec3_of (xy p) (v3z p) = p.
Proof. destruct p; reflexivity. Qed.

Lemma scale2_1 (c : m_Vec2) : scale2 c 1 = c.
Proof. destruct c; unfold scale2; simpl; f_equal; ring. Qed.

Lemma sub2_scale2_0 (p c : m_Vec2) : sub2 p (scale2 c 0) = p.
Proof. destruct p; unfold sub2, scale2; simpl; f_equal; ring. Qed.

Lemma add2_scale2_0 (p c : m_Vec2) : add2 p (scale2 c 0) = p.
Proof. destruct p; unfold add2, scale2; simpl; f_equal; ring. Qed.

Lemma one_minus_half : 1 - 0.5 = 0.5.
Proof. lra. Qed.

(** ** Collision with the map *)

(** C10.  For every call of [CollideWithMap] with a height strictly between
    0 and 2 (the height of the walls), the z coordinate of the returned
    position lies in [0, 2 - height], and whenever it is 0 the flag
    [out_on_floor] is set. *)
Theorem CollideWithMap_z_range (m : Map) (in_pos : m_Vec3) (height radius : R) :
  0 < height < 2 ->
  0 <= v3z (fst (CollideWithMap m in_pos height radius)) <= 2 - height /\
  (v3z (fst (CollideWithMap m in_pos height radius)) = 0 ->
   snd (CollideWithMap m in_pos height radius) = true).
Proof using Type.
  intros [Hpos Hlt]. unfold CollideWithMap, walls_height.
  set (st := foldl _ _ (dynamic_walls_ m)).
  destruct (Rle_dec (cs_new_z st) 0) as [Hz|Hz]; cbn [fst snd Vec3_of v3z].
  - split; [lra | reflexivity].
  - destruct (Rlt_dec 2 (cs_new_z st + height)) as [Hc|Hc];
      cbn [fst snd Vec3_of v3z]; split; try lra.
Qed.

(** ** Collision between monsters *)

Lemma collide_pair_colliding (first_monster second_monster : MonsterBase) :
  pair_collides first_monster second_monster ->
  collide_monsters first_monster second_monster =
  (SetPosition
     (Vec3_of (sub2 (xy (Position first_monster))
                    (scale2 (pair_correction first_monster second_monster)
                            (first_monster_k_of first_monster second_monster)))
              (v3z (Position first_monster))) first_monster,
   SetPosition
     (Vec3_of (add2 (xy (Position second_monster))
                    (scale2 (pair_correction first_monster second_monster)
                            (1 - first_monster_k_of first_monster second_monster)))
              (v3z (Position second_monster))) second_monster).
Proof using Type.
  intros (Hh & Hcut & Hmin & Hz1 & Hz2).
  unfold collide_monsters, collide_pair, pair_correction, collision_radius in *.
  destruct (Z.leb_spec (Health second_monster) 0) as [Hle|_]; [lia|].
  destruct (Rlt_dec _ _) as [Hc|_]; [lra|].
  destruct (Rlt_dec _ _) as [Hc|_]; [lra|].
  fold (monster_z_minmax second_monster).
  destruct (Rlt_dec _ _) as [Hc|_]; [contradiction|].
  destruct (Rlt_dec _ _) as [Hc|_]; [contradiction|].
  reflexivity.
Qed.

(** C1 (amended).  In the pass that collides the monsters together, for
    every pair the pass collides: if the pair is a player and a monster, the
    player takes the whole positional correction and the position of the
    monster is unchanged, whichever of the two comes first; in every other
    pair (two monsters, or two players) each takes half of the correction.
    The z coordinates never change. *)
Theorem collide_monsters_correction (first_monster second_monster : MonsterBase) :
  pair_collides first_monster second_monster ->
  let first_after := fst (collide_monsters first_monster second_monster) in
  let second_after := snd (collide_monsters first_monster second_monster) in
  let correction := pair_correction first_monster second_monster in
  (MonsterId first_monster = 0%nat -> MonsterId second_monster <> 0%nat ->
   xy (Position first_after) = sub2 (xy (Position first_monster)) correction /\
   Position second_after = Position second_monster) /\
  (MonsterId first_monster <> 0%nat -> MonsterId second_monster = 0%nat ->
   Position first_after = Position first_monster /\
   xy (Position second_after) = add2 (xy (Position second_monster)) correction) /\
  ((MonsterId first_monster = 0%nat <-> MonsterId second_monster = 0%nat) ->
   xy (Position first_after) =
     sub2 (xy (Position first_monster)) (scale2 correction 0.5) /\
   xy (Position second_after) =
     add2 (xy (Position second_monster)) (scale2 correction 0.5)) /\
  v3z (Position first_after) = v3z (Position first_monster) /\
  v3z (Position second_after) = v3z (Position second_monster).
Proof using Type.
  intros Hc. rewrite (collide_pair_colliding _ _ Hc). cbn zeta.
  cbn [fst snd SetPosition Position]. rewrite !xy_Vec3_of.
  cbn [Vec3_of v3z].
  set (c := pair_correction first_monster second_monster).
  unfold first_monster_k_of.
  destruct (Nat.eqb_spec (MonsterId first_monster) 0) as [E1|E1];
    destruct (Nat.eqb_spec (MonsterId second_monster) 0) as [E2|E2];
    cbn [andb negb].
  - split; [intros _ H; contradiction|]. split; [intros H; contradiction|].
    split; [|split; reflexivity]. intros _. rewrite one_minus_half. auto.
  - split; [|split; [intros H; contradiction|]].
    + intros _ _. rewrite scale2_1. replace (1 - 1) with 0 by ring.
      rewrite add2_scale2_0, Vec3_of_xy. auto.
    + split; [|split; reflexivity]. intros [H _]. elim E2. auto.
  - split; [intros H; contradiction|]. split.
    + intros _ _. rewrite sub2_scale2_0, Vec3_of_xy.
      replace (1 - 0) with 1 by ring. rewrite scale2_1. auto.
    + split; [|split; reflexivity]. intros [_ H]. elim E1. auto.
  - split; [intros H; contradiction|]. split; [intros _ H; contradiction|].
    split; [|split; reflexivity]. intros _. rewrite one_minus_half. auto.
Qed.

(** ** Activation of procedures *)

Lemma procedures_ActivateProcedure (n : nat) (t : Time) (m : Map)
    (ps : ProcedureState) :
  procedures_ m !! n = Some ps ->
  procedures_ (ActivateProcedure n t m) !! n =
  Some (mkProcedureState (locked ps) (first_message_printed ps)
          MovementState.StartWait 0 t).
Proof using Type.
  intros H. unfold ActivateProcedure. cbn [procedures_ set_procedures_].
  rewrite list_lookup_alter_eq, H. reflexivity.
Qed.

(** The state of the procedure after [TryActivateProcedure], when the
    player permits the attempt. *)
Lemma TryActivateProcedure_permitted (n : nat) (t : Time)
    (player player' : Player) (sender : list TextMessage) (m : Map)
    (ps : ProcedureState) :
  Player_TryActivateProcedure player n t = (true, player') ->
  procedures_ m !! n = Some ps ->
  let procedure := procedure_at n in
  let activated :=
    have_necessary_keys procedure player' && negb (locked ps) &&
    is_None (movement_state ps) in
  let first :=
    negb (first_message_number procedure =? 0)%nat &&
    negb (first_message_printed ps) in
  procedures_ (snd (TryActivateProcedure n t player sender m)) !! n =
    Some (mkProcedureState (locked ps)
            (if first then true else first_message_printed ps)
            (if activated then MovementState.StartWait else movement_state ps)
            (if activated then 0 else movement_stage ps)
            (if activated then t else last_state_change_time ps)) /\
  snd (fst (TryActivateProcedure n t player sender m)) =
    sender ++
    (if first then [mkTextMessage (first_message_number procedure)] else []) ++
    (if negb (lock_message_number procedure =? 0)%nat &&
        (locked ps || negb (have_necessary_keys procedure player'))
     then [mkTextMessage (lock_message_number procedure)] else []) ++
    (if negb (on_message_number procedure =? 0)%nat
     then [mkTextMessage (on_message_number procedure)] else []).
Proof using Type.
  intros Hgate Hps procedure activated first.
  unfold TryActivateProcedure. rewrite Hgate. cbn [negb]. rewrite Hps.
  fold procedure. fold activated. fold first.
  cbn [fst snd]. split.
  - destruct activated, first; cbn [procedures_ set_procedures_];
      rewrite ?list_lookup_alter_eq;
      rewrite ?(procedures_ActivateProcedure _ _ _ _ Hps); rewrite ?Hps;
      destruct ps; reflexivity.
  - destruct first;
      destruct (negb (lock_message_number procedure =? 0)%nat &&
                (locked ps || negb (have_necessary_keys procedure player')));
      destruct (negb (on_message_number procedure =? 0)%nat);
      cbn [app]; rewrite <- ?app_assoc; cbn [app]; rewrite ?app_nil_r;
      reflexivity.
Qed.

(** C8 (amended).  When the player permits the attempt: an attempt that
    lacks a required key, or finds the procedure locked, leaves the movement
    state as it was (an idle procedure stays in [None], a running one keeps
    running) and, if a lock message is configured, sends it; the procedure
    enters [StartWait] exactly when all the required keys are held, the
    procedure is unlocked and its state is [None]. *)
Theorem TryActivateProcedure_gate (n : nat) (t : Time)
    (player player' : Player) (sender : list TextMessage) (m : Map)
    (ps : ProcedureState) :
  Player_TryActivateProcedure player n t = (true, player') ->
  procedures_ m !! n = Some ps ->
  let procedure := procedure_at n in
  let keys := have_necessary_keys procedure player' in
  let result := TryActivateProcedure n t player sender m in
  exists ps',
    procedures_ (snd result) !! n = Some ps' /\
    (keys = false \/ locked ps = true ->
       movement_state ps' = movement_state ps /\
       (movement_state ps = MovementState.None ->
        movement_state ps' = MovementState.None) /\
       ((lock_message_number procedure <> 0)%nat ->
        exists before after,
          snd (fst result) =
          sender ++ before ++
          mkTextMessage (lock_message_number procedure) :: after)) /\
    (keys = true /\ locked ps = false /\
     movement_state ps = MovementState.None ->
       movement_state ps' = MovementState.StartWait /\
       movement_stage ps' = 0 /\ last_state_change_time ps' = t) /\
    (movement_state ps' = MovementState.StartWait ->
     movement_state ps <> MovementState.StartWait ->
       keys = true /\ locked ps = false /\
       movement_state ps = MovementState.None).
Proof using Type.
  intros Hgate Hps procedure keys result.
  destruct (TryActivateProcedure_permitted n t player player' sender m ps
              Hgate Hps) as [Hstate Hmsg].
  fold procedure in Hstate, Hmsg. fold keys in Hstate, Hmsg.
  fold result in Hstate, Hmsg.
  eexists. split; [exact Hstate|]. cbn [movement_state movement_stage
    last_state_change_time]. split; [|split].
  - intros Hfail.
    assert (Hact : keys && negb (locked ps) && is_None (movement_state ps) = false).
    { destruct Hfail as [-> | ->]; [reflexivity|].
      destruct keys; reflexivity. }
    rewrite Hact. split; [reflexivity|]. split; [auto|].
    intros Hconf. rewrite Hmsg.
    assert (Hlock : negb (lock_message_number procedure =? 0)%nat &&
                    (locked ps || negb keys) = true).
    { destruct (Nat.eqb_spec (lock_message_number procedure) 0);
        [contradiction|].
      destruct Hfail as [-> | ->]; cbn; [apply orb_true_r|reflexivity]. }
    rewrite Hlock. do 2 eexists. reflexivity.
  - intros (-> & -> & ->). cbn. auto.
  - intros Hafter Hbefore.
    destruct keys, (locked ps), (movement_state ps); cbn in Hafter;
      try discriminate; try contradiction; auto.
Qed.

(** ** The first loop of [Tick]: what it does to the procedures *)

Lemma procedures_ActivateProcedureSwitches (procedure : Procedure)
    (inverse : bool) (t : Time) (m : Map) :
  procedures_ (ActivateProcedureSwitches procedure inverse t m) = procedures_ m.
Proof using Type.
  unfold ActivateProcedureSwitches.
  generalize (linked_switches procedure) as l. intros l. revert m.
  induction l as [|sw l IH]; intros m; [reflexivity|].
  cbn [foldl]. rewrite IH. unfold activate_switch.
  destruct (_ || _)%nat; [reflexivity|].
  destruct (ie_type _); reflexivity.
Qed.

Lemma procedures_ProcessWind (command : ActionCommand) (a : bool) (m : Map) :
  procedures_ (ProcessWind command a m) = procedures_ m.
Proof using Type. reflexivity. Qed.

Lemma procedures_ProcessDeathZone (command : ActionCommand) (a : bool) (m : Map) :
  procedures_ (ProcessDeathZone command a m) = procedures_ m.
Proof using Type. reflexivity. Qed.

Lemma procedures_DestroyModel (i : nat) (m : Map) :
  procedures_ (DestroyModel i m) = procedures_ m.
Proof using Type.
  unfold DestroyModel, EmitModelDestructionEffects.
  cbn [procedures_ set_static_models_].
  destruct (static_models_ m !! i); [|reflexivity].
  destruct (model_description_at _); [|reflexivity].
  destruct (_ =? _)%nat; reflexivity.
Qed.

Lemma movements_alter_locked (v : bool) (i : nat) (l : list ProcedureState) :
  map movement_of (alter (set_locked v) i l) = map movement_of l.
Proof using Type.
  revert i. induction l as [|ps l IH]; intros [|i]; cbn; try reflexivity.
  f_equal. apply IH.
Qed.

Lemma movements_do_immediate_command (m : Map) (command : ActionCommand) :
  movements (do_immediate_command m command) = movements m.
Proof using Type.
  unfold do_immediate_command, movements.
  destruct (cmd_id command); try reflexivity;
    cbn [procedures_ set_procedures_];
    try apply movements_alter_locked.
  - destruct (_ && _)%nat; [|reflexivity].
    destruct (ie_type _); reflexivity.
  - destruct (_ && _)%nat; [|reflexivity].
    destruct (ie_type _); try reflexivity.
    rewrite procedures_DestroyModel. reflexivity.
Qed.

Lemma movements_DoProcedureImmediateCommands (procedure : Procedure) (m : Map) :
  movements (DoProcedureImmediateCommands procedure m) = movements m.
Proof using Type.
  unfold DoProcedureImmediateCommands.
  generalize (action_commands procedure) as l. intros l. revert m.
  induction l as [|c l IH]; intros m; [reflexivity|].
  cbn [foldl]. rewrite IH. apply movements_do_immediate_command.
Qed.

Lemma procedures_DoProcedureDeactivationCommands (procedure : Procedure) (m : Map) :
  procedures_ (DoProcedureDeactivationCommands procedure m) = procedures_ m.
Proof using Type.
  unfold DoProcedureDeactivationCommands.
  destruct (existsb _ _); [reflexivity|].
  generalize (action_commands procedure) as l. intros l. revert m.
  induction l as [|c l IH]; intros m; [reflexivity|].
  cbn [foldl]. rewrite IH. unfold do_deactivation_command.
  destruct (cmd_id c); reflexivity.
Qed.

Lemma map_alter_commute {A B} (f : A -> B) (g : A -> A) (h : B -> B)
    (i : nat) (l : list A) :
  (forall a, f (g a) = h (f a)) ->
  map f (alter g i l) = alter h i (map f l).
Proof using Type.
  intros H. revert i. induction l as [|a l IH]; intros [|i]; cbn;
    try reflexivity.
  - f_equal. apply H.
  - f_equal. apply IH.
Qed.

Lemma movements_enter_state (p : nat) (s : MovementState.t) (t : Time) (m : Map) :
  movements (enter_state p s t m) =
  alter (fun _ => (s, 0, t)) p (movements m).
Proof using Type.
  unfold movements, enter_state. cbn [procedures_ set_procedures_].
  apply map_alter_commute. reflexivity.
Qed.

Lemma movements_write_stage (p : nat) (v : R) (m : Map) :
  movements (write_stage p v m) =
  alter (fun mv => (fst (fst mv), v, snd mv)) p (movements m).
Proof using Type.
  unfold movements, write_stage. cbn [procedures_ set_procedures_].
  apply map_alter_commute. reflexivity.
Qed.

Lemma alter_out_of_range {A} (f : A -> A) (i : nat) (l : list A) :
  l !! i = None -> alter f i l = l.
Proof using Type.
  intros H. apply list_eq. intros j.
  destruct (decide (i = j)) as [<-|Hne].
  - rewrite list_lookup_alter_eq, H. reflexivity.
  - apply list_lookup_alter_ne. assumption.
Qed.

Lemma alter_const_lookup {A} (f g : A -> A) (i : nat) (l : list A) (a : A) :
  l !! i = Some a -> g a = f a -> alter g i l = alter f i l.
Proof using Type.
  intros Hl Hg. apply list_eq. intros j.
  destruct (decide (i = j)) as [<-|Hne].
  - rewrite !list_lookup_alter_eq, Hl. cbn. congruence.
  - rewrite !list_lookup_alter_ne by assumption. reflexivity.
Qed.

(** The loop body acts on the movement part of procedure [p] as
    [tick_movement] and leaves the movement part of the others alone. *)
Lemma movements_tick_procedure (t : Time) (m : Map) (p : nat) :
  movements (tick_procedure t m p) =
  alter (tick_movement (procedure_at p) t) p (movements m).
Proof using Type.
  unfold tick_procedure.
  destruct (procedures_ m !! p) as [ps|] eqn:Hps.
  2:{ symmetry. apply alter_out_of_range. unfold movements.
      rewrite list_lookup_fmap, Hps. reflexivity. }
  assert (Hmv : movements m !! p = Some (movement_of ps)).
  { unfold movements. rewrite list_lookup_fmap, Hps. reflexivity. }
  set (m1 := if (_ : bool) then set_map_end_triggered_ true m else m).
  assert (Hm1 : movements m1 = movements m).
  { unfold m1. destruct (_ && _); reflexivity. }
  assert (Hp1 : procedures_ m1 = procedures_ m).
  { unfold m1. destruct (_ && _); reflexivity. }
  clearbody m1.
  destruct ps as [lk fp s stage last]. cbn [movement_state
    last_state_change_time movement_stage] in *.
  unfold movement_of in Hmv. cbn in Hmv.
  destruct s; cbv beta iota zeta.
  - rewrite Hm1. symmetry. erewrite alter_const_lookup with (f := fun x => x);
      [apply list_alter_id; reflexivity | exact Hmv | reflexivity].
  - destruct (Rle_dec _ _) as [H|H].
    + rewrite movements_enter_state, movements_DoProcedureImmediateCommands.
      unfold movements at 1. rewrite procedures_ActivateProcedureSwitches.
      fold (movements m1). rewrite Hm1.
      apply alter_const_lookup with (a := (MovementState.StartWait, stage, last));
        [exact Hmv|]. cbn. destruct (Rle_dec _ _); [reflexivity|contradiction].
    + rewrite movements_write_stage, Hm1.
      apply alter_const_lookup with (a := (MovementState.StartWait, stage, last));
        [exact Hmv|]. cbn. destruct (Rle_dec _ _); [contradiction|reflexivity].
  - destruct (Rle_dec _ _) as [H|H].
    + rewrite movements_enter_state.
      unfold movements at 1. rewrite procedures_DoProcedureDeactivationCommands.
      fold (movements m1). rewrite Hm1.
      apply alter_const_lookup with (a := (MovementState.Movement, stage, last));
        [exact Hmv|]. cbn. destruct (Rle_dec _ _); [reflexivity|contradiction].
    + rewrite movements_write_stage, Hm1.
      apply alter_const_lookup with (a := (MovementState.Movement, stage, last));
        [exact Hmv|]. cbn. destruct (Rle_dec _ _); [contradiction|reflexivity].
  - destruct (Rlt_dec _ _) as [Hb|Hb].
    + destruct (Rle_dec _ _) as [H|H].
      * rewrite movements_enter_state.
        unfold movements at 1. rewrite procedures_ActivateProcedureSwitches.
        fold (movements m1). rewrite Hm1.
        apply alter_const_lookup with (a := (MovementState.BackWait, stage, last));
          [exact Hmv|]. cbn.
        destruct (Rlt_dec _ _); [|contradiction].
        destruct (Rle_dec _ _); [reflexivity|contradiction].
      * rewrite Hm1. symmetry.
        erewrite alter_const_lookup with (f := fun x => x);
          [apply list_alter_id; reflexivity | exact Hmv |]. cbn.
        destruct (Rlt_dec _ _); [|contradiction].
        destruct (Rle_dec _ _); [contradiction|reflexivity].
    + rewrite Hm1. symmetry.
      erewrite alter_const_lookup with (f := fun x => x);
        [apply list_alter_id; reflexivity | exact Hmv |]. cbn.
      destruct (Rlt_dec _ _); [contradiction|reflexivity].
  - destruct (Rle_dec _ _) as [H|H].
    + rewrite movements_enter_state, Hm1.
      apply alter_const_lookup with (a := (MovementState.ReverseMovement, stage, last));
        [exact Hmv|]. cbn. destruct (Rle_dec _ _); [reflexivity|contradiction].
    + rewrite movements_write_stage, Hm1.
      apply alter_const_lookup with (a := (MovementState.ReverseMovement, stage, last));
        [exact Hmv|]. cbn. destruct (Rle_dec _ _); [contradiction|reflexivity].
Qed.

Lemma movements_foldl_tick (t : Time) (indices : list nat) (m : Map) (q : nat) :
  NoDup indices ->
  movements (foldl (tick_procedure t) m indices) !! q =
  if decide (q ∈ indices)
  then tick_movement (procedure_at q) t <$> movements m !! q
  else movements m !! q.
Proof using Type.
  intros Hnd. revert m. induction indices as [|i indices IH]; intros m.
  - cbn. destruct (decide _) as [H|H]; [inversion H | reflexivity].
  - apply NoDup_cons in Hnd as [Hi Hnd]. cbn [foldl]. rewrite (IH Hnd).
    rewrite movements_tick_procedure.
    destruct (decide (q = i)) as [->|Hne].
    + destruct (decide (i ∈ indices)) as [H|_]; [contradiction|].
      destruct (decide (i ∈ i :: indices)) as [_|H];
        [|elim H; apply list_elem_of_here].
      apply list_lookup_alter_eq.
    + rewrite list_lookup_alter_ne by congruence.
      destruct (decide (q ∈ indices)) as [H|H];
        destruct (decide (q ∈ i :: indices)) as [H'|H']; try reflexivity.
      * elim H'. apply list_elem_of_further. exact H.
      * apply elem_of_cons in H' as [?|?]; contradiction.
Qed.

(** The whole loop: every procedure makes the step of [tick_movement]. *)
Lemma movements_Tick_procedures (t : Time) (m : Map) (q : nat) :
  movements (Tick_procedures t m) !! q =
  tick_movement (procedure_at q) t <$> movements m !! q.
Proof using Type.
  unfold Tick_procedures. rewrite movements_foldl_tick by apply NoDup_seq.
  destruct (decide _) as [H|H]; [reflexivity|].
  assert (Hq : movements m !! q = None).
  { apply lookup_ge_None. unfold movements. rewrite length_map.
    destruct (le_lt_dec (length (procedures_ m)) q) as [Hle|Hlt]; [exact Hle|].
    elim H. apply elem_of_seq. lia. }
  rewrite Hq. reflexivity.
Qed.

Lemma movements_lookup (m : Map) (q : nat) :
  movements m !! q = movement_of <$> procedures_ m !! q.
Proof using Type. unfold movements. apply list_lookup_fmap. Qed.

(** ** Switches *)

Lemma activate_switch_model_idempotent (inverse : bool) (t : Time)
    (model : StaticModel) :
  activate_switch_model inverse t (activate_switch_model inverse t model) =
  activate_switch_model inverse t model.
Proof using Type.
  unfold activate_switch_model.
  destruct (animation_state model) eqn:E; rewrite ?E; try reflexivity.
  destruct inverse; reflexivity.
Qed.

Lemma static_models_activate_switch (inverse : bool) (t : Time) (m : Map)
    (sw : SwitchPos) :
  static_models_ (activate_switch inverse t m sw) =
  match switch_target sw with
  | Some i => alter (activate_switch_model inverse t) i (static_models_ m)
  | None => static_models_ m
  end.
Proof using Type.
  unfold activate_switch, switch_target.
  destruct (_ || _)%nat; [reflexivity|].
  destruct (ie_type _); reflexivity.
Qed.

(** After [ActivateProcedureSwitches], the model of every linked switch
    has been through [activate_switch_model], and no other model changed. *)
Lemma static_models_ActivateProcedureSwitches (procedure : Procedure)
    (inverse : bool) (t : Time) (m : Map) (i : nat) :
  static_models_ (ActivateProcedureSwitches procedure inverse t m) !! i =
  if decide (Some i ∈ map switch_target (linked_switches procedure))
  then activate_switch_model inverse t <$> static_models_ m !! i
  else static_models_ m !! i.
Proof using Type.
  unfold ActivateProcedureSwitches.
  generalize (linked_switches procedure) as l. intros l. revert m.
  induction l as [|sw l IH]; intros m.
  - cbn. destruct (decide _) as [H|H]; [inversion H|reflexivity].
  - cbn [foldl map]. rewrite IH, static_models_activate_switch.
    destruct (switch_target sw) as [j|] eqn:Hsw.
    + destruct (decide (i = j)) as [->|Hne].
      * rewrite list_lookup_alter_eq.
        destruct (decide (Some j ∈ Some j :: map switch_target l)) as [_|H];
          [|elim H; apply list_elem_of_here].
        destruct (decide _) as [_|_]; [|reflexivity].
        destruct (static_models_ m !! j); cbn; [|reflexivity].
        rewrite activate_switch_model_idempotent. reflexivity.
      * rewrite list_lookup_alter_ne by congruence.
        destruct (decide (Some i ∈ map switch_target l)) as [H|H];
          destruct (decide (Some i ∈ Some j :: map switch_target l)) as [H'|H'];
          try reflexivity.
        -- elim H'. apply list_elem_of_further. exact H.
        -- apply elem_of_cons in H' as [?|?]; [congruence|contradiction].
    + destruct (decide (Some i ∈ map switch_target l)) as [H|H];
        destruct (decide (Some i ∈ None :: map switch_target l)) as [H'|H'];
        try reflexivity.
      * elim H'. apply list_elem_of_further. exact H.
      * apply elem_of_cons in H' as [?|?]; [congruence|contradiction].
Qed.

(** ** The hold at the end of the movement *)

(** C3 (amended).  For a procedure in [BackWait] whose [back_wait] delay is
    positive: once the time since it entered the state is at least the
    delay, the next [Tick] puts it in [ReverseMovement] (stage 0, time of
    the change the current time) and triggers its linked switches with the
    reverse animation: the model of every linked switch that shows a single
    frame starts [SingleReverseAnimation] at the current time.  When
    [back_wait] is zero (or negative) [Tick] leaves the procedure in
    [BackWait], whatever time has passed. *)
Theorem Tick_BackWait (t : Time) (m : Map) (p : nat) (ps : ProcedureState) :
  procedures_ m !! p = Some ps ->
  movement_state ps = MovementState.BackWait ->
  (0 < back_wait_s (procedure_at p) ->
   back_wait_s (procedure_at p) <= t - last_state_change_time ps ->
     procedures_ (tick_procedure t m p) !! p =
       Some (mkProcedureState (locked ps) (first_message_printed ps)
               MovementState.ReverseMovement 0 t) /\
     (forall i model,
        Some i ∈ map switch_target (linked_switches (procedure_at p)) ->
        static_models_ m !! i = Some model ->
        animation_state model = AnimationState.SingleFrame ->
        exists model',
          static_models_ (tick_procedure t m p) !! i = Some model' /\
          animation_state model' = AnimationState.SingleReverseAnimation /\
          animation_start_time model' = t) /\
     movements (Tick_procedures t m) !! p =
       Some (MovementState.ReverseMovement, 0, t)) /\
  (back_wait_s (procedure_at p) <= 0 ->
     movements (Tick_procedures t m) !! p = Some (movement_of ps) /\
     fst (fst (movement_of ps)) = MovementState.BackWait).
Proof using Type.
  intros Hps Hstate. split.
  - intros Hpos Hwait.
    assert (Hbody : tick_procedure t m p =
              enter_state p MovementState.ReverseMovement t
                (ActivateProcedureSwitches (procedure_at p) true t
                   (if negb (is_None (movement_state ps)) &&
                       (if Rlt_dec 0 (end_delay_s (procedure_at p))
                        then true else false) &&
                       (if Rle_dec (end_delay_s (procedure_at p))
                             (t - last_state_change_time ps)
                        then true else false)
                    then set_map_end_triggered_ true m else m))).
    { unfold tick_procedure. rewrite Hps, Hstate.
      destruct (Rlt_dec 0 (back_wait_s (procedure_at p))) as [_|N];
        [|contradiction].
      destruct (Rle_dec (back_wait_s (procedure_at p)) _) as [_|N];
        [|elim N; exact Hwait].
      reflexivity. }
    split; [|split].
    + rewrite Hbody. unfold enter_state. cbn [procedures_ set_procedures_].
      rewrite list_lookup_alter_eq, procedures_ActivateProcedureSwitches.
      destruct (_ && _); cbn [procedures_ set_map_end_triggered_];
        rewrite Hps; cbn; reflexivity.
    + intros i model Hin Hmodel Hframe. rewrite Hbody.
      unfold enter_state. cbn [static_models_ set_procedures_].
      rewrite static_models_ActivateProcedureSwitches.
      destruct (decide _) as [_|N]; [|contradiction].
      exists (activate_switch_model true t model). split.
      * destruct (_ && _); cbn [static_models_ set_map_end_triggered_];
          rewrite Hmodel; reflexivity.
      * unfold activate_switch_model. rewrite Hframe. cbn. auto.
    + rewrite movements_Tick_procedures, movements_lookup, Hps.
      cbn [fmap option_fmap option_map].
      unfold movement_of, tick_movement. rewrite Hstate.
      clear Hbody.
      destruct (Rlt_dec _ _) as [_|N]; [|contradiction].
      destruct (Rle_dec _ _) as [_|N]; [|contradiction].
      reflexivity.
  - intros Hzero. split.
    + rewrite movements_Tick_procedures, movements_lookup, Hps.
      cbn [fmap option_fmap option_map].
      unfold movement_of, tick_movement. rewrite Hstate.
      destruct (Rlt_dec _ _) as [Hc|_]; [lra|]. reflexivity.
    + exact Hstate.
Qed.

(** ** The calls, seen from one procedure *)

Lemma movements_alter_same (g : ProcedureState -> ProcedureState) (i : nat)
    (l : list ProcedureState) :
  (forall ps, movement_of (g ps) = movement_of ps) ->
  map movement_of (alter g i l) = map movement_of l.
Proof using Type.
  intros H. rewrite (map_alter_commute movement_of g (fun x => x)) by exact H.
  apply list_alter_id. reflexivity.
Qed.

Lemma movements_ActivateProcedure (n : nat) (t : Time) (m : Map) :
  movements (ActivateProcedure n t m) =
  alter (fun _ => (MovementState.StartWait, 0, t)) n (movements m).
Proof using Type.
  unfold movements, ActivateProcedure. cbn [procedures_ set_procedures_].
  apply map_alter_commute. reflexivity.
Qed.

Lemma alter_lookup_step {A} (f : A -> A) (n q : nat) (l l' : list A) (a : A) :
  l' = alter f n l -> l !! q = Some a ->
  exists a', l' !! q = Some a' /\ (a' = a \/ (q = n /\ a' = f a)).
Proof using Type.
  intros -> Hq. destruct (decide (n = q)) as [->|Hne].
  - exists (f a). rewrite list_lookup_alter_eq, Hq. auto.
  - exists a. rewrite list_lookup_alter_ne by assumption. auto.
Qed.

Lemma movements_ReturnProcedure (n : nat) (t : Time) (m : Map) :
  movements (ReturnProcedure n t m) = movements m \/
  movements (ReturnProcedure n t m) =
    alter (return_movement (procedure_at n) t) n (movements m).
Proof using Type.
  unfold ReturnProcedure.
  destruct (procedures_ m !! n) as [ps|] eqn:Hps; [|left; reflexivity].
  destruct (locked ps); [left; reflexivity|].
  assert (Hmv : movements m !! n = Some (movement_of ps)).
  { rewrite movements_lookup, Hps. reflexivity. }
  destruct ps as [lk fp s stage last].
  cbn [movement_state last_state_change_time].
  unfold movement_of in Hmv. cbn in Hmv.
  destruct s; try (left; reflexivity); right.
  - rewrite (alter_const_lookup
               (fun mv : Movement3 => (MovementState.None, snd (fst mv), snd mv))
               (return_movement (procedure_at n) t) _ _ _ Hmv eq_refl).
    unfold movements. cbn [procedures_ set_procedures_].
    apply map_alter_commute. reflexivity.
  - rewrite (alter_const_lookup
               (fun mv : Movement3 =>
                  (MovementState.ReverseMovement, snd (fst mv),
                   t - (if Rlt_dec 0 (speed (procedure_at n))
                        then Rmax (1 / (speed (procedure_at n) *
                                        procedures_speed_scale) - (t - last)) 0
                        else 0)))
               (return_movement (procedure_at n) t) _ _ _ Hmv eq_refl).
    unfold movements. cbn [procedures_ set_procedures_].
    apply map_alter_commute. reflexivity.
  - rewrite (alter_const_lookup
               (fun mv : Movement3 =>
                  (MovementState.ReverseMovement, snd (fst mv), t))
               (return_movement (procedure_at n) t) _ _ _ Hmv eq_refl).
    unfold movements. cbn [procedures_ set_procedures_].
    apply map_alter_commute. reflexivity.
Qed.

Lemma movements_ProcedureProcessShoot (n : nat) (t : Time) (m : Map) :
  movements (ProcedureProcessShoot n t m) = movements m \/
  (exists stage last,
     movements m !! n = Some (MovementState.None, stage, last)) /\
  movements (ProcedureProcessShoot n t m) =
    alter (fun _ => (MovementState.StartWait, 0, t)) n (movements m).
Proof using Type.
  unfold ProcedureProcessShoot.
  destruct (procedures_ m !! n) as [ps|] eqn:Hps; [|left; reflexivity].
  destruct (movement_state ps) eqn:Hs; cbn [is_None negb]; try (left; reflexivity).
  destruct (locked ps); [left; reflexivity|]. right. split.
  - exists (movement_stage ps), (last_state_change_time ps).
    rewrite movements_lookup, Hps. cbn. unfold movement_of. rewrite Hs.
    reflexivity.
  - apply movements_ActivateProcedure.
Qed.

Lemma movements_ProcedureProcessDestroy (n : nat) (t : Time) (m : Map) :
  movements (ProcedureProcessDestroy n t m) =
  alter (fun _ => (MovementState.StartWait, 0, t)) n (movements m).
Proof using Type.
  unfold ProcedureProcessDestroy. rewrite movements_ActivateProcedure.
  f_equal. unfold movements. cbn [procedures_ set_procedures_].
  apply movements_alter_same. reflexivity.
Qed.

Lemma movements_TryActivateProcedure (n : nat) (t : Time) (player : Player)
    (sender : list TextMessage) (m : Map) :
  movements (snd (TryActivateProcedure n t player sender m)) = movements m \/
  (exists stage last,
     movements m !! n = Some (MovementState.None, stage, last)) /\
  movements (snd (TryActivateProcedure n t player sender m)) =
    alter (fun _ => (MovementState.StartWait, 0, t)) n (movements m).
Proof using Type.
  unfold TryActivateProcedure.
  destruct (Player_TryActivateProcedure player n t) as [permitted player'].
  destruct permitted; cbn [negb]; [|left; reflexivity].
  destruct (procedures_ m !! n) as [ps|] eqn:Hps; [|left; reflexivity].
  cbn [snd].
  set (activated := _ && _ && is_None _).
  set (first := _ && negb (first_message_printed ps)).
  assert (Hfirst : forall m0,
            movements (if first
                       then set_procedures_
                              (alter (set_first_message_printed true) n
                                     (procedures_ m0)) m0
                       else m0) = movements m0).
  { intros m0. destruct first; [|reflexivity]. unfold movements.
    cbn [procedures_ set_procedures_]. apply movements_alter_same.
    reflexivity. }
  rewrite Hfirst. destruct activated eqn:Hact; [|left; reflexivity].
  right. split; [|apply movements_ActivateProcedure].
  unfold activated in Hact.
  destruct (movement_state ps) eqn:Hs; cbn [is_None] in Hact;
    rewrite ?andb_false_r in Hact; try discriminate.
  exists (movement_stage ps), (last_state_change_time ps).
  rewrite movements_lookup, Hps. cbn. unfold movement_of. rewrite Hs.
  reflexivity.
Qed.

(** Every call changes the movement part of every procedure by a
    [movement_step]. *)
Lemma run_call_movement_step (c : MapCall) (m : Map) (q : nat) (mv : Movement3) :
  movements m !! q = Some mv ->
  exists mv',
    movements (run_call c m) !! q = Some mv' /\
    movement_step (procedure_at q) c mv mv'.
Proof using Type.
  intros Hq. unfold movement_step. destruct c as [t|n t player|n t|n t|n t];
    cbn [run_call].
  - exists (tick_movement (procedure_at q) t mv).
    rewrite movements_Tick_procedures, Hq. auto.
  - destruct (movements_TryActivateProcedure n t player [] m)
      as [E|[(stage & last & Hn) E]].
    + exists mv. rewrite E. auto.
    + destruct (alter_lookup_step _ _ _ _ _ _ E Hq) as (mv' & Hl & [->|[-> ->]]).
      * exists mv. auto.
      * eexists. split; [exact Hl|]. right.
        pose proof (eq_trans (eq_sym Hq) Hn) as Hmv.
        injection Hmv as ->. auto.
  - destruct (movements_ReturnProcedure n t m) as [E|E].
    + exists mv. rewrite E. auto.
    + destruct (alter_lookup_step _ _ _ _ _ _ E Hq) as (mv' & Hl & [->|[-> ->]]).
      * exists mv. auto.
      * eexists. split; [exact Hl|]. auto.
  - destruct (movements_ProcedureProcessShoot n t m)
      as [E|[(stage & last & Hn) E]].
    + exists mv. rewrite E. auto.
    + destruct (alter_lookup_step _ _ _ _ _ _ E Hq) as (mv' & Hl & [->|[-> ->]]).
      * exists mv. auto.
      * eexists. split; [exact Hl|]. right.
        pose proof (eq_trans (eq_sym Hq) Hn) as Hmv.
        injection Hmv as ->. auto.
  - destruct (alter_lookup_step _ _ _ _ _ _
                (movements_ProcedureProcessDestroy n t m) Hq)
      as (mv' & Hl & [->|[-> ->]]).
    + exists mv. auto.
    + eexists. split; [exact Hl|]. auto.
Qed.

(** ** Invariant of the procedure states *)

Lemma movement_ok_mono (clock clock' : Time) (mv : Movement3) :
  movement_ok clock mv -> clock <= clock' -> movement_ok clock' mv.
Proof using Type.
  destruct mv as [[s stage] last]. unfold movement_ok.
  intros [H0 H] Hle. split; [exact H0|].
  destruct s; try exact I; try lra; destruct H; split; lra.
Qed.

Lemma new_stage_of_nonneg (procedure : Procedure) (elapsed : R) :
  0 <= procedures_speed_scale -> 0 <= elapsed ->
  0 <= new_stage_of procedure elapsed.
Proof using Type.
  intros Hs He. unfold new_stage_of.
  destruct (Rlt_dec 0 (speed procedure)) as [Hp|_]; [|lra].
  apply Rmult_le_pos; [apply Rmult_le_pos|]; lra.
Qed.

Lemma tick_movement_ok (procedure : Procedure) (clock t : Time) (mv : Movement3) :
  0 <= procedures_speed_scale ->
  movement_ok clock mv -> clock <= t ->
  movement_ok t (tick_movement procedure t mv).
Proof using Type.
  intros Hs Hok Hle. destruct mv as [[s stage] last].
  unfold movement_ok in Hok. destruct Hok as [H0 H].
  unfold tick_movement, movement_ok.
  destruct s.
  - auto.
  - destruct (Rle_dec _ _); [split; [lra|split; lra]|].
    split; [apply new_stage_of_nonneg; lra|lra].
  - destruct H as [Hl H1].
    destruct (Rle_dec _ _) as [Hn|Hn]; [split; [lra|split; lra]|].
    split; [apply new_stage_of_nonneg; lra|split; lra].
  - destruct H as [Hl H1].
    destruct (Rlt_dec _ _);
      [destruct (Rle_dec _ _)|]; split; try lra; split; lra.
  - destruct H as [Hl H1].
    destruct (Rle_dec _ _) as [Hn|Hn]; [split; [lra|exact I]|].
    split; [apply new_stage_of_nonneg; lra|split; lra].
Qed.

Lemma return_movement_ok (procedure : Procedure) (clock t : Time) (mv : Movement3) :
  movement_ok clock mv -> clock <= t ->
  movement_ok t (return_movement procedure t mv).
Proof using Type.
  intros Hok Hle. destruct mv as [[s stage] last].
  unfold movement_ok in Hok. destruct Hok as [H0 H].
  unfold return_movement, movement_ok.
  destruct s.
  - auto.
  - auto.
  - destruct H as [Hl H1]. split; [exact H0|]. split; [|exact H1].
    destruct (Rlt_dec _ _); [|lra].
    pose proof (Rmax_r (1 / (speed procedure * procedures_speed_scale) -
                        (t - last)) 0). lra.
  - destruct H as [Hl H1]. split; [exact H0|]. split; lra.
  - destruct H as [Hl H1]. split; [exact H0|]. split; lra.
Qed.

Lemma movement_step_ok (procedure : Procedure) (c : MapCall) (clock : Time)
    (mv mv' : Movement3) :
  0 <= procedures_speed_scale ->
  movement_ok clock mv -> clock <= call_time c ->
  movement_step procedure c mv mv' -> movement_ok (call_time c) mv'.
Proof using Type.
  intros Hs Hok Hle [->|Hstep].
  - apply (movement_ok_mono clock); assumption.
  - destruct c as [t|n t player|n t|n t|n t]; cbn [call_time] in *.
    + subst mv'. apply (tick_movement_ok _ clock); assumption.
    + destruct Hstep as [_ ->]. cbn. lra.
    + subst mv'. apply (return_movement_ok _ clock); assumption.
    + destruct Hstep as [_ ->]. cbn. lra.
    + subst mv'. cbn. lra.
Qed.

Lemma movement_step_edge (procedure : Procedure) (c : MapCall)
    (mv mv' : Movement3) :
  movement_step procedure c mv mv' ->
  fst (fst mv') = fst (fst mv) \/
  listed_edge (fst (fst mv)) (fst (fst mv')) \/
  (is_destroy c /\ fst (fst mv') = MovementState.StartWait).
Proof using Type.
  intros [->|Hstep]; [left; reflexivity|].
  destruct mv as [[s stage] last].
  destruct c as [t|n t player|n t|n t|n t].
  - subst mv'. unfold tick_movement. cbn [fst].
    destruct s; auto.
    + destruct (Rle_dec _ _); cbn; auto.
    + destruct (Rle_dec _ _); cbn; auto.
    + destruct (Rlt_dec _ _); [destruct (Rle_dec _ _)|]; cbn; auto.
    + destruct (Rle_dec _ _); cbn; auto.
  - destruct Hstep as [Hs ->]. cbn in *. subst s. cbn. auto.
  - subst mv'. unfold return_movement. destruct s; cbn; auto.
  - destruct Hstep as [Hs ->]. cbn in *. subst s. cbn. auto.
  - subst mv'. cbn. auto.
Qed.

Lemma initial_procedures_ok (clock : Time) (q : nat) (ps : ProcedureState) :
  initial_procedures !! q = Some ps -> movement_ok clock (movement_of ps).
Proof using Type.
  unfold initial_procedures. rewrite list_lookup_fmap.
  destruct (procedures map_data_ !! q) as [procedure|]; [|discriminate].
  cbn. intros H. injection H as <-.
  destruct (proc_locked procedure); cbn; lra.
Qed.

Lemma length_of_lookup_fmap {A} (f : nat -> A -> A) (l l' : list A) :
  (forall q, l' !! q = f q <$> l !! q) -> length l' = length l.
Proof using Type.
  intros H.
  destruct (lt_eq_lt_dec (length l') (length l)) as [[Hlt|Heq]|Hlt];
    [|exact Heq|]; exfalso.
  - specialize (H (length l')).
    rewrite (proj2 (lookup_ge_None l' _)) in H by lia.
    destruct (lookup_lt_is_Some_2 l (length l') Hlt) as [a Ha].
    rewrite Ha in H. discriminate.
  - specialize (H (length l)).
    rewrite (proj2 (lookup_ge_None l _)) in H by lia.
    destruct (lookup_lt_is_Some_2 l' (length l) Hlt) as [a Ha].
    rewrite Ha in H. discriminate.
Qed.

Lemma length_movements_run_call (c : MapCall) (m : Map) :
  length (movements (run_call c m)) = length (movements m).
Proof using Type.
  destruct c as [t|n t player|n t|n t|n t]; cbn [run_call].
  - apply (length_of_lookup_fmap
             (fun q => tick_movement (procedure_at q) t)).
    apply movements_Tick_procedures.
  - destruct (movements_TryActivateProcedure n t player [] m)
      as [->|[_ ->]]; [reflexivity|apply length_alter].
  - destruct (movements_ReturnProcedure n t m) as [->| ->];
      [reflexivity|apply length_alter].
  - destruct (movements_ProcedureProcessShoot n t m) as [->|[_ ->]];
      [reflexivity|apply length_alter].
  - rewrite movements_ProcedureProcessDestroy. apply length_alter.
Qed.

Lemma reachable_movement_ok (clock : Time) (m : Map) :
  0 <= procedures_speed_scale ->
  reachable clock m ->
  forall q mv, movements m !! q = Some mv -> movement_ok clock mv.
Proof using Type.
  intros Hs Hr. induction Hr as [t0 m Hinit|clock m c Hr IH Hle];
    intros q mv Hq.
  - rewrite movements_lookup, Hinit in Hq.
    destruct (initial_procedures !! q) as [ps|] eqn:E; [|discriminate].
    injection Hq as <-. apply (initial_procedures_ok _ q). exact E.
  - destruct (movements m !! q) as [mv0|] eqn:Hmv0.
    + destruct (run_call_movement_step c m q mv0 Hmv0) as (mv' & Hl & Hstep).
      pose proof (eq_trans (eq_sym Hl) Hq) as Hmv. injection Hmv as ->.
      apply (movement_step_ok (procedure_at q) c clock mv0); auto.
      apply (IH q mv0 Hmv0).
    + exfalso. apply lookup_ge_None in Hmv0. apply lookup_lt_Some in Hq.
      rewrite length_movements_run_call in Hq. lia.
Qed.

(** ** Early reversal *)

Lemma absolute_action_stage_movement_of (ps : ProcedureState) :
  absolute_action_stage ps = absolute_stage_of (movement_of ps).
Proof using Type. destruct ps as [lk fp s stage last]. destruct s; reflexivity. Qed.

(** With a positive speed, the absolute stage that [Tick] computes at the
    time of the reversal is the same whether the movement was reversed or
    not: the reverse movement starts from the stage the movement has
    reached. *)
Lemma reversal_continuous (procedure : Procedure) (t : Time) (stage : R)
    (last : Time) :
  0 < speed procedure -> 0 < procedures_speed_scale -> last <= t ->
  absolute_stage_of
    (tick_movement procedure t
       (return_movement procedure t (MovementState.Movement, stage, last))) =
  absolute_stage_of
    (tick_movement procedure t (MovementState.Movement, stage, last)).
Proof using Type.
  intros Hsp Hsc Hle. unfold return_movement, tick_movement, new_stage_of.
  destruct (Rlt_dec 0 (speed procedure)) as [_|N]; [|contradiction].
  set (k := speed procedure * procedures_speed_scale).
  assert (Hk : 0 < k) by (apply Rmult_lt_0_compat; assumption).
  assert (Hinv : 1 / k * k = 1) by (field; lra).
  replace ((t - last) * speed procedure * procedures_speed_scale)
    with ((t - last) * k) by (unfold k; ring).
  set (e := t - last) in *. assert (He : 0 <= e) by (unfold e; lra).
  unfold Rmax. destruct (Rle_dec (1 / k - e) 0) as [Hd|Hd].
  - replace ((t - (t - 0)) * speed procedure * procedures_speed_scale)
      with 0 by ring.
    assert (H1 : 1 <= e * k) by nra.
    destruct (Rle_dec 1 0) as [?|_]; [lra|].
    destruct (Rle_dec 1 (e * k)) as [_|?]; [|contradiction].
    cbn. lra.
  - replace ((t - (t - (1 / k - e))) * speed procedure * procedures_speed_scale)
      with (1 - e * k) by (unfold k in *; nra).
    assert (H1 : e * k < 1) by nra.
    destruct (Rle_dec 1 (e * k)) as [?|_]; [lra|].
    destruct (Rle_dec 1 (1 - e * k)) as [H2|H2]; cbn; [|lra].
    assert (0 <= e * k) by (apply Rmult_le_pos; lra). lra.
Qed.

(** After the reversal, the stage of the reverse movement that [Tick]
    computes at a later time [t']. *)
Lemma reversal_stage (procedure : Procedure) (t t' : Time) (last : Time) :
  0 < speed procedure -> 0 < procedures_speed_scale ->
  let k := speed procedure * procedures_speed_scale in
  (t - last) * k <= 1 ->
  new_stage_of procedure
    (t' - (t - Rmax (1 / k - (t - last)) 0)) =
  (1 - (t - last) * k) + (t' - t) * k.
Proof using Type.
  intros Hsp Hsc k Hk1. unfold new_stage_of.
  destruct (Rlt_dec 0 (speed procedure)) as [_|N]; [|contradiction].
  assert (Hk : 0 < k) by (apply Rmult_lt_0_compat; assumption).
  assert (Hinv : 1 / k * k = 1) by (field; lra).
  rewrite Rmax_left by nra.
  replace ((t' - (t - (1 / k - (t - last)))) * speed procedure *
           procedures_speed_scale)
    with ((t' - t) * k + 1 / k * k - (t - last) * k) by (unfold k; ring).
  lra.
Qed.

(** C4.  [ReturnProcedure] changes nothing when the procedure is locked or
    its state is [None] or [ReverseMovement]; from [StartWait] it sets the
    state to [None]; from [BackWait] it sets the state to
    [ReverseMovement] at once, and the stage is 0 (the stage of every
    procedure in [BackWait] is); from [Movement] it sets the state to
    [ReverseMovement] with a synthetic time of the last change: for a
    positive speed, the stage of the reverse movement that the next [Tick]
    computes starts at one minus the stage the movement has reached, and
    the absolute stage at the time of the reversal is the same with and
    without the reversal; for a speed of zero the synthetic time is the
    current time. *)
Theorem ReturnProcedure_cases (clock t : Time) (m : Map) (n : nat)
    (ps : ProcedureState) :
  0 <= procedures_speed_scale ->
  reachable clock m -> clock <= t ->
  procedures_ m !! n = Some ps ->
  let procedure := procedure_at n in
  let k := speed procedure * procedures_speed_scale in
  let after := procedures_ (ReturnProcedure n t m) !! n in
  (locked ps = true \/ movement_state ps = MovementState.None \/
   movement_state ps = MovementState.ReverseMovement ->
     ReturnProcedure n t m = m) /\
  (locked ps = false -> movement_state ps = MovementState.StartWait ->
     after = Some (set_movement_state MovementState.None ps)) /\
  (locked ps = false -> movement_state ps = MovementState.BackWait ->
     after = Some (mkProcedureState false (first_message_printed ps)
                     MovementState.ReverseMovement 0 t)) /\
  (locked ps = false -> movement_state ps = MovementState.Movement ->
     exists synthetic,
       after = Some (mkProcedureState false (first_message_printed ps)
                       MovementState.ReverseMovement (movement_stage ps)
                       synthetic) /\
       synthetic <= t /\
       (speed procedure <= 0 -> synthetic = t) /\
       (0 < speed procedure -> 0 < procedures_speed_scale ->
          absolute_stage_of
            (tick_movement procedure t
               (MovementState.ReverseMovement, movement_stage ps, synthetic)) =
          absolute_stage_of (tick_movement procedure t (movement_of ps)) /\
          ((t - last_state_change_time ps) * k <= 1 ->
           forall t',
             new_stage_of procedure (t' - synthetic) =
             (1 - (t - last_state_change_time ps) * k) + (t' - t) * k))).
Proof using Type.
  intros Hs Hr Hle Hps procedure k after.
  assert (Hok : movement_ok clock (movement_of ps)).
  { apply (reachable_movement_ok clock m Hs Hr n).
    rewrite movements_lookup, Hps. reflexivity. }
  unfold after, ReturnProcedure. clear after. rewrite Hps. fold procedure.
  destruct ps as [lk fp s stage last].
  unfold movement_of, movement_ok in Hok.
  cbn [locked movement_state movement_stage last_state_change_time
       first_message_printed] in *.
  split; [|split; [|split]].
  - intros [->|[->| ->]]; [reflexivity| |]; destruct lk; reflexivity.
  - intros -> ->. cbn [procedures_ set_procedures_].
    rewrite list_lookup_alter_eq, Hps. reflexivity.
  - intros -> ->. cbn [procedures_ set_procedures_].
    rewrite list_lookup_alter_eq, Hps. cbn.
    destruct Hok as [_ [_ ->]]. reflexivity.
  - intros -> ->. cbn [procedures_ set_procedures_].
    rewrite list_lookup_alter_eq, Hps. cbn.
    destruct Hok as [H0 [Hl H1]].
    eexists. split; [reflexivity|]. split; [|split].
    + destruct (Rlt_dec _ _); [|lra].
      pose proof (Rmax_r (1 / (speed procedure * procedures_speed_scale) -
                          (t - last)) 0). lra.
    + intros Hz. destruct (Rlt_dec 0 (speed procedure)); [lra|].
      unfold Rminus. rewrite Ropp_0. apply Rplus_0_r.
    + intros Hsp Hsc. split.
      * apply (reversal_continuous procedure t stage last Hsp Hsc). lra.
      * intros Hk1 t'.
        destruct (Rlt_dec 0 (speed procedure)) as [_|N]; [|contradiction].
        apply (reversal_stage procedure t t' last Hsp Hsc Hk1).
Qed.

(** ** Stage bounds and edges *)

Lemma procedures_lookup_movements (m : Map) (q : nat) (mv : Movement3) :
  movements m !! q = Some mv ->
  exists ps, procedures_ m !! q = Some ps /\ movement_of ps = mv.
Proof using Type.
  rewrite movements_lookup.
  destruct (procedures_ m !! q) as [ps|]; [|discriminate].
  cbn. intros H. injection H as <-. eauto.
Qed.

(** C2 (amended).  In every state reachable by calls of [Tick],
    [TryActivateProcedure], [ReturnProcedure], [ProcedureProcessShoot] and
    [ProcedureProcessDestroy] at times that do not decrease, the stage of
    every procedure is at least 0, and it is below 1 whenever the procedure
    is in [Movement], [BackWait] or [ReverseMovement] (in [StartWait], and
    in [None] after a cancelled wait, it has no upper bound).  Every call
    leaves the state of a procedure as it is or moves it along one of the
    listed edges; only [ProcedureProcessDestroy] also restarts a procedure,
    from any state, in [StartWait]. *)
Theorem procedures_stage_and_edges (clock : Time) (m : Map) :
  0 <= procedures_speed_scale ->
  reachable clock m ->
  (forall q ps, procedures_ m !! q = Some ps ->
     0 <= movement_stage ps /\
     (movement_state ps = MovementState.Movement \/
      movement_state ps = MovementState.BackWait \/
      movement_state ps = MovementState.ReverseMovement ->
      movement_stage ps < 1)) /\
  (forall c q ps, procedures_ m !! q = Some ps ->
     exists ps',
       procedures_ (run_call c m) !! q = Some ps' /\
       (movement_state ps' = movement_state ps \/
        listed_edge (movement_state ps) (movement_state ps') \/
        (is_destroy c /\ movement_state ps' = MovementState.StartWait))).
Proof using Type.
  intros Hs Hr. split.
  - intros q ps Hps.
    assert (Hok : movement_ok clock (movement_of ps)).
    { apply (reachable_movement_ok clock m Hs Hr q).
      rewrite movements_lookup, Hps. reflexivity. }
    destruct ps as [lk fp s stage last]. unfold movement_of, movement_ok in Hok.
    cbn in *. destruct Hok as [H0 H]. split; [exact H0|].
    intros [->|[->| ->]]; lra.
  - intros c q ps Hps.
    assert (Hmv : movements m !! q = Some (movement_of ps)).
    { rewrite movements_lookup, Hps. reflexivity. }
    destruct (run_call_movement_step c m q _ Hmv) as (mv' & Hl & Hstep).
    destruct (procedures_lookup_movements _ _ _ Hl) as (ps' & Hps' & <-).
    exists ps'. split; [exact Hps'|].
    apply (movement_step_edge _ _ _ _ Hstep).
Qed.

(** ** Nearest hit *)

Lemma foldl_omap {A B C} (f : B -> option C) (g : A -> C -> A)
    (h : A -> B -> A) (a : A) (l : list B) :
  (forall a b, h a b = match f b with Some c => g a c | None => a end) ->
  foldl h a l = foldl g a (omap f l).
Proof using Type.
  intros H. revert a. induction l as [|b l IH]; intros a; [reflexivity|].
  cbn [foldl omap list_omap]. rewrite H.
  destruct (f b) as [c|]; cbn [foldl]; apply IH.
Qed.

(** [ProcessShot] considers the candidates one after the other. *)
Lemma ProcessShot_acc_candidates (m : Map) (start direction : m_Vec3)
    (max_distance : R) (skip : EntityId) :
  ProcessShot_acc m start direction max_distance skip =
  foldl (consider start) (no_hit, max_distance * max_distance)
        (shot_candidates m start direction max_distance skip).
Proof using Type.
  unfold ProcessShot_acc, shot_candidates. rewrite !foldl_app.
  rewrite (foldl_omap (static_candidate m start direction) (consider start)).
  2:{ intros a e. unfold shot_static_element, static_candidate.
      destruct (ie_type e); try reflexivity.
      - destruct (gso1 _); [reflexivity|].
        destruct (RayIntersectWall _ _ _ _ _ _); reflexivity.
      - destruct (static_models_ m !! _); [|reflexivity].
        destruct (model_description_at _); [|reflexivity].
        destruct (Rle_dec _ _); [reflexivity|].
        destruct (RayIntersectCylinder _ _ _ _ _ _); reflexivity. }
  rewrite (foldl_omap (dynamic_wall_candidate start direction) (consider start)).
  2:{ intros a e. unfold shot_dynamic_wall, dynamic_wall_candidate.
      destruct (gso1 _); [reflexivity|].
      destruct (RayIntersectWall _ _ _ _ _ _); reflexivity. }
  rewrite (foldl_omap (monster_candidate start direction skip) (consider start)).
  2:{ intros a e. unfold shot_monster, monster_candidate.
      destruct (_ =? _)%nat; [reflexivity|].
      destruct (TryShot _ _ _); reflexivity. }
  rewrite (foldl_omap (floor_candidate start direction) (consider start)).
  2:{ intros a e. unfold shot_floor, floor_candidate.
      destruct (RayIntersectXYPlane _ _ _); [|reflexivity].
      destruct (_ || _ || _ || _)%Z; [reflexivity|].
      destruct (_ || _)%nat; reflexivity. }
  reflexivity.
Qed.

(** The accumulator after a run of candidates: still the old one when no
    candidate is strictly nearer than its bound, otherwise the first of the
    nearest candidates. *)
Lemma foldl_consider (start : m_Vec3) (l : list ShotCandidate) (acc : ShotAcc) :
  (forall c, c ∈ l -> snd (foldl (consider start) acc l) <=
                      square_distance_of start c) /\
  ((forall c, c ∈ l -> snd acc <= square_distance_of start c) /\
   foldl (consider start) acc l = acc \/
   exists l1 c l2,
     l = l1 ++ c :: l2 /\
     foldl (consider start) acc l = (hit_of c, square_distance_of start c) /\
     square_distance_of start c < snd acc /\
     (forall c', c' ∈ l1 -> square_distance_of start c <
                           square_distance_of start c')).
Proof using Type.
  revert acc. induction l as [|c l IH]; intros acc.
  - split; [intros c H; inversion H|]. left. split; [|reflexivity].
    intros c H. inversion H.
  - cbn [foldl]. destruct (IH (consider start acc c)) as [Hmin Hcase].
    assert (Hstep : consider start acc c = acc /\
                    snd acc <= square_distance_of start c \/
                    consider start acc c =
                      (hit_of c, square_distance_of start c) /\
                    square_distance_of start c < snd acc).
    { unfold consider, process_candidate_shot_pos.
      fold (square_distance_of start c).
      destruct (Rlt_dec _ _) as [H|H]; [right|left]; split; auto; lra. }
    assert (Hbound : snd (foldl (consider start) (consider start acc c) l) <=
                     snd (consider start acc c)).
    { destruct Hcase as [[_ ->]|(l1 & c1 & l2 & _ & -> & Hlt & _)];
        cbn [snd]; lra. }
    split.
    + intros c' Hc'. apply elem_of_cons in Hc' as [->|Hc']; [|auto].
      destruct Hstep as [[E Hle]|[E Hlt]]; rewrite E in Hbound |- *;
        cbn [snd] in Hbound; lra.
    + destruct Hstep as [[E Hle]|[E Hlt]].
      * rewrite E in *. destruct Hcase as [[Hall Heq]|Hex].
        -- left. split; [|exact Heq].
           intros c' Hc'. apply elem_of_cons in Hc' as [->|Hc']; auto.
        -- right. destruct Hex as (l1 & c1 & l2 & -> & Hr & Hlt & Hfirst).
           exists (c :: l1), c1, l2. split; [reflexivity|].
           split; [exact Hr|]. split; [exact Hlt|].
           intros c' Hc'. apply elem_of_cons in Hc' as [->|Hc']; [lra|auto].
      * destruct Hcase as [[Hall Heq]|Hex].
        -- right. exists [], c, l. split; [reflexivity|].
           rewrite Heq, E. split; [reflexivity|]. split; [exact Hlt|].
           intros c' Hc'. inversion Hc'.
        -- right. destruct Hex as (l1 & c1 & l2 & -> & Hr & Hlt1 & Hfirst).
           rewrite E in Hlt1. cbn [snd] in Hlt1.
           exists (c :: l1), c1, l2. split; [reflexivity|].
           split; [exact Hr|]. split; [lra|].
           intros c' Hc'. apply elem_of_cons in Hc' as [->|Hc']; [lra|auto].
Qed.



(** ** Rockets: what the effects of a hit leave alone *)

Lemma rocket_view_GenParticleEffectForRocketHit (p : m_Vec3) (ty : nat) (m : Map) :
  rocket_view (GenParticleEffectForRocketHit p ty m) = rocket_view m.
Proof using Type.
  unfold GenParticleEffectForRocketHit.
  destruct (model_file_name _).
  - destruct (_ =? _)%nat; reflexivity.
  - destruct (_ || _ || _)%nat; destruct (_ =? 2)%nat; reflexivity.
Qed.

Lemma rocket_view_rocket_hit_particles (rocket : Rocket) (inf : bool)
    (hit : HitResult) (m : Map) :
  rocket_view (rocket_hit_particles rocket inf hit m) = rocket_view m.
Proof using Type.
  unfold rocket_hit_particles.
  destruct (object_type hit);
    rewrite ?rocket_view_GenParticleEffectForRocketHit; try reflexivity.
  destruct (_ && _); rewrite ?rocket_view_GenParticleEffectForRocketHit;
    reflexivity.
Qed.

Lemma rocket_view_ProcessElementLinks (ty : IndexElement.Type_) (i : nat)
    (func : LinkT -> Map -> Map) (m : Map) :
  (forall link m0, rocket_view (func link m0) = rocket_view m0) ->
  rocket_view (ProcessElementLinks ty i func m) = rocket_view m.
Proof using Type.
  intros Hf. unfold ProcessElementLinks.
  generalize (links map_data_) as l. intros l. revert m.
  induction l as [|link l IH]; intros m; [reflexivity|].
  cbn [foldl]. rewrite IH. destruct (_ && _); [apply Hf|reflexivity].
Qed.

Lemma rocket_view_shoot_link (t : Time) (link : LinkT) (m : Map) :
  rocket_view (shoot_link t link m) = rocket_view m.
Proof using Type.
  unfold shoot_link, ProcedureProcessShoot.
  destruct (link_type link); try reflexivity.
  destruct (procedures_ m !! _); [|reflexivity].
  destruct (negb _); [reflexivity|]. destruct (locked _); reflexivity.
Qed.

Lemma rocket_view_destroy_link (t : Time) (link : LinkT) (m : Map) :
  rocket_view (destroy_link t link m) = rocket_view m.
Proof using Type.
  unfold destroy_link. destruct (link_type link); reflexivity.
Qed.

Lemma rocket_view_DestroyModel (i : nat) (m : Map) :
  rocket_view (DestroyModel i m) = rocket_view m.
Proof using Type.
  unfold DestroyModel, EmitModelDestructionEffects, rocket_view.
  cbn [rockets_ rockets_birth_messages_ rockets_death_messages_
       mines_ next_rocket_id_ set_static_models_].
  destruct (static_models_ m !! i); [|reflexivity].
  destruct (model_description_at _); [|reflexivity].
  destruct (_ =? _)%nat; reflexivity.
Qed.

Lemma rocket_view_rocket_hit_consequences (t : Time) (rocket : Rocket)
    (hit : HitResult) (m : Map) :
  rocket_view (rocket_hit_consequences t rocket hit m) = rocket_view m.
Proof using Type.
  unfold rocket_hit_consequences.
  destruct (object_type hit); try reflexivity.
  - apply rocket_view_ProcessElementLinks, rocket_view_shoot_link.
  - apply rocket_view_ProcessElementLinks, rocket_view_shoot_link.
  - destruct (static_models_ m !! _); [|reflexivity].
    destruct (model_description_at _); [|reflexivity].
    destruct (_ =? _)%nat.
    + apply rocket_view_ProcessElementLinks, rocket_view_shoot_link.
    + destruct (_ <=? _)%Z.
      * rewrite rocket_view_ProcessElementLinks
          by apply rocket_view_destroy_link.
        rewrite rocket_view_DestroyModel.
        change (rocket_view (ProcessElementLinks IndexElement.StaticModel
                  (object_index hit) (shoot_link t) m) = rocket_view m).
        apply rocket_view_ProcessElementLinks, rocket_view_shoot_link.
      * change (rocket_view (ProcessElementLinks IndexElement.StaticModel
                  (object_index hit) (shoot_link t) m) = rocket_view m).
        apply rocket_view_ProcessElementLinks, rocket_view_shoot_link.
Qed.

(** The rocket keeps its identity, owner, type and start through
    [rocket_advance], and the map only gains sprites. *)
Lemma rocket_advance_identity (t dt : R) (m : Map) (rocket : Rocket) :
  let '(hit, rocket', m') := rocket_advance t dt m rocket in
  rocket_id rocket' = rocket_id rocket /\
  rocket_type_id rocket' = rocket_type_id rocket /\
  start_time rocket' = start_time rocket /\
  rocket_view m' = rocket_view m.
Proof using Type.
  unfold rocket_advance. destruct (HasInfiniteSpeed rocket); [auto|].
  unfold rocket_flight.
  destruct (reflect _).
  - destruct (Rlt_dec _ _); cbn -[smoke_trail];
      destruct (_ =? _)%nat; cbn; auto.
  - destruct (Auto2 _); cbn -[smoke_trail];
      destruct (_ =? _)%nat; cbn; auto.
Qed.

(** ** Removal by swapping with the last element *)

Lemma swap_remove_split {A} (r : nat) (l : list A) (a : A) :
  l !! r = Some a ->
  exists rest, swap_remove r l = take r l ++ rest /\ rest ≡ₚ drop (S r) l.
Proof using Type.
  intros Hr. pose proof (lookup_lt_Some _ _ _ Hr) as Hlt.
  destruct l as [|a0 l0] using rev_ind; [cbn in Hlt; lia|]. clear IHl0.
  rename l0 into l'. rename a0 into back.
  rewrite length_app in Hlt. cbn in Hlt.
  unfold swap_remove. rewrite last_snoc, length_app. cbn [length].
  replace (length l' + 1 - 1)%nat with (length l') by lia.
  destruct (Nat.eqb_spec r (length l')) as [->|Hne].
  - exists []. rewrite removelast_last, take_app_length, app_nil_r.
    split; [reflexivity|]. rewrite drop_ge; [reflexivity|].
    rewrite length_app. cbn. lia.
  - assert (Hlt' : (r < length l')%nat) by lia.
    rewrite insert_app_l by exact Hlt'. rewrite removelast_last.
    exists (back :: drop (S r) l').
    rewrite take_app_le by lia. split.
    + apply insert_take_drop. exact Hlt'.
    + rewrite drop_app_le by lia. apply Permutation_cons_append.
Qed.

Lemma swap_remove_length {A} (r : nat) (l : list A) (a : A) :
  l !! r = Some a -> S (length (swap_remove r l)) = length l.
Proof using Type.
  intros Hr. destruct (swap_remove_split r l a Hr) as (rest & -> & Hp).
  pose proof (lookup_lt_Some _ _ _ Hr) as Hlt.
  rewrite length_app, Hp, length_take, length_drop. lia.
Qed.

Lemma swap_remove_take {A} (r : nat) (l : list A) (a : A) :
  l !! r = Some a -> take r (swap_remove r l) = take r l.
Proof using Type.
  intros Hr. destruct (swap_remove_split r l a Hr) as (rest & -> & Hp).
  pose proof (lookup_lt_Some _ _ _ Hr) as Hlt.
  apply take_app_length'. rewrite length_take. lia.
Qed.

Lemma swap_remove_drop {A} (r : nat) (l : list A) (a : A) :
  l !! r = Some a -> drop r (swap_remove r l) ≡ₚ drop (S r) l.
Proof using Type.
  intros Hr. destruct (swap_remove_split r l a Hr) as (rest & -> & Hp).
  pose proof (lookup_lt_Some _ _ _ Hr) as Hlt.
  rewrite drop_app_length'; [exact Hp|]. rewrite length_take. lia.
Qed.


(** ** The loop over the rockets *)

Lemma HasInfiniteSpeed_type (a b : Rocket) :
  rocket_type_id a = rocket_type_id b -> HasInfiniteSpeed a = HasInfiniteSpeed b.
Proof using Type. unfold HasInfiniteSpeed. intros ->. reflexivity. Qed.

(** One iteration, seen from the rockets and their messages. *)
Lemma tick_rocket_spec (t dt : R) (r : nat) (m : Map) (rocket0 : Rocket) :
  rockets_ m !! r = Some rocket0 ->
  let hit := fst (fst (rocket_advance t dt m rocket0)) in
  let rocket := snd (fst (rocket_advance t dt m rocket0)) in
  rocket_view (fst (tick_rocket t dt r m)) =
    (if rocket_dies t rocket hit
     then (swap_remove r (<[r := rocket]> (rockets_ m)),
           rockets_birth_messages_ m,
           rockets_death_messages_ m ++
           (if HasInfiniteSpeed rocket0 then []
            else [mkRocketDeath (rocket_id rocket)]),
           mines_ m, next_rocket_id_ m)
     else (<[r := rocket]> (rockets_ m), rockets_birth_messages_ m,
           rockets_death_messages_ m, mines_ m, next_rocket_id_ m)) /\
  snd (tick_rocket t dt r m) = (if rocket_dies t rocket hit then r else S r).
Proof using Type.
  intros Hr. cbn zeta. unfold tick_rocket. rewrite Hr.
  pose proof (rocket_advance_identity t dt m rocket0) as Hid.
  destruct (rocket_advance t dt m rocket0) as [[hit rocket] m1].
  destruct Hid as (_ & _ & _ & Hview). cbn [fst snd].
  set (m2 := set_rockets_ (<[r := rocket]> (rockets_ m1)) m1).
  set (m3 := rocket_hit_consequences t rocket hit
               (rocket_hit_particles rocket (HasInfiniteSpeed rocket0) hit m2)).
  assert (H3 : rocket_view m3 =
               (<[r := rocket]> (rockets_ m), rockets_birth_messages_ m,
                rockets_death_messages_ m, mines_ m, next_rocket_id_ m)).
  { unfold m3. rewrite rocket_view_rocket_hit_consequences,
      rocket_view_rocket_hit_particles.
    unfold m2, rocket_view in *. cbn. injection Hview as -> -> -> -> ->.
    reflexivity. }
  clearbody m3. unfold rocket_view in H3. injection H3 as Hk Hb Hd Hm Hn.
  destruct (rocket_dies t rocket hit); cbn [fst snd]; [|split; [|reflexivity]].
  - split; [|reflexivity].
    destruct (HasInfiniteSpeed rocket0); unfold rocket_view; cbn;
      rewrite ?Hk, ?Hb, ?Hd, ?Hm, ?Hn, ?app_nil_r; reflexivity.
  - unfold rocket_view. rewrite Hk, Hb, Hd, Hm, Hn. reflexivity.
Qed.

Lemma rockets_loop_invariant (P : Map -> nat -> Prop) (t dt : R) :
  (forall m r rocket0, rockets_ m !! r = Some rocket0 -> P m r ->
     P (fst (tick_rocket t dt r m)) (snd (tick_rocket t dt r m))) ->
  forall fuel r m,
    (length (rockets_ m) - r <= fuel)%nat -> P m r ->
    exists r', (length (rockets_ (rockets_loop fuel t dt r m)) <= r')%nat /\
               P (rockets_loop fuel t dt r m) r'.
Proof using Type.
  intros Hstep fuel. induction fuel as [|fuel IH]; intros r m Hfuel HP.
  - exists r. cbn. split; [lia|exact HP].
  - cbn [rockets_loop]. destruct (Nat.ltb_spec r (length (rockets_ m))) as [Hlt|Hge].
    2:{ exists r. split; [lia|exact HP]. }
    destruct (lookup_lt_is_Some_2 _ _ Hlt) as [rocket0 Hr].
    pose proof (Hstep m r rocket0 Hr HP) as HP'.
    destruct (tick_rocket_spec t dt r m rocket0 Hr) as [Hview Hnext].
    destruct (tick_rocket t dt r m) as [m' r']. cbn [fst snd] in *.
    apply IH; [|exact HP'].
    unfold rocket_view in Hview. subst r'.
    destruct (rocket_dies _ _ _); injection Hview as Hk _ _ _ _; rewrite Hk.
    + assert (Hl : <[r := (rocket_advance t dt m rocket0).1.2]> (rockets_ m)
                   !! r = Some (rocket_advance t dt m rocket0).1.2).
      { apply list_lookup_insert_eq. exact Hlt. }
      pose proof (swap_remove_length _ _ _ Hl) as Hlen.
      rewrite length_insert in Hlen. lia.
    + rewrite length_insert. lia.
Qed.

Lemma rocket_advance_rocket (t dt : R) (m : Map) (rocket : Rocket) :
  rocket_id (snd (fst (rocket_advance t dt m rocket))) = rocket_id rocket /\
  rocket_type_id (snd (fst (rocket_advance t dt m rocket))) =
    rocket_type_id rocket /\
  start_time (snd (fst (rocket_advance t dt m rocket))) = start_time rocket.
Proof using Type.
  pose proof (rocket_advance_identity t dt m rocket) as H.
  destruct (rocket_advance t dt m rocket) as [[hit rocket'] m'].
  cbn [fst snd]. destruct H as (H1 & H2 & H3 & _). auto.
Qed.

Lemma rocket_dies_false (t : Time) (rocket : Rocket) (hit : HitResult) :
  rocket_dies t rocket hit = false ->
  object_type hit = ObjectType.None /\ HasInfiniteSpeed rocket = false /\
  t - start_time rocket <= 16.
Proof using Type.
  unfold rocket_dies. destruct (object_type hit); try discriminate.
  destruct (Rlt_dec _ _) as [H|H]; [discriminate|].
  cbn. intros ->. split; [reflexivity|]. split; [reflexivity|lra].
Qed.




(** ** Reflecting rockets *)

Lemma rocket_flight_reflect (t dt : R) (m : Map) (rocket : Rocket) :
  reflect (rocket_description_at (rocket_type_id rocket)) = true ->
  rocket_flight t dt m rocket =
  (set_flight (Normalize3 (reflect_velocity rocket dt))
     (previous_position rocket) (track_length rocket)
     (reflect_velocity rocket dt) rocket,
   reflect_new_pos rocket dt).
Proof using Type.
  intros Href. unfold rocket_flight. rewrite Href.
  unfold reflect_velocity, reflect_new_pos, reflect_free_pos,
    reflect_velocity_z.
  destruct (Rlt_dec _ _); reflexivity.
Qed.

Lemma rocket_advance_reflect (t dt : R) (m : Map) (rocket : Rocket) :
  HasInfiniteSpeed rocket = false ->
  reflect (rocket_description_at (rocket_type_id rocket)) = true ->
  fst (fst (rocket_advance t dt m rocket)) =
    discard_floor_hit (rocket_description_at (rocket_type_id rocket))
      (reflect_raw_hit m rocket dt) /\
  rocket_speed (snd (fst (rocket_advance t dt m rocket))) =
    reflect_velocity rocket dt /\
  normalized_direction (snd (fst (rocket_advance t dt m rocket))) =
    Normalize3 (reflect_velocity rocket dt) /\
  previous_position (snd (fst (rocket_advance t dt m rocket))) =
    reflect_new_pos rocket dt.
Proof using Type.
  intros Hinf Href. unfold rocket_advance. rewrite Hinf.
  rewrite (rocket_flight_reflect t dt m rocket Href).
  cbn [previous_position set_flight owner_id track_length rocket_speed
       normalized_direction].
  destruct (_ =? _)%nat; cbn -[smoke_trail]; auto.
Qed.

(** C9.  For a reflecting rocket (with finite speed) one [Tick] integrates
    the velocity with the gravity of its type; when the position reached
    would be below the ground, the position is put at z = 0 and the
    vertical velocity becomes its absolute value, so it points upward; the
    heading is the normalised velocity.  A hit of the floor reported by the
    nearest-hit resolver is discarded: the rocket stays in the list (unless
    it is older than 16 seconds); any other hit, the ceiling included,
    removes the rocket and sends its death message. *)
Theorem reflecting_rocket_tick (t dt : R) (r : nat) (m : Map) (rocket0 : Rocket) :
  rockets_ m !! r = Some rocket0 ->
  HasInfiniteSpeed rocket0 = false ->
  reflect (rocket_description_at (rocket_type_id rocket0)) = true ->
  let flown := snd (fst (rocket_advance t dt m rocket0)) in
  let raw_hit := reflect_raw_hit m rocket0 dt in
  let after := tick_rocket t dt r m in
  (v3x (rocket_speed flown) = v3x (rocket_speed rocket0) /\
   v3y (rocket_speed flown) = v3y (rocket_speed rocket0) /\
   v3x (previous_position flown) =
     v3x (previous_position rocket0) + v3x (rocket_speed rocket0) * dt /\
   v3y (previous_position flown) =
     v3y (previous_position rocket0) + v3y (rocket_speed rocket0) * dt /\
   normalized_direction flown = Normalize3 (rocket_speed flown)) /\
  (0 <= v3z (previous_position rocket0) + reflect_velocity_z rocket0 dt * dt ->
   v3z (rocket_speed flown) = reflect_velocity_z rocket0 dt /\
   v3z (previous_position flown) =
     v3z (previous_position rocket0) + reflect_velocity_z rocket0 dt * dt) /\
  (v3z (previous_position rocket0) + reflect_velocity_z rocket0 dt * dt < 0 ->
   v3z (previous_position flown) = 0 /\
   v3z (rocket_speed flown) = Rabs (reflect_velocity_z rocket0 dt) /\
   0 <= v3z (rocket_speed flown)) /\
  (object_type raw_hit = ObjectType.Floor -> object_index raw_hit = 0%nat ->
   t - start_time rocket0 <= 16 ->
   snd after = S r /\ rockets_ (fst after) !! r = Some flown /\
   rockets_death_messages_ (fst after) = rockets_death_messages_ m) /\
  (object_type raw_hit <> ObjectType.None ->
   ~ (object_type raw_hit = ObjectType.Floor /\ object_index raw_hit = 0%nat) ->
   snd after = r /\
   rockets_ (fst after) = swap_remove r (<[r := flown]> (rockets_ m)) /\
   rockets_death_messages_ (fst after) =
     rockets_death_messages_ m ++ [mkRocketDeath (rocket_id rocket0)]).
Proof using Type.
  intros Hr Hinf Href flown raw_hit after.
  destruct (rocket_advance_reflect t dt m rocket0 Hinf Href)
    as (Hhit & Hvel & Hdir & Hpos).
  destruct (rocket_advance_rocket t dt m rocket0) as (Hid & Hty & Hst).
  destruct (tick_rocket_spec t dt r m rocket0 Hr) as [Hview Hnext].
  fold flown in Hvel, Hdir, Hpos, Hid, Hty, Hst, Hview, Hnext.
  fold raw_hit in Hhit. fold after in Hview, Hnext.
  rewrite Hhit in Hview, Hnext. rewrite Hinf in Hview.
  assert (Hz : v3z (reflect_free_pos rocket0 dt) =
               v3z (previous_position rocket0) +
               reflect_velocity_z rocket0 dt * dt) by reflexivity.
  split; [|split; [|split; [|split]]].
  - rewrite Hvel, Hpos, Hdir. unfold reflect_velocity, reflect_new_pos.
    destruct (Rlt_dec _ _); cbn; auto.
  - intros Hup. rewrite Hvel, Hpos. unfold reflect_velocity, reflect_new_pos.
    destruct (Rlt_dec _ _) as [H|_]; [rewrite Hz in H; lra|]. cbn. auto.
  - intros Hdown. rewrite Hvel, Hpos. unfold reflect_velocity, reflect_new_pos.
    destruct (Rlt_dec _ _) as [_|H]; [|rewrite Hz in H; lra]. cbn.
    split; [reflexivity|]. split; [reflexivity|apply Rabs_pos].
  - intros Hfloor Hindex Hage.
    assert (Hdies : rocket_dies t flown
              (discard_floor_hit (rocket_description_at (rocket_type_id rocket0))
                 raw_hit) = false).
    { unfold discard_floor_hit, rocket_dies. rewrite Hfloor, Href, Hindex.
      cbn. rewrite Hst, (HasInfiniteSpeed_type flown rocket0 Hty), Hinf.
      destruct (Rlt_dec _ _) as [H|_]; [lra|reflexivity]. }
    rewrite Hdies in Hview, Hnext. unfold rocket_view in Hview.
    injection Hview as Hk _ Hd _ _. split; [exact Hnext|]. split; [|exact Hd].
    rewrite Hk. apply list_lookup_insert_eq.
    apply (lookup_lt_Some _ _ _ Hr).
  - intros Hsome Hnotfloor.
    assert (Hdies : rocket_dies t flown
              (discard_floor_hit (rocket_description_at (rocket_type_id rocket0))
                 raw_hit) = true).
    { unfold discard_floor_hit.
      destruct (object_type raw_hit) eqn:Hty'; try contradiction;
        try (unfold rocket_dies; rewrite Hty'; reflexivity).
      rewrite Href. destruct (Nat.eqb_spec (object_index raw_hit) 0) as [E|E].
      - elim Hnotfloor. auto.
      - cbn. unfold rocket_dies. rewrite Hty'. reflexivity. }
    rewrite Hdies in Hview, Hnext. unfold rocket_view in Hview.
    injection Hview as Hk _ Hd _ _. rewrite Hid in Hd. auto.
Qed.

(** ** The loop over the mines *)

Lemma mine_need_kill_monsters (t : Time) (mine : Mine) (m m' : Map) :
  monsters_ m = monsters_ m' ->
  mine_need_kill t mine m = mine_need_kill t mine m' /\
  mine_explodes t mine m = mine_explodes t mine m'.
Proof using Type.
  intros H. unfold mine_need_kill, mine_explodes, mine_activated.
  rewrite H. auto.
Qed.

(** One iteration, seen from the mines and their messages. *)
Lemma tick_mine_spec (t : Time) (i : nat) (m : Map) (mine : Mine) :
  mines_ m !! i = Some mine ->
  mine_view (fst (tick_mine t i m)) =
    mkMineView
      (if mine_need_kill t mine m then swap_remove i (mines_ m) else mines_ m)
      (dynamic_items_death_messages_ m ++
       (if mine_need_kill t mine m then [mine_death mine] else []))
      (particles_effects_messages_ m ++
       (if mine_explodes t mine m then [mine_explosion mine] else []))
      (map_events_sounds_messages_ m ++
       (if mine_explodes t mine m then [mine_sound mine] else []))
      (monsters_ m) (next_rocket_id_ m) /\
  snd (tick_mine t i m) = (if mine_need_kill t mine m then i else S i).
Proof using Type.
  intros Hi. unfold tick_mine, mine_need_kill, mine_explodes, mine_too_old.
  rewrite Hi.
  destruct (Rlt_dec 30 (t - planting_time mine)) as [Hold|Hyoung];
    cbn [orb andb negb fst snd].
  - unfold mine_view. cbn. rewrite !app_nil_r. auto.
  - destruct (Rle_dec mines_preparation_time_s (t - planting_time mine));
      cbn [andb orb].
    + destruct (mine_activated mine m); unfold mine_view; cbn;
        rewrite ?app_nil_r; auto.
    + unfold mine_view. cbn. rewrite !app_nil_r. auto.
Qed.

Lemma mines_loop_inv_step (t : Time) (m0 m : Map) (killed : list Mine)
    (i : nat) (mine : Mine) :
  mines_ m !! i = Some mine ->
  mines_loop_inv t m0 killed m i ->
  exists killed',
    mines_loop_inv t m0 killed' (fst (tick_mine t i m)) (snd (tick_mine t i m)) /\
    (length (mines_ (fst (tick_mine t i m))) - snd (tick_mine t i m) <
     length (mines_ m) - i)%nat.
Proof using Type.
  intros Hi (Hperm & Hkilled & Hkept & Hview).
  destruct (tick_mine_spec t i m mine Hi) as [Hspec Hnext].
  pose proof (lookup_lt_Some _ _ _ Hi) as Hlt.
  assert (Hmon : monsters_ m = monsters_ m0).
  { unfold mine_view in Hview. injection Hview as _ _ _ Hm _. exact Hm. }
  destruct (mine_need_kill_monsters t mine m m0 Hmon) as [Hk He].
  rewrite Hk, He in Hspec. rewrite Hk in Hnext. rewrite Hnext.
  unfold mine_view in Hview. injection Hview as Hd Hp Hs _ Hn.
  assert (Hmines : mines_ (fst (tick_mine t i m)) =
            if mine_need_kill t mine m0 then swap_remove i (mines_ m)
            else mines_ m).
  { unfold mine_view in Hspec. injection Hspec as H _ _ _ _ _. exact H. }
  destruct (mine_need_kill t mine m0) eqn:Hkill.
  - exists (killed ++ [mine]). split.
    + split; [|split; [|split]].
      * rewrite Hmines, Hperm, <- app_assoc. apply Permutation_app_head.
        destruct (swap_remove_split i (mines_ m) mine Hi) as (rest & -> & Hr).
        rewrite <- (take_drop_middle (mines_ m) i mine Hi) at 1.
        cbn. rewrite Hr. apply Permutation_sym, Permutation_middle.
      * apply Forall_app. split; [exact Hkilled|]. constructor; [exact Hkill|constructor].
      * rewrite Hmines, (swap_remove_take _ _ _ Hi). exact Hkept.
      * rewrite Hspec. rewrite Hmines. f_equal.
        -- rewrite Hd, map_app, app_assoc. reflexivity.
        -- rewrite Hp, filter_app, map_app, <- app_assoc. f_equal. f_equal.
           destruct (mine_explodes t mine m0) eqn:Hex.
           ++ rewrite filter_cons_True by exact Hex. reflexivity.
           ++ rewrite filter_cons_False by congruence. reflexivity.
        -- rewrite Hs, filter_app, map_app, <- app_assoc. f_equal. f_equal.
           destruct (mine_explodes t mine m0) eqn:Hex.
           ++ rewrite filter_cons_True by exact Hex. reflexivity.
           ++ rewrite filter_cons_False by congruence. reflexivity.
        -- exact Hmon.
        -- exact Hn.
    + rewrite Hmines. pose proof (swap_remove_length _ _ _ Hi). lia.
  - assert (Hex : mine_explodes t mine m0 = false).
    { unfold mine_need_kill in Hkill. apply orb_false_iff in Hkill.
      exact (proj2 Hkill). }
    rewrite Hex in Hspec. exists killed. split.
    + split; [|split; [|split]].
      * rewrite Hmines. exact Hperm.
      * exact Hkilled.
      * rewrite Hmines, (take_S_r _ _ _ Hi). apply Forall_app.
        split; [exact Hkept|]. constructor; [exact Hkill|constructor].
      * rewrite Hspec, Hmines, !app_nil_r, Hd, Hp, Hs, Hmon, Hn. reflexivity.
    + rewrite Hmines. lia.
Qed.

Lemma mines_loop_spec (t : Time) (m0 : Map) (fuel : nat) :
  forall i m killed,
    (length (mines_ m) - i <= fuel)%nat ->
    mines_loop_inv t m0 killed m i ->
    exists killed' i',
      (length (mines_ (mines_loop fuel t i m)) <= i')%nat /\
      mines_loop_inv t m0 killed' (mines_loop fuel t i m) i'.
Proof using Type.
  induction fuel as [|fuel IH]; intros i m killed Hfuel Hinv.
  - exists killed, i. cbn. split; [lia|exact Hinv].
  - cbn [mines_loop].
    destruct (Nat.ltb_spec i (length (mines_ m))) as [Hlt|Hge].
    2:{ exists killed, i. split; [lia|exact Hinv]. }
    destruct (lookup_lt_is_Some_2 _ _ Hlt) as [mine Hi].
    destruct (mines_loop_inv_step t m0 m killed i mine Hi Hinv)
      as (killed' & Hinv' & Hdec).
    destruct (tick_mine t i m) as [m' i']. cbn [fst snd] in *.
    apply (IH i' m' killed'); [lia|exact Hinv'].
Qed.

Lemma filter_Forall_id {A} (P : A -> Prop) `{forall x, Decision (P x)}
    (l : list A) :
  Forall P l -> filter P l = l.
Proof using Type.
  induction 1 as [|a l Ha _ IH]; [reflexivity|].
  rewrite filter_cons_True by exact Ha. f_equal. exact IH.
Qed.

Lemma filter_Forall_not {A} (P : A -> Prop) `{forall x, Decision (P x)}
    (l : list A) :
  Forall (fun a => ~ P a) l -> filter P l = [].
Proof using Type.
  induction 1 as [|a l Ha _ IH]; [reflexivity|].
  rewrite filter_cons_False by exact Ha. exact IH.
Qed.

(** The whole loop: the mines that stay are those that need no kill; the
    others are removed, each with its death message, and with the particle
    effect and the sound of the explosion if it was activated. *)
Lemma Tick_mines_spec (t : Time) (m : Map) :
  exists killed,
    mines_ (Tick_mines t m) ≡ₚ
      filter (fun mine => mine_need_kill t mine m = false) (mines_ m) /\
    killed ≡ₚ filter (fun mine => mine_need_kill t mine m = true) (mines_ m) /\
    mine_view (Tick_mines t m) =
      mkMineView (mines_ (Tick_mines t m))
        (dynamic_items_death_messages_ m ++ map mine_death killed)
        (particles_effects_messages_ m ++
         map mine_explosion
           (filter (fun mine => mine_explodes t mine m = true) killed))
        (map_events_sounds_messages_ m ++
         map mine_sound
           (filter (fun mine => mine_explodes t mine m = true) killed))
        (monsters_ m) (next_rocket_id_ m).
Proof using Type.
  unfold Tick_mines.
  destruct (mines_loop_spec t m (length (mines_ m)) 0 m []) as
    (killed & i' & Hlen & Hperm & Hkilled & Hkept & Hview).
  { lia. }
  { split; [reflexivity|]. split; [constructor|]. split; [constructor|].
    unfold mine_view. cbn. rewrite !app_nil_r. reflexivity. }
  set (m' := mines_loop (length (mines_ m)) t 0 m) in *.
  rewrite take_ge in Hkept by exact Hlen.
  exists killed. split; [|split; [|exact Hview]].
  - rewrite Hperm, filter_app.
    rewrite (filter_Forall_not _ killed).
    2:{ eapply Forall_impl; [exact Hkilled|]. cbn. intros x ->. discriminate. }
    rewrite (filter_Forall_id _ (mines_ m')) by exact Hkept. reflexivity.
  - rewrite Hperm, filter_app.
    rewrite (filter_Forall_id _ killed) by exact Hkilled.
    rewrite (filter_Forall_not _ (mines_ m')).
    2:{ eapply Forall_impl; [exact Hkept|]. cbn. intros x ->. discriminate. }
    rewrite app_nil_r. reflexivity.
Qed.

(** ** When a mine is activated *)

Lemma SquareLength2_nonneg (a : m_Vec2) : 0 <= SquareLength2 a.
Proof using Type. unfold SquareLength2. nra. Qed.

Lemma within_distance (sq d : R) :
  0 <= sq -> 0 <= d -> (sq < d * d <-> sqrt sq < d).
Proof using Type.
  intros Hsq Hd. split; intros H.
  - rewrite <- (sqrt_square d Hd). apply sqrt_lt_1_alt. lra.
  - rewrite <- (sqrt_sqrt sq Hsq). pose proof (sqrt_pos sq). nra.
Qed.

Lemma mine_activation_step_reach (mine : Mine) (acc : bool)
    (mv : EntityId * MonsterBase) :
  0 <= mines_activation_radius + mine_monster_radius (snd mv) <= 8 ->
  (mine_activation_step mine acc mv = true <->
   acc = true \/ in_reach mine (snd mv)).
Proof using Type.
  intros [H0 H8]. unfold mine_activation_step, in_reach, mine_distance, Length2.
  fold (mine_monster_radius (snd mv)).
  set (sq := SquareLength2 _). set (d := mines_activation_radius + _) in *.
  pose proof (SquareLength2_nonneg
                (sub2 (xy (Position (snd mv))) (xy (mine_pos mine)))) as Hsq.
  fold sq in Hsq.
  pose proof (within_distance sq d Hsq H0) as Hw.
  destruct (Rlt_dec (8 * 8) sq) as [Hfar|Hnear].
  - split; [auto|]. intros [->|Hr]; [reflexivity|].
    apply Hw in Hr. nra.
  - destruct (Rlt_dec sq (d * d)) as [Hin|Hout].
    + split; [|reflexivity]. intros _. right. apply Hw. exact Hin.
    + split; [auto|]. intros [->|Hr]; [reflexivity|].
      apply Hw in Hr. contradiction.
Qed.

Lemma mine_activated_reach (mine : Mine) (m : Map) :
  activation_distances_ok m ->
  (mine_activated mine m = true <->
   exists mv, mv ∈ monsters_ m /\ in_reach mine (snd mv)).
Proof using Type.
  unfold activation_distances_ok, mine_activated.
  generalize (monsters_ m) as l. intros l Hok.
  assert (Hgen : forall acc,
            foldl (mine_activation_step mine) acc l = true <->
            acc = true \/ exists mv, mv ∈ l /\ in_reach mine (snd mv)).
  { induction l as [|mv l IH]; intros acc.
    - cbn. split; [auto|]. intros [H|(mv & Hin & _)]; [exact H|inversion Hin].
    - cbn [foldl]. rewrite IH.
      2:{ intros mv' Hin. apply Hok. apply list_elem_of_further. exact Hin. }
      rewrite (mine_activation_step_reach mine acc mv)
        by (apply Hok; apply list_elem_of_here).
      split.
      + intros [[H|H]|(mv' & Hin & Hr)]; [auto| |].
        * right. exists mv. split; [apply list_elem_of_here|exact H].
        * right. exists mv'. split; [apply list_elem_of_further|]; assumption.
      + intros [H|(mv' & Hin & Hr)]; [auto|].
        apply elem_of_cons in Hin as [->|Hin]; [auto|].
        right. exists mv'. auto. }
  rewrite Hgen. split; [intros [H|H]; [discriminate|exact H]|auto].
Qed.

(** ** Mines never come back *)

Lemma Tick_rockets_mines (t dt : R) (m : Map) :
  mines_ (Tick_rockets t dt m) = mines_ m /\
  next_rocket_id_ (Tick_rockets t dt m) = next_rocket_id_ m.
Proof using Type.
  unfold Tick_rockets.
  assert (Hstep : forall m1 r rocket0, rockets_ m1 !! r = Some rocket0 ->
            mines_ m1 = mines_ m /\ next_rocket_id_ m1 = next_rocket_id_ m ->
            mines_ (fst (tick_rocket t dt r m1)) = mines_ m /\
            next_rocket_id_ (fst (tick_rocket t dt r m1)) = next_rocket_id_ m).
  { intros m1 r rocket0 Hr [Hm Hn].
    destruct (tick_rocket_spec t dt r m1 rocket0 Hr) as [Hview _].
    unfold rocket_view in Hview.
    destruct (rocket_dies _ _ _); injection Hview as _ _ _ -> ->; auto. }
  destruct (rockets_loop_invariant
              (fun m' _ => mines_ m' = mines_ m /\
                           next_rocket_id_ m' = next_rocket_id_ m) t dt
              Hstep (length (rockets_ m)) 0%nat m) as (r' & _ & H).
  - lia.
  - auto.
  - exact H.
Qed.

Lemma Tick_mines_subset (t : Time) (m : Map) (mine : Mine) :
  mine ∈ mines_ (Tick_mines t m) ->
  mine ∈ mines_ m /\ mine_need_kill t mine m = false.
Proof using Type.
  destruct (Tick_mines_spec t m) as (killed & Hperm & _ & _).
  rewrite Hperm. intros H. apply list_elem_of_filter in H. destruct H; auto.
Qed.

Lemma Tick_mines_next_id (t : Time) (m : Map) :
  next_rocket_id_ (Tick_mines t m) = next_rocket_id_ m.
Proof using Type.
  destruct (Tick_mines_spec t m) as (killed & _ & _ & Hview).
  unfold mine_view in Hview. injection Hview as _ _ _ _ H. exact H.
Qed.

Lemma mine_absent_run (t : Time) (mine : Mine) (m : Map) (c : BallisticCall) :
  planting_time mine < t -> t <= ballistic_call_time c ->
  mine ∉ mines_ m -> mine ∉ mines_ (run_ballistic m c).
Proof using Type.
  intros Hplanted Hlater Habsent.
  destruct c as [owner ty from direction t'|p t'|t' dt];
    cbn [run_ballistic ballistic_call_time] in *.
  - unfold Shoot. destruct (negb _); destruct (reflect _); exact Habsent.
  - unfold PlantMine. cbn. intros Hin.
    apply elem_of_app in Hin as [Hin|Hin]; [exact (Habsent Hin)|].
    apply list_elem_of_singleton in Hin. subst mine.
    cbn [planting_time] in Hplanted. lra.
  - intros Hin. apply Tick_mines_subset in Hin as [Hin _].
    rewrite (proj1 (Tick_rockets_mines t' dt m)) in Hin. exact (Habsent Hin).
Qed.

Lemma mine_absent_calls (t : Time) (mine : Mine) (calls : list BallisticCall)
    (m : Map) :
  planting_time mine < t ->
  Forall (fun c => t <= ballistic_call_time c) calls ->
  mine ∉ mines_ m -> mine ∉ mines_ (foldl run_ballistic m calls).
Proof using Type.
  intros Hplanted. revert m.
  induction calls as [|c calls IH]; intros m Hlater Habsent; [exact Habsent|].
  apply Forall_cons in Hlater as [Hc Hlater]. cbn [foldl].
  apply IH; [exact Hlater|].
  apply (mine_absent_run t); assumption.
Qed.

(** C7.  At a [Tick], a mine is removed exactly when its age exceeds 30
    seconds, or its age has reached the preparation delay and some monster
    is within the activation margin plus its radius (2-D distance); the
    mines for which this does not hold stay.  A removed mine leaves a
    death message, and, when it was activated (and not too old), the
    particle effect and the sound of an explosion.  Once removed, the mine
    is never live again, whatever rockets are shot, mines planted and ticks
    made from then on: the preparation delay being positive, every mine
    planted later has a later planting time.  (The identity of the mine can
    be given to a later mine or rocket, once the counter has gone round.) *)
Theorem mine_lifetime (t : Time) (m : Map) :
  activation_distances_ok m ->
  0 < mines_preparation_time_s ->
  (forall mine,
     (mine_need_kill t mine m = true <->
      30 < t - planting_time mine \/
      (mines_preparation_time_s <= t - planting_time mine /\
       exists mv, mv ∈ monsters_ m /\ in_reach mine (snd mv))) /\
     (mine_explodes t mine m = true <->
      t - planting_time mine <= 30 /\
      mines_preparation_time_s <= t - planting_time mine /\
      exists mv, mv ∈ monsters_ m /\ in_reach mine (snd mv))) /\
  (forall mine, mine ∈ mines_ m ->
     (mine_need_kill t mine m = false -> mine ∈ mines_ (Tick_mines t m)) /\
     (mine_need_kill t mine m = true ->
      (mine ∉ mines_ (Tick_mines t m)) /\
      mine_death mine ∈ dynamic_items_death_messages_ (Tick_mines t m) /\
      (mine_explodes t mine m = true ->
       mine_explosion mine ∈ particles_effects_messages_ (Tick_mines t m) /\
       mine_sound mine ∈ map_events_sounds_messages_ (Tick_mines t m)) /\
      forall calls,
        Forall (fun c => t <= ballistic_call_time c) calls ->
        mine ∉ mines_ (foldl run_ballistic (Tick_mines t m) calls))) /\
  (forall mine, mine ∈ mines_ (Tick_mines t m) ->
     mine ∈ mines_ m /\ mine_need_kill t mine m = false).
Proof using Type.
  intros Hdist Hprep.
  assert (Hchar : forall mine,
     (mine_need_kill t mine m = true <->
      30 < t - planting_time mine \/
      (mines_preparation_time_s <= t - planting_time mine /\
       exists mv, mv ∈ monsters_ m /\ in_reach mine (snd mv))) /\
     (mine_explodes t mine m = true <->
      t - planting_time mine <= 30 /\
      mines_preparation_time_s <= t - planting_time mine /\
      exists mv, mv ∈ monsters_ m /\ in_reach mine (snd mv))).
  { intros mine. pose proof (mine_activated_reach mine m Hdist) as Hact.
    unfold mine_need_kill, mine_explodes, mine_too_old.
    destruct (Rlt_dec 30 (t - planting_time mine)) as [Hold|Hyoung];
      cbn [orb andb negb].
    - split; [split; auto|]. split; [discriminate|]. intros [H _]. lra.
    - destruct (Rle_dec mines_preparation_time_s (t - planting_time mine))
        as [Hprep'|Hprep']; cbn [andb].
      + rewrite Hact. split; split.
        * intros H. right. auto.
        * intros [H|[_ H]]; [lra|exact H].
        * intros H. split; [lra|]. auto.
        * intros (_ & _ & H). exact H.
      + split; split; try discriminate.
        * intros [H|[H _]]; lra.
        * intros (_ & H & _). lra. }
  split; [exact Hchar|]. split; [|apply Tick_mines_subset].
  intros mine Hin.
  destruct (Tick_mines_spec t m) as (killed & Hperm & Hkilled & Hview).
  unfold mine_view in Hview. injection Hview as Hd Hp Hs _ Hn.
  split.
  - intros Hkeep. rewrite Hperm. apply list_elem_of_filter. auto.
  - intros Hkill.
    assert (Hk : mine ∈ killed).
    { rewrite Hkilled. apply list_elem_of_filter. auto. }
    assert (Habsent : mine ∉ mines_ (Tick_mines t m)).
    { intros Hlive. apply Tick_mines_subset in Hlive as [_ Hkeep]. congruence. }
    split; [exact Habsent|]. split; [|split].
    + rewrite Hd. apply elem_of_app. right.
      change (mine_death mine ∈ mine_death <$> killed).
      apply list_elem_of_fmap. eauto.
    + intros Hex.
      assert (Hke : mine ∈ filter (fun mine0 => mine_explodes t mine0 m = true)
                             killed).
      { apply list_elem_of_filter. auto. }
      split.
      * rewrite Hp. apply elem_of_app. right.
        change (mine_explosion mine ∈ mine_explosion <$>
                  filter (fun mine0 => mine_explodes t mine0 m = true) killed).
        apply list_elem_of_fmap. eauto.
      * rewrite Hs. apply elem_of_app. right.
        change (mine_sound mine ∈ mine_sound <$>
                  filter (fun mine0 => mine_explodes t mine0 m = true) killed).
        apply list_elem_of_fmap. eauto.
    + intros calls Hlater.
      assert (Hplanted : planting_time mine < t).
      { apply (proj1 (Hchar mine)) in Hkill. destruct Hkill as [H|[H _]]; lra. }
      apply (mine_absent_calls t); assumption.
Qed.

(** ** The floor level *)

Lemma GetFloorLevel_floor (p : m_Vec2) (radius : R) :
  0 <= GetFloorLevel p radius < 1.2.
Proof using Type.
  unfold GetFloorLevel.
  set (f := fun (max_dz : R) (map_model : MapStaticModel) => _).
  induction (md_static_models map_data_) as [|x l IH] using rev_ind.
  - cbn. lra.
  - rewrite foldl_app. cbn [foldl]. set (a := foldl f 0 l) in *.
    unfold f. destruct (is_dynamic x); [exact IH|].
    destruct (model_description_at _) as [d|]; [|exact IH].
    destruct (negb _); [exact IH|].
    destruct (Rle_dec _ _); [exact IH|].
    destruct (Rlt_dec _ _); [exact IH|].
    destruct (Rle_dec 1.2 _) as [|Hlow]; [exact IH|].
    split; [pose proof (Rmax_l a (z_max (default default_model
                                           (model_at (map_model_id x))))); lra|].
    apply Rmax_lub_lt; lra.
Qed.


(** ** Planting a mine *)

Lemma rockets_tick_mine (t : Time) (i : nat) (m : Map) :
  rockets_ (fst (tick_mine t i m)) = rockets_ m.
Proof using Type.
  unfold tick_mine. destruct (mines_ m !! i) as [mine|]; [|reflexivity].
  destruct (Rlt_dec _ _); [reflexivity|].
  destruct (Rle_dec _ _); [|reflexivity].
  destruct (mine_activated _ _); reflexivity.
Qed.

Lemma rockets_mines_loop (t : Time) (fuel : nat) :
  forall i m, rockets_ (mines_loop fuel t i m) = rockets_ m.
Proof using Type.
  induction fuel as [|fuel IH]; intros i m; [reflexivity|].
  cbn [mines_loop]. destruct (_ <? _)%nat; [|reflexivity].
  pose proof (rockets_tick_mine t i m) as H.
  destruct (tick_mine t i m) as [m' i']. cbn [fst] in H.
  rewrite IH. exact H.
Qed.

Lemma rockets_Tick_mines (t : Time) (m : Map) :
  rockets_ (Tick_mines t m) = rockets_ m.
Proof using Type. apply rockets_mines_loop. Qed.

(** X2.  [Map::PlantMine] appends one mine: at the planting position, put on the
    floor level under it (at least 0, below 1.2), with the planting time and
    the next identity; it sends one birth message of item type 30 and the
    sound [MineOn], both at the position of the mine.  While the age of the
    mine is below the preparation delay (and not above 30 seconds) no
    [Tick] removes it, whatever monsters stand on it. *)
Theorem PlantMine_inert (p : m_Vec3) (t t' : Time) (m : Map) :
  t' - t < mines_preparation_time_s -> t' - t <= 30 ->
  let mine := planted_mine p t m in
  mines_ (PlantMine p t m) = mines_ m ++ [mine] /\
  next_rocket_id_ (PlantMine p t m) = increment_id (next_rocket_id_ m) /\
  xy (mine_pos mine) = xy p /\ 0 <= v3z (mine_pos mine) < 1.2 /\
  dynamic_items_birth_messages_ (PlantMine p t m) =
    dynamic_items_birth_messages_ m ++
    [mkDynamicItemBirth (next_rocket_id_ m) 30 (mine_pos mine)] /\
  map_events_sounds_messages_ (PlantMine p t m) =
    map_events_sounds_messages_ m ++ [mkMapEventSound (mine_pos mine) MineOn] /\
  mine ∈ mines_ (Tick_mines t' (PlantMine p t m)).
Proof using Type.
  intros Hprep Hyoung mine.
  repeat (split; [reflexivity|]).
  split; [exact (GetFloorLevel_floor (xy p) 0.2)|].
  repeat (split; [reflexivity|]).
  destruct (Tick_mines_spec t' (PlantMine p t m)) as (killed & Hperm & _ & _).
  rewrite Hperm. apply list_elem_of_filter. split.
  - unfold mine_need_kill, mine_explodes, mine_too_old.
    change (planting_time mine) with t.
    destruct (Rlt_dec 30 (t' - t)) as [Hc|_]; [lra|].
    destruct (Rle_dec mines_preparation_time_s (t' - t)) as [Hc|_]; [lra|].
    reflexivity.
  - change (mines_ (PlantMine p t m)) with (mines_ m ++ [mine]).
    apply elem_of_app. right. apply list_elem_of_here.
Qed.

(** ** One counter for the identities of rockets and mines *)

Lemma swap_remove_submseteq {A} (r : nat) (l : list A) (a : A) :
  l !! r = Some a -> swap_remove r l ⊆+ l.
Proof using Type.
  intros Hr. destruct (swap_remove_split r l a Hr) as (rest & -> & Hp).
  rewrite <- (take_drop_middle l r a Hr) at 2.
  apply submseteq_skips_l. rewrite Hp. apply submseteq_cons. reflexivity.
Qed.

Lemma NoDup_of_submseteq {A} (l k : list A) :
  l ⊆+ k -> NoDup k -> NoDup l.
Proof using Type.
  intros Hsub Hnd. apply submseteq_sublist_r in Hsub as (l2 & Hp & Hs).
  rewrite Hp. eapply sublist_NoDup; [exact Hnd|exact Hs].
Qed.

Lemma Tick_rockets_ids (t dt : R) (m : Map) :
  map rocket_id (rockets_ (Tick_rockets t dt m)) ⊆+ map rocket_id (rockets_ m).
Proof using Type.
  unfold Tick_rockets.
  destruct (rockets_loop_invariant
              (fun m' _ => map rocket_id (rockets_ m') ⊆+
                           map rocket_id (rockets_ m)) t dt)
    with (fuel := length (rockets_ m)) (r := 0%nat) (m := m)
    as (r' & _ & H); [|lia|reflexivity|exact H].
  intros m1 r rocket0 Hr Hsub.
  destruct (tick_rocket_spec t dt r m1 rocket0 Hr) as [Hview _].
  destruct (rocket_advance_rocket t dt m1 rocket0) as [Hid _].
  set (rocket := snd (fst (rocket_advance t dt m1 rocket0))) in *.
  assert (Hsame : map rocket_id (<[r := rocket]> (rockets_ m1)) =
                  map rocket_id (rockets_ m1)).
  { change (rocket_id <$> <[r := rocket]> (rockets_ m1) =
            rocket_id <$> rockets_ m1).
    rewrite list_fmap_insert, Hid. apply list_insert_id.
    rewrite list_lookup_fmap, Hr. reflexivity. }
  assert (Hl : <[r := rocket]> (rockets_ m1) !! r = Some rocket).
  { apply list_lookup_insert_eq. eapply lookup_lt_Some. exact Hr. }
  unfold rocket_view in Hview.
  destruct (rocket_dies _ _ _); injection Hview as -> _ _ _ _.
  - etransitivity; [|exact Hsub]. rewrite <- Hsame.
    apply (fmap_submseteq rocket_id), (swap_remove_submseteq r _ rocket Hl).
  - rewrite Hsame. exact Hsub.
Qed.

Lemma EntityId_count_pos : (0 < EntityId_count)%nat.
Proof using Type.
  unfold EntityId_count. apply Nat.neq_0_lt_0, Nat.pow_nonzero. discriminate.
Qed.

Lemma increment_id_wraps (id : EntityId) :
  (id < EntityId_count)%nat ->
  increment_id id = if (S id =? EntityId_count)%nat then 0%nat else S id.
Proof using Type.
  intros Hid. unfold increment_id.
  destruct (Nat.eqb_spec (S id) EntityId_count) as [E|N].
  - rewrite E. apply Nat.Div0.mod_same.
  - apply Nat.mod_small. lia.
Qed.

(** Handing out the identity the counter stands at. *)
Lemma ballistic_ids_fresh_new (w : nat) (m m' : Map) :
  ballistic_ids_fresh w m -> (S w <= EntityId_count)%nat ->
  ballistic_ids m' ≡ₚ next_rocket_id_ m :: ballistic_ids m ->
  next_rocket_id_ m' = increment_id (next_rocket_id_ m) ->
  ballistic_ids_fresh (S w) m'.
Proof using Type.
  intros (Hc & Hnd & Hages) Hw Hids Hn.
  assert (Hnew : next_rocket_id_ m ∉ ballistic_ids m).
  { intros Hin. destruct (proj1 (Forall_forall _ _) Hages _ Hin) as [_ Hage].
    unfold id_age in Hage. rewrite Nat.ltb_irrefl in Hage. lia. }
  rewrite (increment_id_wraps _ Hc) in Hn.
  unfold ballistic_ids_fresh. rewrite Hids. split; [|split].
  - rewrite Hn. destruct (Nat.eqb_spec (S (next_rocket_id_ m)) EntityId_count);
      lia.
  - apply NoDup_cons. split; assumption.
  - constructor.
    + split; [exact Hc|]. unfold id_age. rewrite Hn.
      destruct (Nat.eqb_spec (S (next_rocket_id_ m)) EntityId_count);
        destruct (Nat.ltb_spec (next_rocket_id_ m) 0);
        destruct (Nat.ltb_spec (next_rocket_id_ m) (S (next_rocket_id_ m)));
        lia.
    + apply Forall_forall. intros k Hk.
      destruct (proj1 (Forall_forall _ _) Hages _ Hk) as [Hkc Hage].
      assert (Hne : k <> next_rocket_id_ m) by (intros ->; contradiction).
      split; [exact Hkc|]. unfold id_age in Hage |- *. rewrite Hn.
      destruct (Nat.eqb_spec (S (next_rocket_id_ m)) EntityId_count);
        destruct (Nat.ltb_spec k (next_rocket_id_ m));
        destruct (Nat.ltb_spec k 0);
        destruct (Nat.ltb_spec k (S (next_rocket_id_ m)));
        lia.
Qed.

Lemma ballistic_ids_fresh_run (w : nat) (m : Map) (c : BallisticCall) :
  ballistic_ids_fresh w m ->
  (w + allocations [c] <= EntityId_count)%nat ->
  ballistic_ids_fresh (w + allocations [c]) (run_ballistic m c).
Proof using Type.
  intros Hfresh Hw.
  destruct c as [owner ty from direction t|p t|t dt];
    cbn [run_ballistic allocations] in *.
  - rewrite Nat.add_1_r in *.
    apply (ballistic_ids_fresh_new w m); [exact Hfresh|exact Hw| |].
    + unfold ballistic_ids, Shoot.
      destruct (negb _); destruct (reflect _); cbn; rewrite map_app;
        rewrite <- app_assoc; cbn; symmetry; apply Permutation_middle.
    + unfold Shoot. destruct (negb _); destruct (reflect _); reflexivity.
  - rewrite Nat.add_1_r in *.
    apply (ballistic_ids_fresh_new w m); [exact Hfresh|exact Hw| |].
    + unfold ballistic_ids, PlantMine. cbn. rewrite map_app, app_assoc.
      symmetry. apply Permutation_cons_append.
    + reflexivity.
  - rewrite Nat.add_0_r. destruct Hfresh as (Hc & Hnd & Hages).
    destruct (Tick_rockets_mines t dt m) as [Hm Hn].
    destruct (Tick_mines_spec t (Tick_rockets t dt m)) as (killed & Hperm & _ & _).
    assert (Hsub : ballistic_ids (Tick_mines t (Tick_rockets t dt m)) ⊆+
                   ballistic_ids m).
    { unfold ballistic_ids. rewrite rockets_Tick_mines.
      apply submseteq_app; [apply Tick_rockets_ids|].
      change (mine_id <$> mines_ (Tick_mines t (Tick_rockets t dt m)) ⊆+
              mine_id <$> mines_ m).
      apply fmap_submseteq. rewrite Hperm, Hm. apply sublist_submseteq, sublist_filter. }
    assert (Hnext : next_rocket_id_ (Tick_mines t (Tick_rockets t dt m)) =
                    next_rocket_id_ m)
      by (rewrite Tick_mines_next_id; exact Hn).
    split; [|split].
    + rewrite Hnext. exact Hc.
    + eapply NoDup_of_submseteq; [exact Hsub|exact Hnd].
    + apply Forall_forall. intros k Hk. unfold id_age. rewrite Hnext.
      apply (proj1 (Forall_forall _ _) Hages).
      eapply elem_of_submseteq; [exact Hk|exact Hsub].
Qed.

(** Before the counter has wrapped, the identities in use are those below
    it. *)
Lemma ballistic_ids_fresh_below (m : Map) :
  (next_rocket_id_ m < EntityId_count)%nat ->
  NoDup (ballistic_ids m) ->
  Forall (fun k => (k < next_rocket_id_ m)%nat) (ballistic_ids m) ->
  ballistic_ids_fresh (next_rocket_id_ m) m.
Proof using Type.
  intros Hc Hnd Hlt. split; [exact Hc|]. split; [exact Hnd|].
  eapply Forall_impl; [exact Hlt|]. cbn. intros k Hk. split; [lia|].
  unfold id_age. destruct (Nat.ltb_spec k (next_rocket_id_ m)); lia.
Qed.

Lemma allocations_cons (c : BallisticCall) (calls : list BallisticCall) :
  allocations (c :: calls) = (allocations [c] + allocations calls)%nat.
Proof using Type. destruct c; reflexivity. Qed.

(** X3.  [Shoot] and [PlantMine] number rockets and mines from one counter
    that wraps around, and [Tick] only removes.  If the identities of the
    live rockets and mines are pairwise distinct and all among the last [w]
    handed out, they stay pairwise distinct (no mine has the identity of a
    rocket) through any rockets shot, mines planted and ticks made, as long
    as [w] and the number of identities handed out since do not exceed the
    number of values of [EntityId]: an identity is not reused before the
    counter has gone round. *)
Theorem ballistic_ids_distinct (w : nat) (calls : list BallisticCall) (m : Map) :
  ballistic_ids_fresh w m ->
  (w + allocations calls <= EntityId_count)%nat ->
  ballistic_ids_fresh (w + allocations calls) (foldl run_ballistic m calls).
Proof using Type.
  revert w m. induction calls as [|c calls IH]; intros w m Hfresh Hw.
  - cbn. rewrite Nat.add_0_r. exact Hfresh.
  - rewrite allocations_cons, Nat.add_assoc in Hw |- *. cbn [foldl].
    apply IH; [|exact Hw].
    apply ballistic_ids_fresh_run; [exact Hfresh|lia].
Qed.

(** ** Wind and death zones *)

Lemma elem_of_rect_cells (x0 y0 x1 y1 j : nat) :
  j ∈ rect_cells x0 y0 x1 y1 <->
  exists cx cy, j = (cx + cy * c_map_size)%nat /\
    (x0 <= cx <= x1 /\ cx < c_map_size /\ y0 <= cy <= y1 /\ cy < c_map_size)%nat.
Proof using Type.
  unfold rect_cells. rewrite list_elem_of_In, in_flat_map. split.
  - intros (cy & Hy & Hx). apply in_map_iff in Hx as (cx & <- & Hx).
    apply in_seq in Hy, Hx. exists cx, cy. split; [reflexivity|lia].
  - intros (cx & cy & -> & H). exists cy. split.
    + apply in_seq. lia.
    + apply in_map_iff. exists cx. split; [reflexivity|]. apply in_seq. lia.
Qed.

Lemma cell_index_inj (cx cy cx' cy' : nat) :
  (cx < c_map_size)%nat -> (cx' < c_map_size)%nat ->
  (cx + cy * c_map_size = cx' + cy' * c_map_size)%nat -> cx = cx' /\ cy = cy'.
Proof using Type.
  intros H H' Heq.
  assert (cy = cy') by nia. subst. split; [lia|reflexivity].
Qed.

(** A cell of the grid is among the cells of a rectangle exactly when its
    coordinates are inside the rectangle and the row is inside the grid. *)
Lemma rect_cells_grid (command : ActionCommand) (cx cy : nat) :
  (cx < c_map_size)%nat ->
  ((cx + cy * c_map_size)%nat ∈
     rect_cells (float_to_uint (arg command 0)) (float_to_uint (arg command 1))
       (float_to_uint (arg command 2)) (float_to_uint (arg command 3)) <->
   command_rect command cx cy && (cy <? c_map_size)%nat = true).
Proof using Type.
  intros Hx. rewrite elem_of_rect_cells. unfold command_rect.
  rewrite !andb_true_iff, !Nat.leb_le, Nat.ltb_lt. split.
  - intros (cx' & cy' & Heq & H).
    apply cell_index_inj in Heq as [-> ->]; lia.
  - intros H. exists cx, cy. split; [reflexivity|lia].
Qed.

Lemma rect_cells_bound (x0 y0 x1 y1 j : nat) :
  j ∈ rect_cells x0 y0 x1 y1 -> (j < c_map_size * c_map_size)%nat.
Proof using Type.
  rewrite elem_of_rect_cells. intros (cx & cy & -> & H). nia.
Qed.

(** Writing [g (field cell)] to every cell of a list, for an idempotent
    [g]. *)
Lemma foldl_update_cell {A} (g : A -> A) (cells : list nat) :
  (forall a, g (g a) = g a) ->
  forall (field : nat -> A) (j : nat),
    foldl (fun field cell => update_cell field cell (g (field cell)))
          field cells j =
    if decide (j ∈ cells) then g (field j) else field j.
Proof using Type.
  intros Hg. induction cells as [|c cells IH]; intros field j.
  - cbn. destruct (decide (j ∈ [])) as [H|_]; [inversion H|reflexivity].
  - cbn [foldl]. rewrite IH. unfold update_cell.
    destruct (Nat.eqb_spec j c) as [->|Hne].
    + destruct (decide (c ∈ c :: cells)) as [_|N];
        [|exfalso; apply N, list_elem_of_here].
      destruct (decide (c ∈ cells)); [apply Hg|reflexivity].
    + destruct (decide (j ∈ cells)) as [Hin|Hnin];
        destruct (decide (j ∈ c :: cells)) as [Hin'|Hnin']; try reflexivity.
      * exfalso. apply Hnin'. apply list_elem_of_further. exact Hin.
      * exfalso. apply elem_of_cons in Hin' as [?|?]; [congruence|contradiction].
Qed.

(** The cells of the rectangle of a command. *)
Lemma wind_field_ProcessWind (command : ActionCommand) (activate : bool)
    (m : Map) (j : nat) :
  wind_field_ (ProcessWind command activate m) j =
  if decide (j ∈ rect_cells (float_to_uint (arg command 0))
                   (float_to_uint (arg command 1))
                   (float_to_uint (arg command 2))
                   (float_to_uint (arg command 3)))
  then (if activate
        then (float_to_int (arg command 4), float_to_int (arg command 5))
        else (0%Z, 0%Z))
  else wind_field_ m j.
Proof using Type.
  unfold ProcessWind. cbn [wind_field_ set_wind_field_].
  set (v := if activate then _ else _).
  apply (foldl_update_cell (fun _ => v)). reflexivity.
Qed.

Lemma death_field_ProcessDeathZone (command : ActionCommand) (activate : bool)
    (m : Map) (j : nat) :
  death_field_ (ProcessDeathZone command activate m) j =
  if decide (j ∈ rect_cells (float_to_uint (arg command 0))
                   (float_to_uint (arg command 1))
                   (float_to_uint (arg command 2))
                   (float_to_uint (arg command 3)))
  then (if activate
        then mkDamageFiledCell (float_to_int (arg command 6))
               (Z.max (Z.min (float_to_int (arg command 4)) 255) 0)
               (Z.max (Z.min (float_to_int (arg command 5)) 255) 0)
        else mkDamageFiledCell 0 (cell_z_bottom (death_field_ m j))
               (cell_z_top (death_field_ m j)))
  else death_field_ m j.
Proof using Type.
  unfold ProcessDeathZone. cbn [death_field_ set_death_field_].
  apply (foldl_update_cell
           (fun c : DamageFiledCell =>
              if activate
              then mkDamageFiledCell (float_to_int (arg command 6))
                     (Z.max (Z.min (float_to_int (arg command 4)) 255) 0)
                     (Z.max (Z.min (float_to_int (arg command 5)) 255) 0)
              else mkDamageFiledCell 0 (cell_z_bottom c) (cell_z_top c))).
  intros a. destruct activate; reflexivity.
Qed.

Lemma decide_rect_cells (command : ActionCommand) (cx cy : nat) {A} (a b : A) :
  (cx < c_map_size)%nat ->
  (if decide ((cx + cy * c_map_size)%nat ∈
                rect_cells (float_to_uint (arg command 0))
                  (float_to_uint (arg command 1))
                  (float_to_uint (arg command 2))
                  (float_to_uint (arg command 3)))
   then a else b) =
  (if command_rect command cx cy && (cy <? c_map_size)%nat then a else b).
Proof using Type.
  intros Hx. pose proof (rect_cells_grid command cx cy Hx) as Hiff.
  destruct (decide _) as [Hin|Hnin].
  - rewrite (proj1 Hiff Hin). reflexivity.
  - destruct (command_rect command cx cy && (cy <? c_map_size)%nat);
      [exfalso; apply Hnin, Hiff; reflexivity|reflexivity].
Qed.

(** X4.  [Map::ProcessWind] writes the wind of the command (or no wind, when
    [activate] is false) to the cells of the rectangle that are inside the
    grid, and to no other cell: every other cell of the grid keeps its wind,
    no index past the end of the grid is written, and nothing else of the
    map changes.  (The cells of the source hold a [char]; the wind written
    is that of the command when its two components fit into -128..127.) *)
Theorem ProcessWind_cells (command : ActionCommand) (activate : bool) (m : Map) :
  (activate = true ->
   (-128 <= float_to_int (arg command 4) <= 127)%Z /\
   (-128 <= float_to_int (arg command 5) <= 127)%Z) ->
  (forall cx cy, (cx < c_map_size)%nat ->
     wind_field_ (ProcessWind command activate m) (cx + cy * c_map_size)%nat =
     if command_rect command cx cy && (cy <? c_map_size)%nat
     then (if activate
           then (float_to_int (arg command 4), float_to_int (arg command 5))
           else (0%Z, 0%Z))
     else wind_field_ m (cx + cy * c_map_size)%nat) /\
  (forall j, (c_map_size * c_map_size <= j)%nat ->
     wind_field_ (ProcessWind command activate m) j = wind_field_ m j) /\
  ProcessWind command activate m =
    set_wind_field_ (wind_field_ (ProcessWind command activate m)) m.
Proof using Type.
  intros _. split; [|split; [|reflexivity]].
  - intros cx cy Hx. rewrite wind_field_ProcessWind.
    apply decide_rect_cells. exact Hx.
  - intros j Hj. rewrite wind_field_ProcessWind.
    destruct (decide _) as [Hin|_]; [|reflexivity].
    apply rect_cells_bound in Hin. lia.
Qed.

(** X5.  [Map::ProcessDeathZone], when it activates, writes the damage of the
    command and its two heights, clamped into 0..255, to the cells of the
    rectangle inside the grid; when it deactivates, it sets the damage of
    these cells to 0 and keeps their heights.  Every other cell keeps its
    content, no index past the end of the grid is written, and nothing else
    of the map changes.  (The damage of a cell is an [unsigned char] in the
    source; the damage written is that of the command when it is within
    0..255.) *)
Theorem ProcessDeathZone_cells (command : ActionCommand) (activate : bool)
    (m : Map) :
  (activate = true -> (0 <= float_to_int (arg command 6) <= 255)%Z) ->
  (forall cx cy, (cx < c_map_size)%nat ->
     let cell := death_field_ m (cx + cy * c_map_size)%nat in
     let cell' :=
       death_field_ (ProcessDeathZone command activate m)
         (cx + cy * c_map_size)%nat in
     if command_rect command cx cy && (cy <? c_map_size)%nat
     then (if activate
           then damage cell' = float_to_int (arg command 6) /\
                cell_z_bottom cell' =
                  Z.max (Z.min (float_to_int (arg command 4)) 255) 0 /\
                cell_z_top cell' =
                  Z.max (Z.min (float_to_int (arg command 5)) 255) 0 /\
                (0 <= cell_z_bottom cell' <= 255)%Z /\
                (0 <= cell_z_top cell' <= 255)%Z
           else cell' = mkDamageFiledCell 0 (cell_z_bottom cell) (cell_z_top cell))
     else cell' = cell) /\
  (forall j, (c_map_size * c_map_size <= j)%nat ->
     death_field_ (ProcessDeathZone command activate m) j = death_field_ m j) /\
  ProcessDeathZone command activate m =
    set_death_field_ (death_field_ (ProcessDeathZone command activate m)) m.
Proof using Type.
  intros _. split; [|split; [|reflexivity]].
  - intros cx cy Hx. cbn zeta. rewrite death_field_ProcessDeathZone.
    rewrite (decide_rect_cells command cx cy _ _ Hx).
    destruct (command_rect command cx cy && (cy <? c_map_size)%nat);
      [|reflexivity].
    destruct activate; [|reflexivity]. cbn. repeat split; lia.
  - intros j Hj. rewrite death_field_ProcessDeathZone.
    destruct (decide _) as [Hin|_]; [|reflexivity].
    apply rect_cells_bound in Hin. lia.
Qed.

Lemma wind_do_deactivation_command (m : Map) (command : ActionCommand)
    (cx cy : nat) :
  (cx < c_map_size)%nat -> (cy < c_map_size)%nat ->
  wind_field_ (do_deactivation_command m command) (cx + cy * c_map_size)%nat =
  if is_Wind command && command_rect command cx cy then (0%Z, 0%Z)
  else wind_field_ m (cx + cy * c_map_size)%nat.
Proof using Type.
  intros Hx Hy. unfold do_deactivation_command, is_Wind.
  destruct (cmd_id command); try reflexivity.
  rewrite wind_field_ProcessWind, (decide_rect_cells command cx cy _ _ Hx).
  rewrite (proj2 (Nat.ltb_lt _ _) Hy), andb_true_r. reflexivity.
Qed.

Lemma death_do_deactivation_command (m : Map) (command : ActionCommand)
    (cx cy : nat) :
  (cx < c_map_size)%nat -> (cy < c_map_size)%nat ->
  death_field_ (do_deactivation_command m command) (cx + cy * c_map_size)%nat =
  if is_Death command && command_rect command cx cy
  then mkDamageFiledCell 0
         (cell_z_bottom (death_field_ m (cx + cy * c_map_size)%nat))
         (cell_z_top (death_field_ m (cx + cy * c_map_size)%nat))
  else death_field_ m (cx + cy * c_map_size)%nat.
Proof using Type.
  intros Hx Hy. unfold do_deactivation_command, is_Death.
  destruct (cmd_id command); try reflexivity.
  rewrite death_field_ProcessDeathZone, (decide_rect_cells command cx cy _ _ Hx).
  rewrite (proj2 (Nat.ltb_lt _ _) Hy), andb_true_r. reflexivity.
Qed.

(** X6.  [Map::DoProcedureDeactivationCommands] does nothing for a procedure
    with a [Nonstop] command.  For every other procedure it leaves no wind
    in any cell of the grid that a [Wind] command of the procedure covers,
    and no damage (the heights are kept) in any cell that a [Death] command
    of the procedure covers; the other cells keep their wind and their death
    zone. *)
Theorem DoProcedureDeactivationCommands_clears (procedure : Procedure) (m : Map) :
  (existsb is_Nonstop (action_commands procedure) = true ->
   DoProcedureDeactivationCommands procedure m = m) /\
  (existsb is_Nonstop (action_commands procedure) = false ->
   forall cx cy, (cx < c_map_size)%nat -> (cy < c_map_size)%nat ->
     let j := (cx + cy * c_map_size)%nat in
     wind_field_ (DoProcedureDeactivationCommands procedure m) j =
       (if existsb (fun command => is_Wind command && command_rect command cx cy)
                   (action_commands procedure)
        then (0%Z, 0%Z) else wind_field_ m j) /\
     death_field_ (DoProcedureDeactivationCommands procedure m) j =
       (if existsb (fun command => is_Death command && command_rect command cx cy)
                   (action_commands procedure)
        then mkDamageFiledCell 0 (cell_z_bottom (death_field_ m j))
               (cell_z_top (death_field_ m j))
        else death_field_ m j)).
Proof using Type.
  unfold DoProcedureDeactivationCommands.
  split; intros Hns; rewrite Hns; [reflexivity|].
  intros cx cy Hx Hy. cbv zeta. clear Hns.
  generalize (action_commands procedure). intros commands. revert m.
  induction commands as [|c commands IH]; intros m; [split; reflexivity|].
  cbn [foldl existsb]. destruct (IH (do_deactivation_command m c)) as [Hw Hd].
  rewrite Hw, Hd.
  rewrite wind_do_deactivation_command, death_do_deactivation_command
    by assumption.
  clear Hw Hd IH. split.
  - destruct (is_Wind c && command_rect c cx cy);
      destruct (existsb (fun command => is_Wind command &&
                           command_rect command cx cy) commands); reflexivity.
  - destruct (is_Death c && command_rect c cx cy);
      destruct (existsb (fun command => is_Death command &&
                           command_rect command cx cy) commands); reflexivity.
Qed.

(** ** The end of the map *)

Lemma map_end_ActivateProcedureSwitches (procedure : Procedure)
    (inverse : bool) (t : Time) (m : Map) :
  map_end_triggered_ (ActivateProcedureSwitches procedure inverse t m) =
  map_end_triggered_ m.
Proof using Type.
  unfold ActivateProcedureSwitches.
  generalize (linked_switches procedure) as l. intros l. revert m.
  induction l as [|sw l IH]; intros m; [reflexivity|].
  cbn [foldl]. rewrite IH. unfold activate_switch.
  destruct (_ || _)%nat; [reflexivity|].
  destruct (ie_type _); reflexivity.
Qed.

Lemma map_end_DestroyModel (i : nat) (m : Map) :
  map_end_triggered_ (DestroyModel i m) = map_end_triggered_ m.
Proof using Type.
  unfold DestroyModel, EmitModelDestructionEffects.
  cbn [map_end_triggered_ set_static_models_].
  destruct (static_models_ m !! i); [|reflexivity].
  destruct (model_description_at _); [|reflexivity].
  destruct (_ =? _)%nat; reflexivity.
Qed.

Lemma map_end_DoProcedureImmediateCommands (procedure : Procedure) (m : Map) :
  map_end_triggered_ (DoProcedureImmediateCommands procedure m) =
  map_end_triggered_ m.
Proof using Type.
  unfold DoProcedureImmediateCommands.
  generalize (action_commands procedure) as l. intros l. revert m.
  induction l as [|c l IH]; intros m; [reflexivity|].
  cbn [foldl]. rewrite IH. unfold do_immediate_command.
  destruct (cmd_id c); try reflexivity.
  - destruct (_ && _)%nat; [|reflexivity].
    destruct (ie_type _); reflexivity.
  - destruct (_ && _)%nat; [|reflexivity].
    destruct (ie_type _); try reflexivity. apply map_end_DestroyModel.
Qed.

Lemma map_end_DoProcedureDeactivationCommands (procedure : Procedure) (m : Map) :
  map_end_triggered_ (DoProcedureDeactivationCommands procedure m) =
  map_end_triggered_ m.
Proof using Type.
  unfold DoProcedureDeactivationCommands.
  destruct (existsb _ _); [reflexivity|].
  generalize (action_commands procedure) as l. intros l. revert m.
  induction l as [|c l IH]; intros m; [reflexivity|].
  cbn [foldl]. rewrite IH. unfold do_deactivation_command.
  destruct (cmd_id c); reflexivity.
Qed.

Lemma map_end_tick_procedure (t : Time) (m : Map) (p : nat) :
  map_end_triggered_ (tick_procedure t m p) =
  map_end_triggered_ m || end_reached t m p.
Proof using Type.
  unfold tick_procedure, end_reached.
  destruct (procedures_ m !! p) as [ps|]; [|rewrite orb_false_r; reflexivity].
  set (e := negb (is_None (movement_state ps)) && _ && _).
  assert (He : map_end_triggered_ (if e then set_map_end_triggered_ true m else m)
               = map_end_triggered_ m || e).
  { destruct e; [rewrite orb_true_r|rewrite orb_false_r]; reflexivity. }
  set (m1 := if e then set_map_end_triggered_ true m else m) in *.
  clearbody m1 e.
  destruct (movement_state ps); cbv beta iota zeta;
    repeat match goal with
           | |- context [Rle_dec ?a ?b] => destruct (Rle_dec a b)
           | |- context [Rlt_dec ?a ?b] => destruct (Rlt_dec a b)
           end;
    unfold enter_state, write_stage; cbn [map_end_triggered_ set_procedures_];
    rewrite ?map_end_DoProcedureImmediateCommands,
      ?map_end_DoProcedureDeactivationCommands,
      ?map_end_ActivateProcedureSwitches; exact He.
Qed.

Lemma end_reached_movements (t : Time) (m m' : Map) (p : nat) :
  movements m' !! p = movements m !! p ->
  end_reached t m' p = end_reached t m p.
Proof using Type.
  rewrite !movements_lookup. unfold end_reached. intros H.
  destruct (procedures_ m' !! p) as [ps'|], (procedures_ m !! p) as [ps|];
    try discriminate; [|reflexivity].
  cbn in H. injection H as -> _ ->. reflexivity.
Qed.

Lemma map_end_foldl_tick (t : Time) (indices : list nat) :
  NoDup indices ->
  forall m,
    map_end_triggered_ (foldl (tick_procedure t) m indices) =
    map_end_triggered_ m || existsb (end_reached t m) indices.
Proof using Type.
  induction indices as [|i indices IH]; intros Hnd m.
  - cbn. rewrite orb_false_r. reflexivity.
  - apply NoDup_cons in Hnd as [Hi Hnd]. cbn [foldl existsb].
    rewrite (IH Hnd), map_end_tick_procedure, <- orb_assoc. do 2 f_equal.
    clear IH. induction indices as [|j indices IH]; [reflexivity|].
    cbn [existsb]. f_equal.
    + apply end_reached_movements. rewrite movements_tick_procedure.
      apply list_lookup_alter_ne. intros ->. apply Hi, list_elem_of_here.
    + apply IH.
      * intros H. apply Hi, list_elem_of_further, H.
      * apply NoDup_cons in Hnd as [_ Hnd]. exact Hnd.
Qed.

(** X7.  "Check map end": the first loop of [Map::Tick] raises
    [map_end_triggered_] exactly when some procedure that is not idle has a
    positive end delay and has been in its state for at least that delay;
    the loop never lowers the flag. *)
Theorem Tick_procedures_map_end (t : Time) (m : Map) :
  map_end_triggered_ (Tick_procedures t m) = true <->
  map_end_triggered_ m = true \/
  exists p procedure_state,
    procedures_ m !! p = Some procedure_state /\
    movement_state procedure_state <> MovementState.None /\
    0 < end_delay_s (procedure_at p) <=
      t - last_state_change_time procedure_state.
Proof using Type.
  unfold Tick_procedures. rewrite map_end_foldl_tick by apply NoDup_seq.
  rewrite orb_true_iff, existsb_exists.
  split; (intros [H|H]; [left; exact H|right]).
  - destruct H as (p & _ & H). unfold end_reached in H.
    destruct (procedures_ m !! p) as [ps|] eqn:Hps; [|discriminate].
    exists p, ps. split; [exact Hps|].
    apply andb_true_iff in H as [H H3]. apply andb_true_iff in H as [H1 H2].
    destruct (Rlt_dec _ _); [|discriminate].
    destruct (Rle_dec _ _); [|discriminate].
    split; [|lra]. intros E. rewrite E in H1. discriminate.
  - destruct H as (p & ps & Hps & Hs & H1 & H2). exists p. split.
    + apply in_seq. pose proof (lookup_lt_Some _ _ _ Hps). lia.
    + unfold end_reached. rewrite Hps.
      destruct (Rlt_dec _ _); [|contradiction].
      destruct (Rle_dec _ _); [|contradiction].
      destruct (movement_state ps); try reflexivity. contradiction.
Qed.

(** ** What the collision between monsters leaves alone *)

Lemma same_body_refl (a : EntityId * MonsterBase) : same_body a a.
Proof using Type. unfold same_body. repeat split; auto. Qed.

Lemma same_body_trans (a b c : EntityId * MonsterBase) :
  same_body a b -> same_body b c -> same_body a c.
Proof using Type.
  unfold same_body.
  intros (H1 & H2 & H3 & H4 & H5 & H6 & H7 & H8)
         (G1 & G2 & G3 & G4 & G5 & G6 & G7 & G8).
  repeat split; try congruence.
  intros Hd. pose proof (H8 Hd) as ->. apply G8. exact Hd.
Qed.

Lemma Forall2_same_body_refl (l : list (EntityId * MonsterBase)) :
  Forall2 same_body l l.
Proof using Type.
  induction l; constructor; [apply same_body_refl|assumption].
Qed.

Lemma Forall2_same_body_trans (l1 l2 l3 : list (EntityId * MonsterBase)) :
  Forall2 same_body l1 l2 -> Forall2 same_body l2 l3 -> Forall2 same_body l1 l3.
Proof using Type.
  intros H. revert l3. induction H as [|a b l1 l2 Hab _ IH]; intros l3 H3.
  - inversion H3. constructor.
  - inversion H3 as [|b' c l2' l3' Hbc Hrest]; subst. constructor.
    + eapply same_body_trans; eassumption.
    + apply IH. exact Hrest.
Qed.

Lemma collide_pair_same_body (radius : R) (z_minmax : m_Vec2) (i j : EntityId)
    (first_monster second_monster : MonsterBase) :
  (0 < Health first_monster)%Z ->
  same_body (i, first_monster)
    (i, fst (collide_pair radius z_minmax first_monster second_monster)) /\
  same_body (j, second_monster)
    (j, snd (collide_pair radius z_minmax first_monster second_monster)).
Proof using Type.
  intros Halive. unfold collide_pair.
  destruct (Z.leb_spec (Health second_monster) 0) as [Hd|Ha];
    [split; apply same_body_refl|].
  repeat (destruct (Rlt_dec _ _); [split; apply same_body_refl|]).
  unfold same_body. cbn. repeat split; auto; intros; lia.
Qed.

Lemma collide_inner_same_body (i : nat) (radius : R) (z_minmax : m_Vec2)
    (l : list (EntityId * MonsterBase)) (j : nat) :
  (forall mv, l !! i = Some mv -> (0 < Health (snd mv))%Z) ->
  Forall2 same_body l (collide_inner i radius z_minmax l j).
Proof using Type.
  intros Halive. unfold collide_inner.
  destruct (Nat.eqb_spec j i) as [->|Hne]; [apply Forall2_same_body_refl|].
  destruct (l !! i) as [fv|] eqn:Hi; [|apply Forall2_same_body_refl].
  destruct (l !! j) as [sv|] eqn:Hj; [|apply Forall2_same_body_refl].
  destruct (collide_pair_same_body radius z_minmax (fst fv) (fst sv)
              (snd fv) (snd sv) (Halive fv eq_refl)) as [Hf Hs].
  destruct (collide_pair _ _ _ _) as [f' s']. cbn [fst snd] in *.
  rewrite <- (list_insert_id l i fv Hi) at 1.
  rewrite <- (list_insert_id (<[i := fv]> l) j sv) at 1.
  2:{ rewrite list_lookup_insert_ne by congruence. exact Hj. }
  apply Forall2_insert; [apply Forall2_insert; [apply Forall2_same_body_refl|]|].
  - destruct fv. exact Hf.
  - destruct sv. exact Hs.
Qed.

Lemma collide_outer_same_body (l : list (EntityId * MonsterBase)) (i : nat) :
  Forall2 same_body l (collide_outer l i).
Proof using Type.
  unfold collide_outer.
  destruct (l !! i) as [fv|] eqn:Hi; [|apply Forall2_same_body_refl].
  destruct (Z.leb_spec (Health (snd fv)) 0) as [Hd|Ha];
    [apply Forall2_same_body_refl|].
  generalize (w_radius (monster_description_at (MonsterId (snd fv)))).
  generalize (add2 (GetZMinMax (snd fv))
                (mkVec2 (v3z (Position (snd fv))) (v3z (Position (snd fv))))).
  intros z_minmax radius.
  assert (Hgen : forall js l',
            Forall2 same_body l l' ->
            Forall2 same_body l (foldl (collide_inner i radius z_minmax) l' js)).
  { induction js as [|j js IH]; intros l' Hl'; [exact Hl'|].
    cbn [foldl]. apply IH.
    eapply Forall2_same_body_trans; [exact Hl'|].
    apply collide_inner_same_body. intros mv Hmv.
    destruct (Forall2_lookup_l _ _ _ _ _ Hl' Hi) as (mv' & Hmv' & Hsame).
    rewrite Hmv in Hmv'. injection Hmv' as <-.
    destruct Hsame as (_ & _ & Hh & _). rewrite Hh. exact Ha. }
  apply Hgen, Forall2_same_body_refl.
Qed.

(** X8.  The pass "Collide monsters together" of [Map::Tick] keeps the monsters,
    their order and their identities; of a monster it changes nothing but
    the horizontal position (health, height, kind and flags stay), and it
    does not move a dead monster at all. *)
Theorem Tick_collide_monsters_same_body (m : Map) :
  Forall2 same_body (monsters_ m) (monsters_ (Tick_collide_monsters m)) /\
  length (monsters_ (Tick_collide_monsters m)) = length (monsters_ m) /\
  map fst (monsters_ (Tick_collide_monsters m)) = map fst (monsters_ m) /\
  Tick_collide_monsters m =
    set_monsters_ (monsters_ (Tick_collide_monsters m)) m.
Proof using Type.
  assert (H : Forall2 same_body (monsters_ m)
                (monsters_ (Tick_collide_monsters m))).
  { unfold Tick_collide_monsters. cbn [monsters_ set_monsters_].
    generalize (seq 0 (length (monsters_ m))). intros idx.
    assert (Hgen : forall l', Forall2 same_body (monsters_ m) l' ->
                     Forall2 same_body (monsters_ m) (foldl collide_outer l' idx)).
    { induction idx as [|i idx IH]; intros l' Hl'; [exact Hl'|].
      cbn [foldl]. apply IH.
      eapply Forall2_same_body_trans; [exact Hl'|].
      apply collide_outer_same_body. }
    apply Hgen, Forall2_same_body_refl. }
  split; [exact H|]. split; [|split; [|reflexivity]].
  - symmetry. eapply Forall2_length. exact H.
  - induction H as [|a b l l' Hab _ IH]; [reflexivity|].
    cbn. f_equal; [apply Hab|exact IH].
Qed.

(** ** What a shot can hit *)

Lemma elem_of_indexed {A} (l : list A) (i : nat) (a : A) :
  (i, a) ∈ indexed l -> l !! i = Some a.
Proof using Type.
  unfold indexed.
  assert (Hgen : forall n, (i, a) ∈ combine (seq n (length l)) l ->
                   (n <= i)%nat /\ l !! (i - n)%nat = Some a).
  { induction l as [|b l IH]; intros n H; [inversion H|].
    cbn in H. apply elem_of_cons in H as [H|H].
    - injection H as -> ->. split; [lia|]. rewrite Nat.sub_diag. reflexivity.
    - destruct (IH (S n) H) as [Hle Hl]. split; [lia|].
      replace (i - n)%nat with (S (i - S n)) by lia. exact Hl. }
  intros H. destruct (Hgen 0%nat H) as [_ Hl].
  rewrite Nat.sub_0_r in Hl. exact Hl.
Qed.

Lemma ProcessShot_is_candidate (m : Map) (start direction : m_Vec3)
    (max_distance : R) (skip : EntityId) :
  ProcessShot m start direction max_distance skip = no_hit \/
  exists c, c ∈ shot_candidates m start direction max_distance skip /\
    ProcessShot m start direction max_distance skip = hit_of c /\
    square_distance_of start c < max_distance * max_distance.
Proof using Type.
  unfold ProcessShot. rewrite ProcessShot_acc_candidates.
  destruct (foldl_consider start
              (shot_candidates m start direction max_distance skip)
              (no_hit, max_distance * max_distance))
    as [_ [[_ ->]|(l1 & c & l2 & Hl & -> & Hlt & _)]].
  - left. reflexivity.
  - right. exists c. split; [|split; [reflexivity|exact Hlt]].
    rewrite Hl. apply elem_of_app. right. apply list_elem_of_here.
Qed.

(** X9.  What [Map::ProcessShot] returns is "no hit" or a genuine obstacle
    strictly nearer than [max_distance]:
    a monster of the map other than [skip_monster_id] (a shooter never hits
    itself) at the point [TryShot] gives; a dynamic wall of the map, or a
    static wall, whose texture stops shots, at the point of intersection;
    a static model of the map with a description and a positive radius;
    the floor (index 0) or the ceiling (index 1). *)
Theorem ProcessShot_target (m : Map) (start direction : m_Vec3)
    (max_distance : R) (skip : EntityId) :
  let result := ProcessShot m start direction max_distance skip in
  (object_type result <> ObjectType.None ->
   SquareLength3 (sub3 (hit_pos result) start) < max_distance * max_distance) /\
  match object_type result with
  | ObjectType.None => result = no_hit
  | ObjectType.Monster =>
    object_index result <> skip /\
    exists monster, (object_index result, monster) ∈ monsters_ m /\
      TryShot monster start direction = Some (hit_pos result)
  | ObjectType.DynamicWall =>
    exists wall, dynamic_walls_ m !! object_index result = Some wall /\
      gso1 (walls_textures map_data_ (texture_id wall)) = false /\
      RayIntersectWall (vert_pos_0 wall) (vert_pos_1 wall) (wall_z wall)
        (wall_z wall + 2) start direction = Some (hit_pos result)
  | ObjectType.StaticWall =>
    let wall := nth (object_index result) (static_walls map_data_) default_wall in
    gso1 (walls_textures map_data_ (wall_texture_id wall)) = false /\
    RayIntersectWall (vert_pos0 wall) (vert_pos1 wall) 0 2 start direction =
      Some (hit_pos result)
  | ObjectType.Model =>
    exists model model_description,
      static_models_ m !! object_index result = Some model /\
      model_description_at (model_id model) = Some model_description /\
      0 < model_radius model_description
  | ObjectType.Floor =>
    (object_index result = 0%nat \/ object_index result = 1%nat) /\
    RayIntersectXYPlane (INR (2 * object_index result)) start direction =
      Some (hit_pos result)
  end.
Proof using Type.
  intros result. subst result.
  destruct (ProcessShot_is_candidate m start direction max_distance skip)
    as [->|(c & Hin & -> & Hlt)].
  { cbn. split; [intros H; contradiction|reflexivity]. }
  split; [intros _; exact Hlt|]. clear Hlt.
  unfold shot_candidates in Hin.
  rewrite !elem_of_app, !list_elem_of_omap in Hin.
  destruct Hin as [(e & _ & H)|[(e & He & H)|[(e & He & H)|(e & He & H)]]].
  - unfold static_candidate in H.
    destruct (ie_type e); try discriminate.
    + destruct (gso1 _) eqn:Hg; [discriminate|].
      destruct (RayIntersectWall _ _ _ _ _ _) eqn:Hray; [|discriminate].
      injection H as <-. cbn. split; assumption.
    + destruct (static_models_ m !! _) as [model|] eqn:Hm; [|discriminate].
      destruct (model_description_at _) as [d|] eqn:Hd; [|discriminate].
      destruct (Rle_dec _ _) as [|Hr]; [discriminate|].
      destruct (RayIntersectCylinder _ _ _ _ _ _); [|discriminate].
      injection H as <-. cbn. exists model, d.
      split; [exact Hm|]. split; [exact Hd|lra].
  - unfold dynamic_wall_candidate in H. destruct e as [i wall]. cbn [fst snd] in H.
    destruct (gso1 _) eqn:Hg; [discriminate|].
    destruct (RayIntersectWall _ _ _ _ _ _) eqn:Hray; [|discriminate].
    injection H as <-. cbn. exists wall.
    split; [apply elem_of_indexed; exact He|]. split; assumption.
  - unfold monster_candidate in H. destruct e as [i monster]. cbn [fst snd] in H.
    destruct (Nat.eqb_spec i skip) as [|Hne]; [discriminate|].
    destruct (TryShot _ _ _) eqn:Hshot; [|discriminate].
    injection H as <-. cbn. split; [exact Hne|].
    exists monster. split; assumption.
  - unfold floor_candidate in H.
    destruct (RayIntersectXYPlane _ _ _) eqn:Hray; [|discriminate].
    destruct (_ || _ || _ || _)%Z; [discriminate|].
    destruct (_ || _)%nat; [discriminate|].
    injection H as <-. cbn [hit_of object_type object_index hit_pos cand_type
      cand_index cand_pos].
    apply elem_of_cons in He as [->|He].
    + split; [left; reflexivity|exact Hray].
    + apply list_elem_of_singleton in He as ->.
      split; [right; reflexivity|exact Hray].
Qed.

(** ** Every flying rocket stays or is reported dead *)

Lemma filter_finite_speed_cons (rocket : Rocket) (l : list Rocket) :
  map rocket_id (filter finite_speed (rocket :: l)) =
  (if HasInfiniteSpeed rocket then [] else [rocket_id rocket]) ++
  map rocket_id (filter finite_speed l).
Proof using Type.
  destruct (HasInfiniteSpeed rocket) eqn:E.
  - rewrite filter_cons_False; [reflexivity|].
    unfold finite_speed. rewrite E. discriminate.
  - rewrite filter_cons_True by exact E. reflexivity.
Qed.

Lemma rockets_account_step (t dt : R) (m0 m : Map) (r : nat)
    (rocket0 : Rocket) (new : list RocketDeath) :
  rockets_ m !! r = Some rocket0 ->
  rockets_death_messages_ m = rockets_death_messages_ m0 ++ new ->
  map rocket_id (take r (rockets_ m)) ++ map rd_rocket_id new ++
    map rocket_id (filter finite_speed (drop r (rockets_ m))) ≡ₚ
    map rocket_id (filter finite_speed (rockets_ m0)) ->
  Forall (fun rocket => t - start_time rocket <= 16) (take r (rockets_ m)) ->
  let m' := fst (tick_rocket t dt r m) in
  let r' := snd (tick_rocket t dt r m) in
  exists new',
    rockets_death_messages_ m' = rockets_death_messages_ m0 ++ new' /\
    map rocket_id (take r' (rockets_ m')) ++ map rd_rocket_id new' ++
      map rocket_id (filter finite_speed (drop r' (rockets_ m'))) ≡ₚ
      map rocket_id (filter finite_speed (rockets_ m0)) /\
    Forall (fun rocket => t - start_time rocket <= 16) (take r' (rockets_ m')).
Proof using Type.
  intros Hr Hdeaths Hperm Hage m' r'. subst m' r'.
  destruct (tick_rocket_spec t dt r m rocket0 Hr) as [Hview ->].
  destruct (rocket_advance_rocket t dt m rocket0) as (Hid & Hty & Hst).
  set (hit := fst (fst (rocket_advance t dt m rocket0))) in *.
  set (rocket := snd (fst (rocket_advance t dt m rocket0))) in *.
  clearbody hit rocket.
  pose proof (lookup_lt_Some _ _ _ Hr) as Hlt.
  assert (Hinf : HasInfiniteSpeed rocket = HasInfiniteSpeed rocket0)
    by (apply HasInfiniteSpeed_type; exact Hty).
  set (l := rockets_ m) in *.
  assert (Hl1 : <[r := rocket]> l !! r = Some rocket)
    by (apply list_lookup_insert_eq; exact Hlt).
  assert (Htake : take r (<[r := rocket]> l) = take r l)
    by (apply take_insert_ge; lia).
  assert (Hdrop : drop (S r) (<[r := rocket]> l) = drop (S r) l)
    by (apply drop_insert_lt; lia).
  rewrite (drop_S l rocket0 r Hr), filter_finite_speed_cons in Hperm.
  unfold rocket_view in Hview.
  destruct (rocket_dies t rocket hit) eqn:Hdies;
    injection Hview as Hk _ Hd _ _; rewrite Hk, Hd, Hdeaths.
  - exists (new ++ (if HasInfiniteSpeed rocket0 then []
                    else [mkRocketDeath (rocket_id rocket)])).
    split; [symmetry; apply app_assoc|]. split.
    + rewrite (swap_remove_take r _ rocket Hl1), Htake.
      rewrite (swap_remove_drop r _ rocket Hl1), Hdrop.
      rewrite <- Hperm, map_app, Hid.
      apply Permutation_app_head. rewrite <- app_assoc.
      apply Permutation_app_head.
      destruct (HasInfiniteSpeed rocket0); reflexivity.
    + rewrite (swap_remove_take r _ rocket Hl1), Htake. exact Hage.
  - apply rocket_dies_false in Hdies as (_ & Hfin & Hyoung).
    rewrite Hinf in Hfin. rewrite Hfin in Hperm. cbn [app] in Hperm.
    exists new. split; [reflexivity|]. split.
    + rewrite (take_S_r _ r rocket Hl1), Htake, Hdrop, map_app.
      cbn [map]. rewrite Hid, <- Hperm, <- app_assoc.
      apply Permutation_app_head. cbn [app].
      apply Permutation_middle.
    + rewrite (take_S_r _ r rocket Hl1), Htake. apply Forall_app.
      split; [exact Hage|]. constructor; [exact Hyoung|constructor].
Qed.

(** X10.  The loop over the rockets of [Map::Tick] loses no flying rocket
    silently: the rockets with finite speed it started with are the rockets
    that are live after it together with those named by the death messages
    it sends, each exactly once.  No rocket that is live after the tick is
    older than 16 seconds. *)
Theorem Tick_rockets_account (t dt : R) (m : Map) :
  exists new,
    rockets_death_messages_ (Tick_rockets t dt m) =
      rockets_death_messages_ m ++ new /\
    map rocket_id (rockets_ (Tick_rockets t dt m)) ++ map rd_rocket_id new ≡ₚ
      map rocket_id (filter finite_speed (rockets_ m)) /\
    Forall (fun rocket => t - start_time rocket <= 16)
           (rockets_ (Tick_rockets t dt m)).
Proof using Type.
  unfold Tick_rockets.
  destruct (rockets_loop_invariant
              (fun m' r => exists new,
                 rockets_death_messages_ m' = rockets_death_messages_ m ++ new /\
                 map rocket_id (take r (rockets_ m')) ++ map rd_rocket_id new ++
                   map rocket_id (filter finite_speed (drop r (rockets_ m'))) ≡ₚ
                   map rocket_id (filter finite_speed (rockets_ m)) /\
                 Forall (fun rocket => t - start_time rocket <= 16)
                        (take r (rockets_ m'))) t dt)
    with (fuel := length (rockets_ m)) (r := 0%nat) (m := m)
    as (r' & Hlen & new & Hd & Hp & Hage).
  - intros m1 r rocket0 Hr (new & Hd & Hp & Hage).
    exact (rockets_account_step t dt m m1 r rocket0 new Hr Hd Hp Hage).
  - lia.
  - exists []. split; [rewrite app_nil_r; reflexivity|].
    split; [reflexivity|constructor].
  - exists new. rewrite take_ge in Hp, Hage by exact Hlen.
    rewrite drop_ge in Hp by exact Hlen. cbn in Hp. rewrite app_nil_r in Hp.
    split; [exact Hd|]. split; [exact Hp|exact Hage].
Qed.

(** ** The nearest player *)

(** X11.  [Map::FindNearestPlayerPos] fails exactly when there is no player.
    When some player is nearer than the initial bound [max_float] (squared
    distance), it gives the corrected position of a player, and no player
    is nearer to [p] than that one. *)
Theorem FindNearestPlayerPos_nearest (p : m_Vec3) (m : Map) :
  (FindNearestPlayerPos p m = None <-> players_ m = []) /\
  (forall near, near ∈ players_ m ->
     SquareLength3 (sub3 (player_pos_corrected m (snd near)) p) < max_float ->
     exists out pv,
       FindNearestPlayerPos p m = Some out /\ pv ∈ players_ m /\
       out = player_pos_corrected m (snd pv) /\
       forall pv', pv' ∈ players_ m ->
         SquareLength3 (sub3 out p) <=
         SquareLength3 (sub3 (player_pos_corrected m (snd pv')) p)).
Proof using Type.
  unfold FindNearestPlayerPos, player_pos_corrected.
  destruct (players_ m) as [|first_player rest] eqn:Hplayers.
  { split; [split; reflexivity|]. intros near H. inversion H. }
  split; [split; discriminate|].
  set (dz := (v2x (GetZMinMax (snd first_player)) +
              v2y (GetZMinMax (snd first_player))) * 0.5).
  set (corrected := fun player : MonsterBase =>
         mkVec3 (v3x (Position player)) (v3y (Position player))
                (v3z (Position player) + dz)).
  set (step := fun (acc : m_Vec3 * R) (player_value : EntityId * MonsterBase) => _).
  generalize (first_player :: rest). intros l.
  assert (Hfold : forall l acc,
            let res := foldl step acc l in
            snd res <= snd acc /\
            (forall x, x ∈ l ->
               snd res <= SquareLength3 (sub3 (corrected (snd x)) p)) /\
            (res = acc \/
             exists x, x ∈ l /\
               res = (corrected (snd x),
                      SquareLength3 (sub3 (corrected (snd x)) p)))).
  { clear. intros l. induction l as [|x l IH]; intros acc; cbn zeta.
    - cbn. split; [lra|]. split; [intros x H; inversion H|left; reflexivity].
    - cbn [foldl]. destruct (IH (step acc x)) as (Hle & Hmin & Hres).
      cbn zeta in *.
      assert (Hstep : step acc x = acc /\
                      snd acc <= SquareLength3 (sub3 (corrected (snd x)) p) \/
                      step acc x = (corrected (snd x),
                                    SquareLength3 (sub3 (corrected (snd x)) p)) /\
                      SquareLength3 (sub3 (corrected (snd x)) p) < snd acc).
      { unfold step. fold (corrected (snd x)).
        destruct (Rlt_dec _ _) as [H|H]; [right|left]; split; auto; lra. }
      split; [|split].
      + destruct Hstep as [[E H]|[E H]]; rewrite E in Hle |- *;
          cbn [snd] in Hle; lra.
      + intros y Hy. apply elem_of_cons in Hy as [->|Hy]; [|auto].
        destruct Hstep as [[E H]|[E H]]; rewrite E in Hle |- *;
          cbn [snd] in Hle; lra.
      + destruct Hres as [Hres|(y & Hy & Hres)].
        * rewrite Hres. destruct Hstep as [[E H]|[E H]]; [left; exact E|].
          right. exists x. split; [apply list_elem_of_here|exact E].
        * right. exists y. split; [apply list_elem_of_further; exact Hy|exact Hres]. }
  intros near Hnear Hlt.
  destruct (Hfold l (mkVec3 0 0 0, max_float)) as (Hle & Hmin & Hres).
  cbn zeta in *. cbn [snd] in Hle.
  destruct Hres as [Hres|(x & Hx & Hres)].
  - pose proof (Hmin near Hnear) as H. rewrite Hres in H. cbn [snd] in H.
    fold (corrected (snd near)) in Hlt. lra.
  - exists (corrected (snd x)), x. rewrite Hres. cbn [fst].
    split; [reflexivity|]. split; [exact Hx|]. split; [reflexivity|].
    intros pv' Hpv'. pose proof (Hmin pv' Hpv') as H.
    rewrite Hres in H. exact H.
Qed.

(** ** The smoke trail *)

Lemma float_to_uint_bounds (v : R) :
  0 <= v -> INR (float_to_uint v) <= v < INR (float_to_uint v) + 1.
Proof using Type.
  intros Hv. unfold float_to_uint, float_to_int.
  destruct (Rle_dec 0 v) as [_|N]; [|contradiction].
  destruct (base_Int_part v) as [Hlo Hhi].
  assert (Hz : (0 <= Int_part v)%Z).
  { apply Z.lt_succ_r. apply lt_IZR. rewrite succ_IZR. lra. }
  rewrite INR_IZR_INZ, Z2Nat.id by exact Hz. lra.
Qed.

(** X12.  The smoke trail of one tick (the loop "Emit smoke trail" of
    [Map::Tick]) for a rocket whose track length is not negative: the track
    grows by twice the distance flown; one sprite is emitted for every whole
    number the track length passes; every sprite has the effect of the
    rocket type and lies on the segment flown, strictly after its start.
    A rocket that did not move emits no sprite, so that the division by the
    length flown is never a division by zero. *)
Theorem smoke_trail_on_segment (effect_id : nat) (rocket : Rocket)
    (new_pos : m_Vec3) :
  0 <= track_length rocket ->
  let sprites := fst (smoke_trail effect_id rocket new_pos) in
  let new_track_length := snd (smoke_trail effect_id rocket new_pos) in
  new_track_length =
    track_length rocket +
    Length3 (sub3 new_pos (previous_position rocket)) * 2 /\
  length sprites =
    (float_to_uint new_track_length - float_to_uint (track_length rocket))%nat /\
  Forall (fun effect =>
            sprite_effect_id effect = effect_id /\
            0 < Length3 (sub3 new_pos (previous_position rocket)) /\
            exists part, 0 < part <= 1 /\
              sprite_pos effect =
                add3 (scale3 (previous_position rocket) (1 - part))
                     (scale3 new_pos part)) sprites /\
  (new_pos = previous_position rocket -> sprites = []).
Proof using Type.
  intros Htrack. unfold smoke_trail. cbn [fst snd].
  set (dist := Length3 (sub3 new_pos (previous_position rocket))).
  assert (Hdist : 0 <= dist) by apply sqrt_pos.
  split; [reflexivity|]. split; [rewrite length_map, length_seq; reflexivity|].
  pose proof (float_to_uint_bounds (track_length rocket) Htrack) as Ha.
  assert (Hnew : 0 <= track_length rocket + dist * 2) by lra.
  pose proof (float_to_uint_bounds _ Hnew) as Hb.
  split.
  - apply Forall_forall. intros effect Hin.
    change (effect ∈ (fun i => mkSpriteEffect
                        (add3 (scale3 (previous_position rocket)
                                 (1 - (INR i - track_length rocket) / (dist * 2)))
                              (scale3 new_pos
                                 ((INR i - track_length rocket) / (dist * 2))))
                        effect_id) <$>
                     seq (S (float_to_uint (track_length rocket)))
                       (float_to_uint (track_length rocket + dist * 2) -
                        float_to_uint (track_length rocket))) in Hin.
    apply list_elem_of_fmap in Hin as (i & -> & Hi).
    apply elem_of_seq in Hi. cbn [sprite_effect_id sprite_pos].
    assert (Hlo : INR (S (float_to_uint (track_length rocket))) <= INR i)
      by (apply le_INR; lia).
    assert (Hhi : INR i <= INR (float_to_uint (track_length rocket + dist * 2)))
      by (apply le_INR; lia).
    rewrite S_INR in Hlo.
    assert (Hpos : 0 < dist) by lra.
    split; [reflexivity|]. split; [exact Hpos|].
    exists ((INR i - track_length rocket) / (dist * 2)).
    split; [|reflexivity]. split.
    + apply Rdiv_lt_0_compat; lra.
    + apply (Rmult_le_reg_r (dist * 2)); [lra|].
      unfold Rdiv. rewrite Rmult_assoc, Rinv_l by lra. lra.
  - intros ->. 
    assert (Hzero : dist = 0).
    { unfold dist, Length3, SquareLength3, sub3. cbn.
      replace (_ + _ + _) with 0 by ring. apply sqrt_0. }
    rewrite Hzero, Rmult_0_l, Rplus_0_r, Nat.sub_diag. reflexivity.
Qed.

(** ** The first message of a procedure *)

Lemma map_alter_same {A B} (f : A -> B) (g : A -> A) (i : nat) (l : list A) :
  (forall a, f (g a) = f a) -> map f (alter g i l) = map f l.
Proof using Type.
  intros H. rewrite (map_alter_commute f g (fun x => x)) by exact H.
  apply list_alter_id. reflexivity.
Qed.

Lemma printed_DoProcedureImmediateCommands (procedure : Procedure) (m : Map) :
  printed (DoProcedureImmediateCommands procedure m) = printed m.
Proof using Type.
  unfold DoProcedureImmediateCommands.
  generalize (action_commands procedure) as l. intros l. revert m.
  induction l as [|c l IH]; intros m; [reflexivity|].
  cbn [foldl]. rewrite IH. unfold do_immediate_command, printed.
  destruct (cmd_id c); try reflexivity;
    cbn [procedures_ set_procedures_];
    try (apply map_alter_same; reflexivity).
  - destruct (_ && _)%nat; [|reflexivity].
    destruct (ie_type _); reflexivity.
  - destruct (_ && _)%nat; [|reflexivity].
    destruct (ie_type _); try reflexivity.
    rewrite procedures_DestroyModel. reflexivity.
Qed.

Lemma printed_tick_procedure (t : Time) (m : Map) (p : nat) :
  printed (tick_procedure t m p) = printed m.
Proof using Type.
  unfold tick_procedure.
  destruct (procedures_ m !! p) as [ps|]; [|reflexivity].
  set (m1 := if (_ : bool) then set_map_end_triggered_ true m else m).
  assert (H1 : printed m1 = printed m) by (unfold m1; destruct (_ && _); reflexivity).
  clearbody m1.
  assert (Henter : forall s m2, printed (enter_state p s t m2) = printed m2).
  { intros s m2. unfold printed, enter_state. cbn [procedures_ set_procedures_].
    apply map_alter_same. reflexivity. }
  assert (Hwrite : forall v m2, printed (write_stage p v m2) = printed m2).
  { intros v m2. unfold printed, write_stage. cbn [procedures_ set_procedures_].
    apply map_alter_same. reflexivity. }
  assert (Hsw : forall procedure inverse m2,
            printed (ActivateProcedureSwitches procedure inverse t m2) =
            printed m2).
  { intros. unfold printed. rewrite procedures_ActivateProcedureSwitches.
    reflexivity. }
  assert (Hde : forall procedure m2,
            printed (DoProcedureDeactivationCommands procedure m2) = printed m2).
  { intros. unfold printed. rewrite procedures_DoProcedureDeactivationCommands.
    reflexivity. }
  destruct (movement_state ps); cbv beta iota zeta;
    repeat match goal with
           | |- context [Rle_dec ?a ?b] => destruct (Rle_dec a b)
           | |- context [Rlt_dec ?a ?b] => destruct (Rlt_dec a b)
           end;
    rewrite ?Henter, ?Hwrite, ?printed_DoProcedureImmediateCommands, ?Hsw, ?Hde;
    exact H1.
Qed.

Lemma printed_Tick_procedures (t : Time) (m : Map) :
  printed (Tick_procedures t m) = printed m.
Proof using Type.
  unfold Tick_procedures. generalize (seq 0 (length (procedures_ m))).
  intros l. revert m. induction l as [|p l IH]; intros m; [reflexivity|].
  cbn [foldl]. rewrite IH. apply printed_tick_procedure.
Qed.

Lemma printed_ActivateProcedure (n : nat) (t : Time) (m : Map) :
  printed (ActivateProcedure n t m) = printed m.
Proof using Type.
  unfold printed, ActivateProcedure. cbn [procedures_ set_procedures_].
  apply map_alter_same. reflexivity.
Qed.

Lemma printed_run_call (c : MapCall) (m : Map) (q : nat) :
  printed m !! q = Some true -> printed (run_call c m) !! q = Some true.
Proof using Type.
  intros Hq. destruct c as [t|n t player|n t|n t|n t]; cbn [run_call].
  - rewrite printed_Tick_procedures. exact Hq.
  - unfold TryActivateProcedure.
    destruct (Player_TryActivateProcedure player n t) as [permitted player'].
    destruct permitted; cbn [negb]; [|exact Hq].
    destruct (procedures_ m !! n) as [ps|]; [|exact Hq]. cbn [snd].
    set (m1 := if (_ : bool) then ActivateProcedure n t m else m).
    assert (H1 : printed m1 = printed m).
    { unfold m1. destruct (_ && _); [apply printed_ActivateProcedure|reflexivity]. }
    clearbody m1.
    destruct (_ && _); [|rewrite H1; exact Hq].
    rewrite <- H1 in Hq. unfold printed in *.
    cbn [procedures_ set_procedures_].
    rewrite (map_alter_commute first_message_printed
               (set_first_message_printed true) (fun _ => true)) by reflexivity.
    destruct (decide (n = q)) as [->|Hne].
    + rewrite list_lookup_alter_eq, Hq. reflexivity.
    + rewrite list_lookup_alter_ne by exact Hne. exact Hq.
  - unfold ReturnProcedure.
    destruct (procedures_ m !! n) as [ps|]; [|exact Hq].
    destruct (locked ps); [exact Hq|].
    destruct (movement_state ps); try exact Hq;
      unfold printed; cbn [procedures_ set_procedures_];
      rewrite map_alter_same by reflexivity; exact Hq.
  - unfold ProcedureProcessShoot.
    destruct (procedures_ m !! n) as [ps|]; [|exact Hq].
    destruct (negb _); [exact Hq|]. destruct (locked ps); [exact Hq|].
    rewrite printed_ActivateProcedure. exact Hq.
  - unfold ProcedureProcessDestroy. rewrite printed_ActivateProcedure.
    unfold printed. cbn [procedures_ set_procedures_].
    rewrite map_alter_same by reflexivity. exact Hq.
Qed.

(** X13.  The first message of a procedure is sent once.  A permitted attempt on
    a procedure that has a first message leaves its flag
    [first_message_printed] set, and sends the first message if the flag was
    not set.  Once the flag is set, no call of [Tick],
    [TryActivateProcedure], [ReturnProcedure], [ProcedureProcessShoot] or
    [ProcedureProcessDestroy] clears it, and every later permitted attempt
    sends the lock message and the "on" message only. *)
Theorem first_message_once (n : nat) (m : Map) (ps : ProcedureState) :
  procedures_ m !! n = Some ps ->
  (forall t player player' sender,
     Player_TryActivateProcedure player n t = (true, player') ->
     first_message_number (procedure_at n) <> 0%nat ->
     exists ps',
       procedures_ (snd (TryActivateProcedure n t player sender m)) !! n =
         Some ps' /\
       first_message_printed ps' = true /\
       (first_message_printed ps = false ->
        snd (fst (TryActivateProcedure n t player sender m)) =
          sender ++ mkTextMessage (first_message_number (procedure_at n)) ::
          lock_and_on_messages (procedure_at n) ps player')) /\
  (first_message_printed ps = true ->
   forall calls,
     let m' := foldl (fun m c => run_call c m) m calls in
     exists ps',
       procedures_ m' !! n = Some ps' /\
       first_message_printed ps' = true /\
       forall t player player' sender,
         Player_TryActivateProcedure player n t = (true, player') ->
         snd (fst (TryActivateProcedure n t player sender m')) =
           sender ++ lock_and_on_messages (procedure_at n) ps' player').
Proof using Type.
  intros Hps. split.
  - intros t player player' sender Hgate Hfirst.
    destruct (TryActivateProcedure_permitted n t player player' sender m ps
                Hgate Hps) as [Hstate Hmsg].
    eexists. split; [exact Hstate|]. cbn [first_message_printed].
    destruct (Nat.eqb_spec (first_message_number (procedure_at n)) 0) as [|_];
      [contradiction|]. cbn [negb andb].
    split.
    + destruct (first_message_printed ps); reflexivity.
    + intros Hp. rewrite Hmsg, Hp. reflexivity.
  - intros Hp calls m'.
    assert (Hflag : printed m' !! n = Some true).
    { subst m'. assert (H0 : printed m !! n = Some true).
      { unfold printed. change (map first_message_printed (procedures_ m))
          with (first_message_printed <$> procedures_ m).
        rewrite list_lookup_fmap, Hps. cbn. rewrite Hp. reflexivity. }
      clear Hps Hp. revert m H0.
      induction calls as [|c calls IH]; intros m H0; [exact H0|].
      cbn [foldl]. apply IH, printed_run_call, H0. }
    clearbody m'. unfold printed in Hflag.
    change (map first_message_printed (procedures_ m'))
      with (first_message_printed <$> procedures_ m') in Hflag.
    rewrite list_lookup_fmap in Hflag.
    destruct (procedures_ m' !! n) as [ps'|] eqn:Hps'; [|discriminate].
    injection Hflag as Hflag. exists ps'.
    split; [reflexivity|]. split; [exact Hflag|].
    intros t player player' sender Hgate.
    destruct (TryActivateProcedure_permitted n t player player' sender m' ps'
                Hgate Hps') as [_ Hmsg].
    rewrite Hmsg, Hflag, andb_false_r. reflexivity.
Qed.

(** ** Line of sight *)

Lemma indexed_elem_of {A} (l : list A) (i : nat) (a : A) :
  l !! i = Some a -> (i, a) ∈ indexed l.
Proof using Type.
  unfold indexed.
  assert (Hgen : forall n, l !! i = Some a ->
                   (n + i, a)%nat ∈ combine (seq n (length l)) l).
  { revert i. induction l as [|b l IH]; intros i n H; [discriminate|].
    destruct i as [|i]; cbn in *.
    - injection H as ->. rewrite Nat.add_0_r. apply list_elem_of_here.
    - apply list_elem_of_further.
      replace (n + S i)%nat with (S n + i)%nat by lia. apply IH. exact H. }
  intros H. apply (Hgen 0%nat H).
Qed.

Lemma see_static_element_candidate (m : Map) (from direction : m_Vec3)
    (dist : R) (element : IndexElementT) :
  see_static_element m from direction dist element =
  match static_candidate m from direction element with
  | Some c => try_set_occluder from dist (cand_pos c)
  | None => false
  end.
Proof using Type.
  unfold see_static_element, static_candidate.
  destruct (ie_type element); try reflexivity.
  - destruct (gso1 _); [reflexivity|].
    destruct (RayIntersectWall _ _ _ _ _ _); reflexivity.
  - destruct (static_models_ m !! _); [|reflexivity].
    destruct (model_description_at _); [|reflexivity].
    destruct (Rle_dec _ _); [reflexivity|].
    destruct (RayIntersectCylinder _ _ _ _ _ _); reflexivity.
Qed.

Lemma see_dynamic_wall_candidate (from direction : m_Vec3) (dist : R)
    (iw : nat * DynamicWall) :
  see_dynamic_wall from direction dist (snd iw) =
  match dynamic_wall_candidate from direction iw with
  | Some c => try_set_occluder from dist (cand_pos c)
  | None => false
  end.
Proof using Type.
  unfold see_dynamic_wall, dynamic_wall_candidate.
  destruct (gso1 _); [reflexivity|].
  destruct (RayIntersectWall _ _ _ _ _ _); reflexivity.
Qed.

Lemma try_set_occluder_true (from : m_Vec3) (dist : R) (c : ShotCandidate) :
  try_set_occluder from dist (cand_pos c) = true <->
  square_distance_of from c <= dist * dist.
Proof using Type.
  unfold try_set_occluder, square_distance_of.
  destruct (Rle_dec _ _); split; auto; discriminate.
Qed.

(** The target is hidden exactly when a wall or model on the ray is at most
    as far as the target. *)
Lemma CanSee_occluded (m : Map) (from to : m_Vec3) :
  from <> to ->
  (CanSee m from to = false <->
   exists c,
     c ∈ sight_candidates m from (Normalize3 (sub3 to from))
           (Length3 (sub3 to from)) /\
     square_distance_of from c <=
       Length3 (sub3 to from) * Length3 (sub3 to from)).
Proof using Type.
  intros Hne. unfold CanSee, sight_candidates.
  destruct (Vec3_eq_dec from to) as [E|_]; [contradiction|]. cbv zeta.
  set (direction := Normalize3 (sub3 to from)).
  set (dist := Length3 (sub3 to from)).
  rewrite negb_false_iff, orb_true_iff, !existsb_exists. split.
  - intros [(e & He & H)|(w & Hw & H)].
    + rewrite see_static_element_candidate in H.
      destruct (static_candidate m from direction e) as [c|] eqn:Hc;
        [|discriminate].
      exists c. split; [|apply try_set_occluder_true; exact H].
      apply elem_of_app. left. apply list_elem_of_omap.
      exists e. split; [apply list_elem_of_In; exact He|exact Hc].
    + apply list_elem_of_In, list_elem_of_lookup in Hw as [i Hi].
      pose proof (see_dynamic_wall_candidate from direction dist (i, w)) as Hs.
      cbn [snd] in Hs. rewrite Hs in H.
      destruct (dynamic_wall_candidate from direction (i, w)) as [c|] eqn:Hc;
        [|discriminate].
      exists c. split; [|apply try_set_occluder_true; exact H].
      apply elem_of_app. right. apply list_elem_of_omap.
      exists (i, w). split; [apply indexed_elem_of; exact Hi|exact Hc].
  - intros (c & Hin & Hd). apply try_set_occluder_true in Hd.
    apply elem_of_app in Hin as [Hin|Hin];
      apply list_elem_of_omap in Hin as (e & He & Hc).
    + left. exists e. split; [apply list_elem_of_In; exact He|].
      rewrite see_static_element_candidate, Hc. exact Hd.
    + right. destruct e as [i w]. exists w. split.
      * apply list_elem_of_In. apply elem_of_indexed in He.
        eapply list_elem_of_lookup_2. exact He.
      * pose proof (see_dynamic_wall_candidate from direction dist (i, w)) as Hs.
        cbn [snd] in Hs. rewrite Hs, Hc. exact Hd.
Qed.

Lemma candidate_types (m : Map) (start direction : m_Vec3) (max_distance : R)
    (skip : EntityId) (c : ShotCandidate) :
  c ∈ shot_candidates m start direction max_distance skip ->
  is_wall_or_model (cand_type c) = true ->
  c ∈ sight_candidates m start direction max_distance.
Proof using Type.
  unfold shot_candidates, sight_candidates.
  rewrite !elem_of_app, !list_elem_of_omap.
  intros [H|[H|[(e & _ & H)|(e & _ & H)]]] Hty; [left; exact H|right; exact H| |].
  - exfalso. unfold monster_candidate in H.
    destruct (_ =? _)%nat; [discriminate|].
    destruct (TryShot _ _ _); [|discriminate].
    injection H as <-. discriminate.
  - exfalso. unfold floor_candidate in H.
    destruct (RayIntersectXYPlane _ _ _); [|discriminate].
    destruct (_ || _ || _ || _)%Z; [discriminate|].
    destruct (_ || _)%nat; [discriminate|].
    injection H as <-. discriminate.
Qed.

(** X14.  [Map::CanSee]: a point sees itself; a target is hidden exactly when a
    wall or a static model that stops shots lies on the ray at most as far
    as the target; in particular, whenever a shot from [from] toward [to],
    with the distance of the two as reach, ends at a wall or a model, [to]
    is not seen from [from].  Monsters never hide anything. *)
Theorem CanSee_spec (m : Map) (from to : m_Vec3) :
  CanSee m from from = true /\
  (from <> to ->
   let direction := Normalize3 (sub3 to from) in
   let dist := Length3 (sub3 to from) in
   (CanSee m from to = false <->
    exists c, c ∈ sight_candidates m from direction dist /\
      square_distance_of from c <= dist * dist) /\
   (forall skip,
      is_wall_or_model (object_type (ProcessShot m from direction dist skip)) =
        true ->
      CanSee m from to = false)) /\
  (forall monsters,
     CanSee (set_monsters_ monsters m) from to = CanSee m from to).
Proof using Type.
  split; [|split].
  - unfold CanSee. destruct (Vec3_eq_dec from from); [reflexivity|congruence].
  - intros Hne direction dist. split; [apply CanSee_occluded; exact Hne|].
    intros skip Hty. apply CanSee_occluded; [exact Hne|].
    fold direction dist.
    destruct (ProcessShot_is_candidate m from direction dist skip)
      as [E|(c & Hin & E & Hlt)]; rewrite E in Hty; [discriminate|].
    exists c. split; [|lra].
    apply (candidate_types m from direction dist skip c Hin Hty).
  - intros monsters. reflexivity.
Qed.

(** ** Animation of the static models *)

Lemma Int_part_IZR (z : Z) : Int_part (IZR z) = z.
Proof using Type.
  symmetry. apply Int_part_spec. lra.
Qed.

Lemma float_to_int_IZR (z : Z) : float_to_int (IZR z) = z.
Proof using Type.
  unfold float_to_int. destruct (Rle_dec 0 (IZR z)); [apply Int_part_IZR|].
  rewrite <- opp_IZR, Int_part_IZR. lia.
Qed.

Lemma float_round_nonneg (v : R) : 0 <= v -> (0 <= float_round v)%Z.
Proof using Type.
  intros Hv. unfold float_round. destruct (Rle_dec 0 v); [|contradiction].
  destruct (base_Int_part (v + / 2)) as [_ Hhi].
  apply Z.lt_succ_r. apply lt_IZR. rewrite succ_IZR. lra.
Qed.

Lemma round_to_uint (v : R) :
  0 <= v -> Z.of_nat (float_to_uint (IZR (float_round v))) = float_round v.
Proof using Type.
  intros Hv. unfold float_to_uint. rewrite float_to_int_IZR.
  apply Z2Nat.id, float_round_nonneg, Hv.
Qed.

(** X15.  The loop "Process static models" of [Map::Tick] changes only the
    animation of a model.  A looping model ([Animation]) keeps looping, on a
    frame below the frame count of its geometry; a model at rest
    ([SingleFrame]) stays at rest and shows its rest frame; a model that
    plays once or backward keeps playing or comes to rest: no model leaves
    rest or starts to loop in this loop. *)
Theorem tick_static_model_states (t : Time) (model : StaticModel) :
  let model' := tick_static_model t model in
  same_model_body model model' /\
  match animation_state model with
  | AnimationState.Animation =>
    animation_state model' = AnimationState.Animation /\
    animation_start_frame model' = animation_start_frame model /\
    forall model_geometry, model_at (model_id model) = Some model_geometry ->
      (0 < frame_count model_geometry)%Z ->
      (0 <= current_animation_frame model' < frame_count model_geometry)%Z
  | AnimationState.SingleFrame =>
    animation_state model' = AnimationState.SingleFrame /\
    animation_start_frame model' = animation_start_frame model /\
    current_animation_frame model' = animation_start_frame model
  | AnimationState.SingleAnimation | AnimationState.SingleReverseAnimation =>
    (animation_state model' = animation_state model /\
     animation_start_frame model' = animation_start_frame model) \/
    (animation_state model' = AnimationState.SingleFrame /\
     current_animation_frame model' = current_animation_frame model)
  end.
Proof using Type.
  cbn zeta. unfold tick_static_model, same_model_body.
  destruct (animation_state model) eqn:Hs.
  - destruct (model_at (model_id model)) as [g|]; cbn; rewrite Hs;
      (split; [repeat split|]); (split; [reflexivity|]);
      (split; [reflexivity|]).
    + intros g' Hg' Hpos. injection Hg' as <-. apply Z.mod_pos_bound. exact Hpos.
    + intros g' Hg'. discriminate.
  - cbn. rewrite Hs. split; [repeat split|]. repeat split.
  - destruct (model_at (model_id model)) as [g|].
    + destruct (_ <=? _)%Z; cbn; (split; [repeat split|]).
      * right. split; reflexivity.
      * left. rewrite Hs. split; reflexivity.
    + cbn. split; [repeat split|]. left. rewrite Hs. split; reflexivity.
  - destruct (model_at (model_id model)) as [g|].
    + destruct (_ <=? _)%Z; cbn; (split; [repeat split|]).
      * right. split; reflexivity.
      * left. rewrite Hs. split; reflexivity.
    + cbn. split; [repeat split|]. left. rewrite Hs. split; reflexivity.
Qed.

(** X16.  A switch at rest that a procedure triggers at time [t0]
    ([ActivateProcedureSwitches]) plays its animation once: at a tick at
    time [t1] it shows the frame number [round ((t1 - t0) * fps)] while that
    is before the last frame, and once the last frame is reached it comes
    to rest there (the frame shown follows at the next tick).  Triggered
    with the inverse animation it plays from the last frame down and comes
    to rest at frame 0. *)
Theorem switch_animation_settles (t0 t1 t2 : Time) (model : StaticModel)
    (model_geometry : Model) :
  animation_state model = AnimationState.SingleFrame ->
  model_at (model_id model) = Some model_geometry ->
  (1 <= frame_count model_geometry < 2 ^ 32)%Z ->
  0 <= (t1 - t0) * animations_frames_per_second ->
  let played := float_round ((t1 - t0) * animations_frames_per_second) in
  let last_frame := (frame_count model_geometry - 1)%Z in
  let pressed := activate_switch_model false t0 model in
  let released := activate_switch_model true t0 model in
  ((played < last_frame)%Z ->
   animation_state (tick_static_model t1 pressed) =
     AnimationState.SingleAnimation /\
   current_animation_frame (tick_static_model t1 pressed) = played /\
   animation_state (tick_static_model t1 released) =
     AnimationState.SingleReverseAnimation /\
   current_animation_frame (tick_static_model t1 released) =
     (last_frame - played)%Z) /\
  ((last_frame <= played)%Z ->
   animation_state (tick_static_model t2 (tick_static_model t1 pressed)) =
     AnimationState.SingleFrame /\
   current_animation_frame
     (tick_static_model t2 (tick_static_model t1 pressed)) = last_frame /\
   animation_state (tick_static_model t2 (tick_static_model t1 released)) =
     AnimationState.SingleFrame /\
   current_animation_frame
     (tick_static_model t2 (tick_static_model t1 released)) = 0%Z).
Proof using Type.
  intros Hs Hg Hcount Htime played last_frame pressed released.
  assert (Hwrap : wrap32 (frame_count model_geometry - 1) = last_frame).
  { unfold wrap32. apply Z.mod_small. unfold last_frame. lia. }
  assert (Hp : tick_static_model t1 pressed =
               if (last_frame <=? played)%Z
               then set_animation AnimationState.SingleFrame t0 last_frame pressed
               else set_current_animation_frame played pressed).
  { unfold tick_static_model, pressed, activate_switch_model. rewrite Hs.
    cbn [animation_state set_animation animation_start_time model_id].
    rewrite Hg, Hwrap, (round_to_uint _ Htime). reflexivity. }
  assert (Hr : tick_static_model t1 released =
               if (last_frame - played <=? 0)%Z
               then set_animation AnimationState.SingleFrame t0 0 released
               else set_current_animation_frame (last_frame - played) released).
  { unfold tick_static_model, released, activate_switch_model. rewrite Hs.
    cbn [animation_state set_animation animation_start_time model_id
         animation_start_frame].
    rewrite Hg, Hwrap, float_to_int_IZR. reflexivity. }
  rewrite Hp, Hr. split; intros Hplayed.
  - destruct (Z.leb_spec last_frame played) as [|_]; [lia|].
    destruct (Z.leb_spec (last_frame - played) 0) as [|_]; [lia|].
    unfold pressed, released, activate_switch_model. rewrite Hs.
    repeat split.
  - destruct (Z.leb_spec last_frame played) as [_|]; [|lia].
    destruct (Z.leb_spec (last_frame - played) 0) as [_|]; [|lia].
    repeat split.
Qed.

(** ** Death ticks *)

Lemma float_to_uint_mono (a b : R) :
  0 <= a -> a <= b -> (float_to_uint a <= float_to_uint b)%nat.
Proof using Type.
  intros Ha Hab.
  pose proof (float_to_uint_bounds a Ha) as [Ha1 _].
  assert (Hb : 0 <= b) by lra.
  pose proof (float_to_uint_bounds b Hb) as [_ Hb2].
  assert (H : INR (float_to_uint a) < INR (S (float_to_uint b)))
    by (rewrite S_INR; lra).
  apply INR_lt in H. lia.
Qed.

(** X17.  The number of death ticks of a tick depends on the two ends of its time
    span only: a span cut into two ticks gives, in sum, the death ticks of
    one tick over the whole span.  (Times are not negative, and the tick
    counter stays within 32 bits.) *)
Theorem death_ticks_additive (t0 t1 t2 : Time) :
  0 <= death_ticks_per_second -> 0 <= t0 <= t1 -> t1 <= t2 ->
  (Z.of_nat (float_to_uint (death_ticks_per_second * t2)) < 2 ^ 32)%Z ->
  (death_ticks t1 (t1 - t0) + death_ticks t2 (t2 - t1) =
   death_ticks t2 (t2 - t0))%Z /\
  (0 <= death_ticks t1 (t1 - t0))%Z /\
  death_ticks t2 (t2 - t0) =
    (Z.of_nat (float_to_uint (death_ticks_per_second * t2)) -
     Z.of_nat (float_to_uint (death_ticks_per_second * t0)))%Z.
Proof using Type.
  intros Hrate [H0 H01] H12 Hbound. unfold death_ticks. cbv zeta.
  replace (t1 - (t1 - t0)) with t0 by ring.
  replace (t2 - (t2 - t1)) with t1 by ring.
  replace (t2 - (t2 - t0)) with t0 by ring.
  assert (Ha : 0 <= death_ticks_per_second * t0) by (apply Rmult_le_pos; lra).
  assert (Hab : death_ticks_per_second * t0 <= death_ticks_per_second * t1)
    by (apply Rmult_le_compat_l; lra).
  assert (Hbc : death_ticks_per_second * t1 <= death_ticks_per_second * t2)
    by (apply Rmult_le_compat_l; lra).
  pose proof (float_to_uint_mono _ _ Ha Hab) as H1.
  pose proof (float_to_uint_mono (death_ticks_per_second * t1) _
                ltac:(lra) Hbc) as H2.
  set (a := float_to_uint (death_ticks_per_second * t0)) in *.
  set (b := float_to_uint (death_ticks_per_second * t1)) in *.
  set (c := float_to_uint (death_ticks_per_second * t2)) in *.
  unfold wrap32. rewrite !Z.mod_small by lia. lia.
Qed.

(** ** Wind *)


(** ** Collision of the monsters with the map *)

Lemma CollideWithMap_floor (m : Map) (in_pos : m_Vec3) (height radius : R) :
  0 < height < walls_height ->
  0 <= v3z (fst (CollideWithMap m in_pos height radius)) <=
    walls_height - height /\
  (v3z (fst (CollideWithMap m in_pos height radius)) = 0 ->
   snd (CollideWithMap m in_pos height radius) = true).
Proof using Type.
  intros [Hpos Hlt]. unfold CollideWithMap.
  set (st := foldl _ _ (dynamic_walls_ m)).
  destruct (Rle_dec (cs_new_z st) 0) as [Hz|Hz]; cbn [fst snd Vec3_of v3z].
  - split; [lra | reflexivity].
  - destruct (Rlt_dec walls_height (cs_new_z st + height)) as [Hc|Hc];
      cbn [fst snd Vec3_of v3z]; split; try lra.
Qed.

(** X19.  The pass "Collide monsters with map" of [Map::Tick] keeps the monsters,
    their order and their identities, and leaves a player in noclip mode
    alone.  Every other monster is put at the position [CollideWithMap]
    returns for it (with the height of a player, and the radius of the
    player or of the kind of monster): whatever [ClampSpeed] does, after the
    pass the monster stands between the floor and the ceiling, and on the
    floor flag is set whenever it is at height 0. *)
Theorem Tick_collide_with_map_range (m : Map) (i : nat) (monster_id : EntityId)
    (monster : MonsterBase) :
  0 < player_height < walls_height ->
  monsters_ m !! i = Some (monster_id, monster) ->
  exists monster',
    monsters_ (Tick_collide_with_map m) !! i = Some (monster_id, monster') /\
    length (monsters_ (Tick_collide_with_map m)) = length (monsters_ m) /\
    if (MonsterId monster =? 0)%nat && IsNoclip monster
    then monster' = monster
    else
      Position monster' =
        fst (CollideWithMap m (Position monster) player_height
               (if (MonsterId monster =? 0)%nat then player_radius
                else w_radius (monster_description_at (MonsterId monster)))) /\
      on_floor monster' =
        snd (CollideWithMap m (Position monster) player_height
               (if (MonsterId monster =? 0)%nat then player_radius
                else w_radius (monster_description_at (MonsterId monster)))) /\
      0 <= v3z (Position monster') <= walls_height - player_height /\
      (v3z (Position monster') = 0 -> on_floor monster' = true).
Proof using Type.
  intros Hheight Hi. exists (collide_monster_with_map m monster).
  unfold Tick_collide_with_map. cbn [monsters_ set_monsters_].
  split; [|split; [apply length_map|]].
  - change (map ?f ?l) with (f <$> l). rewrite list_lookup_fmap, Hi. reflexivity.
  - unfold collide_monster_with_map.
    destruct ((MonsterId monster =? 0)%nat && IsNoclip monster); [reflexivity|].
    set (radius := if (MonsterId monster =? 0)%nat then _ else _).
    pose proof (CollideWithMap_floor m (Position monster) player_height radius
                  Hheight) as [Hrange Hfloor].
    destruct (CollideWithMap m (Position monster) player_height radius)
      as [new_pos fl]. cbn [fst snd] in *.
    cbn [SetOnFloor SetPosition Position on_floor].
    split; [reflexivity|]. split; [reflexivity|]. split; assumption.
Qed.

(** ** Moving the objects of the map *)

(** X20.  The displacement of a [Move], [XMove] or [YMove] command starts at
    nothing and ends at the displacement of the command; [XMove] moves
    along x first and [YMove] along y first, both passing the corner at
    the middle of the movement; for a stage between 0 and 1 the object
    stays inside the rectangle spanned by the two ends. *)
Theorem move_d_pos_ends (command_id : ActionCommandId.t) (dx dy : R) :
  move_d_pos command_id dx dy 0 = mkVec2 0 0 /\
  move_d_pos command_id dx dy 1 = mkVec2 dx dy /\
  move_d_pos ActionCommandId.XMove dx dy 0.5 = mkVec2 dx 0 /\
  move_d_pos ActionCommandId.YMove dx dy 0.5 = mkVec2 0 dy /\
  (forall stage, 0 <= stage <= 1 ->
     exists a b, 0 <= a <= 1 /\ 0 <= b <= 1 /\
       move_d_pos command_id dx dy stage = mkVec2 (dx * a) (dy * b)).
Proof using Type.
  assert (H0 : forall c, move_d_pos c dx dy 0 = mkVec2 0 0).
  { intros c. unfold move_d_pos. destruct c;
      try (destruct (Rle_dec 0 0.5); [|lra]); f_equal; lra. }
  assert (H1 : forall c, move_d_pos c dx dy 1 = mkVec2 dx dy).
  { intros c. unfold move_d_pos. destruct c;
      try (destruct (Rle_dec 1 0.5); [lra|]); f_equal; lra. }
  split; [apply H0|]. split; [apply H1|].
  split; [|split].
  - unfold move_d_pos. destruct (Rle_dec 0.5 0.5); [|lra]. f_equal; lra.
  - unfold move_d_pos. destruct (Rle_dec 0.5 0.5); [|lra]. f_equal; lra.
  - intros stage Hs.
    assert (Hm : exists a b, 0 <= a <= 1 /\ 0 <= b <= 1 /\
              mkVec2 (0 + dx * stage) (0 + dy * stage) = mkVec2 (dx * a) (dy * b)).
    { exists stage, stage. repeat split; try lra. f_equal; ring. }
    assert (Hhalf : forall v, 0 <= v <= 0.5 -> 0 <= v / 0.5 <= 1).
    { intros v Hv. split.
      - apply Rmult_le_pos; lra.
      - apply (Rmult_le_reg_r 0.5); [lra|]. unfold Rdiv.
        rewrite Rmult_assoc, Rinv_l by lra. lra. }
    unfold move_d_pos. destruct command_id; try exact Hm;
      destruct (Rle_dec stage 0.5).
    + exists (stage / 0.5), 0. split; [apply Hhalf; lra|].
      split; [lra|]. f_equal; lra.
    + exists 1, ((stage - 0.5) / 0.5). split; [lra|].
      split; [apply Hhalf; lra|]. f_equal; lra.
    + exists 0, (stage / 0.5). split; [lra|].
      split; [apply Hhalf; lra|]. f_equal; lra.
    + exists ((stage - 0.5) / 0.5), 1. split; [apply Hhalf; lra|].
      split; [lra|]. f_equal; lra.
Qed.

Lemma sum_R_app (l1 l2 : list R) : sum_R (l1 ++ l2) = sum_R l1 + sum_R l2.
Proof using Type.
  unfold sum_R. induction l1 as [|a l1 IH]; cbn; [lra|]. rewrite IH. lra.
Qed.

Lemma option_fmap_add_0 (o : option R) : (fun z => z + 0) <$> o = o.
Proof using Type. destruct o; cbn; [f_equal; lra|reflexivity]. Qed.

Lemma acc_d_z_transform_target (cx cy : nat)
    (f : Transformation -> Transformation) (g : R -> R) (delta : R)
    (element_type : IndexElement.Type_) (index : nat) (acc : MoveAcc) :
  (forall tr, d_z (f tr) = d_z tr + delta) ->
  acc_d_z element_type (transform_target cx cy f g acc) index =
  (fun z =>
     z + (if ie_type_eqb
               (ie_type (map_index map_data_ (cx + cy * c_map_size)%nat))
               element_type &&
             (ie_index (map_index map_data_ (cx + cy * c_map_size)%nat) =? index)%nat
          then delta else 0)) <$> acc_d_z element_type acc index.
Proof using Type.
  intros Hf. unfold transform_target, acc_d_z.
  set (e := map_index map_data_ (cx + cy * c_map_size)%nat).
  destruct (ie_type e), element_type; cbn [ie_type_eqb andb walls_transformation
    models_transformation]; try reflexivity;
    try (symmetry; apply option_fmap_add_0).
  - destruct (Nat.eqb_spec (ie_index e) index) as [->|Hne].
    + rewrite list_lookup_alter_eq.
      destruct (walls_transformation acc !! index); cbn; [|reflexivity].
      f_equal. apply Hf.
    + rewrite list_lookup_alter_ne by exact Hne.
      symmetry. apply option_fmap_add_0.
  - destruct (Nat.eqb_spec (ie_index e) index) as [->|Hne].
    + rewrite list_lookup_alter_eq.
      destruct (models_transformation acc !! index); cbn; [|reflexivity].
      f_equal. apply Hf.
    + rewrite list_lookup_alter_ne by exact Hne.
      symmetry. apply option_fmap_add_0.
Qed.

Lemma acc_d_z_move_command (stage : R) (acc : MoveAcc) (command : ActionCommand)
    (element_type : IndexElement.Type_) (index : nat) :
  acc_d_z element_type (move_command stage acc command) index =
  (fun z => z + up_height command element_type index * stage) <$>
    acc_d_z element_type acc index.
Proof using Type.
  unfold move_command, up_height, command_targets.
  destruct (cmd_id command);
    try (rewrite Rmult_0_l; symmetry; apply option_fmap_add_0).
  - rewrite (acc_d_z_transform_target _ _ _ _ 0)
      by (intros tr; cbn; lra).
    rewrite Rmult_0_l. destruct (_ && _); reflexivity.
  - rewrite (acc_d_z_transform_target _ _ _ _ 0)
      by (intros tr; cbn; lra).
    rewrite Rmult_0_l. destruct (_ && _); reflexivity.
  - rewrite (acc_d_z_transform_target _ _ _ _ 0)
      by (intros tr; cbn; lra).
    rewrite Rmult_0_l. destruct (_ && _); reflexivity.
  - rewrite (acc_d_z_transform_target _ _ _ _ 0)
      by (intros tr; cbn; lra).
    rewrite Rmult_0_l. destruct (_ && _); reflexivity.
  - rewrite (acc_d_z_transform_target _ _ _ _
               (arg command 2 * g_commands_coords_scale * 4 * stage))
      by (intros tr; reflexivity).
    destruct (_ && _); [reflexivity|].
    rewrite Rmult_0_l. reflexivity.
Qed.

Lemma acc_d_z_commands (stage : R) (element_type : IndexElement.Type_)
    (index : nat) (commands : list ActionCommand) :
  forall acc,
    acc_d_z element_type (foldl (move_command stage) acc commands) index =
    (fun z => z + sum_R (map (fun command =>
                                up_height command element_type index * stage)
                             commands)) <$>
      acc_d_z element_type acc index.
Proof using Type.
  induction commands as [|c commands IH]; intros acc.
  - cbn. symmetry. apply option_fmap_add_0.
  - cbn [foldl map]. rewrite IH, acc_d_z_move_command.
    destruct (acc_d_z element_type acc index);
      cbn [fmap option_fmap option_map]; [|reflexivity].
    f_equal. unfold sum_R. cbn [foldr]. lra.
Qed.

Lemma acc_d_z_procedures (m : Map) (element_type : IndexElement.Type_)
    (index : nat) (indices : list nat) :
  forall acc,
    acc_d_z element_type (foldl (move_procedure m) acc indices) index =
    (fun z => z + sum_R (flat_map (procedure_lifts m element_type index)
                                  indices)) <$>
      acc_d_z element_type acc index.
Proof using Type.
  induction indices as [|p indices IH]; intros acc.
  - cbn. symmetry. apply option_fmap_add_0.
  - cbn [foldl flat_map]. rewrite IH, sum_R_app.
    unfold move_procedure, procedure_lifts.
    destruct (procedures_ m !! p) as [ps|].
    + rewrite acc_d_z_commands.
      destruct (acc_d_z element_type acc index);
        cbn [fmap option_fmap option_map]; [|reflexivity].
      f_equal. lra.
    + destruct (acc_d_z element_type acc index);
        cbn [fmap option_fmap option_map]; [|reflexivity].
      f_equal. change (sum_R []) with 0. lra.
Qed.

Lemma acc_d_z_accumulate (m : Map) (element_type : IndexElement.Type_)
    (index : nat) :
  acc_d_z element_type (accumulate_transformations m) index =
  match element_type with
  | IndexElement.DynamicWall =>
    (fun _ => lift_of m element_type index) <$> dynamic_walls_ m !! index
  | IndexElement.StaticModel =>
    (fun _ => lift_of m element_type index) <$> static_models_ m !! index
  | _ => None
  end.
Proof using Type.
  unfold accumulate_transformations. rewrite acc_d_z_procedures.
  fold (lift_of m element_type index).
  unfold acc_d_z; destruct element_type; try reflexivity;
    cbn [walls_transformation models_transformation].
  - change (map ?f ?l) with (f <$> l). rewrite list_lookup_fmap.
    destruct (dynamic_walls_ m !! index); cbn; [|reflexivity]. f_equal. lra.
  - change (map ?f ?l) with (f <$> l). rewrite list_lookup_fmap.
    destruct (static_models_ m !! index); cbn; [|reflexivity]. f_equal. lra.
Qed.

Lemma lookup_map_indexed {A B} (f : nat * A -> B) (l : list A) (i : nat) :
  map f (indexed l) !! i = (fun a => f (i, a)) <$> l !! i.
Proof using Type.
  unfold indexed.
  assert (Hgen : forall n, map f (combine (seq n (length l)) l) !! i =
                           (fun a => f ((n + i)%nat, a)) <$> l !! i).
  { revert i. induction l as [|a l IH]; intros i n; [reflexivity|].
    destruct i as [|i]; cbn.
    - rewrite Nat.add_0_r. reflexivity.
    - change (map f (combine (seq (S n) (length l)) l) !! i =
              (fun a0 => f ((n + S i)%nat, a0)) <$> l !! i).
      rewrite IH. replace (S n + i)%nat with (n + S i)%nat by lia. reflexivity. }
  apply (Hgen 0%nat).
Qed.

(** X21.  [Map::MoveMapObjects] and the heights.  After it, the height of a
    dynamic wall is its lift, and the height of a static model is its base
    height plus its lift, where the lift of an object is the sum, over the
    [Up] commands that name it, of the height of the command times the
    absolute stage of its procedure; the texture of a wall and, of a model,
    everything but position and angle are kept.  With every procedure at
    the absolute stage 0 (idle or waiting to start) nothing is lifted. *)
Theorem MoveMapObjects_lift (m : Map) :
  procedures_ (MoveMapObjects m) = procedures_ m /\
  (forall w wall, dynamic_walls_ m !! w = Some wall ->
     exists wall', dynamic_walls_ (MoveMapObjects m) !! w = Some wall' /\
       wall_z wall' = lift_of m IndexElement.DynamicWall w /\
       texture_id wall' = texture_id wall) /\
  (forall i model, static_models_ m !! i = Some model ->
     exists model', static_models_ (MoveMapObjects m) !! i = Some model' /\
       v3z (pos model') = baze_z model + lift_of m IndexElement.StaticModel i /\
       baze_z model' = baze_z model /\ model_id model' = model_id model /\
       health model' = health model /\ picked model' = picked model /\
       animation_state model' = animation_state model /\
       animation_start_time model' = animation_start_time model /\
       animation_start_frame model' = animation_start_frame model /\
       current_animation_frame model' = current_animation_frame model) /\
  ((forall procedure_state, procedure_state ∈ procedures_ m ->
      absolute_action_stage procedure_state = 0) ->
   forall element_type index, lift_of m element_type index = 0).
Proof using Type.
  split; [reflexivity|]. split; [|split].
  - intros w wall Hw. unfold MoveMapObjects.
    cbn [dynamic_walls_ set_static_models_ set_dynamic_walls_].
    rewrite lookup_map_indexed, Hw. cbn [fmap option_fmap option_map].
    eexists. split; [reflexivity|]. unfold apply_wall_transformation.
    cbn [fst snd wall_z texture_id]. split; [|reflexivity].
    pose proof (acc_d_z_accumulate m IndexElement.DynamicWall w) as H.
    unfold acc_d_z in H. rewrite Hw in H. cbn in H.
    rewrite nth_lookup.
    destruct (walls_transformation (accumulate_transformations m) !! w) as [tr|];
      [|discriminate].
    cbn in H |- *. injection H as ->. reflexivity.
  - intros i model Hi. unfold MoveMapObjects.
    cbn [static_models_ set_static_models_ set_dynamic_walls_].
    rewrite lookup_map_indexed, Hi. cbn [fmap option_fmap option_map].
    eexists. split; [reflexivity|]. unfold apply_model_transformation.
    cbn [fst snd].
    pose proof (acc_d_z_accumulate m IndexElement.StaticModel i) as H.
    unfold acc_d_z in H. rewrite Hi in H. cbn in H.
    rewrite nth_lookup.
    destruct (models_transformation (accumulate_transformations m) !! i)
      as [[tr a]|]; [|discriminate].
    cbn in H |- *. injection H as ->. repeat split.
  - intros Hrest element_type index. unfold lift_of.
    generalize (seq 0 (length (procedures_ m))). intros indices.
    induction indices as [|p indices IH]; [reflexivity|].
    cbn [flat_map]. rewrite sum_R_app, IH, Rplus_0_r.
    unfold procedure_lifts.
    destruct (procedures_ m !! p) as [ps|] eqn:Hps; [|reflexivity].
    rewrite (Hrest ps) by (eapply list_elem_of_lookup_2; exact Hps).
    generalize (action_commands (procedure_at p)). intros commands.
    induction commands as [|c commands IHc]; [reflexivity|].
    cbn [map]. unfold sum_R in *. cbn [foldr]. rewrite IHc. lra.
Qed.

Lemma map_const_length {A B C} (c : C) (l1 : list A) (l2 : list B) :
  length l1 = length l2 -> map (fun _ => c) l1 = map (fun _ => c) l2.
Proof using Type.
  revert l2. induction l1 as [|a l1 IH]; intros [|b l2] H; try discriminate;
    [reflexivity|]. cbn. f_equal. apply IH. cbn in H. lia.
Qed.

Lemma length_indexed {A} (l : list A) : length (indexed l) = length l.
Proof using Type.
  unfold indexed. rewrite length_combine, length_seq. lia.
Qed.

(** X22.  [Map::MoveMapObjects] recomputes the placement of the dynamic walls and
    of the static models from the level data and the stages of the
    procedures; it accumulates nothing from call to call: a second call
    right after a first changes nothing. *)
Theorem MoveMapObjects_idempotent (m : Map) :
  MoveMapObjects (MoveMapObjects m) = MoveMapObjects m.
Proof using Type.
  assert (Hacc : accumulate_transformations (MoveMapObjects m) =
                 accumulate_transformations m).
  { unfold accumulate_transformations, MoveMapObjects.
    cbn [procedures_ dynamic_walls_ static_models_ set_static_models_
         set_dynamic_walls_].
    rewrite (map_const_length Transformation_Clear
               (map _ (indexed (dynamic_walls_ m))) (dynamic_walls_ m))
      by (rewrite length_map; apply length_indexed).
    rewrite (map_const_length (Transformation_Clear, 0)
               (map _ (indexed (static_models_ m))) (static_models_ m))
      by (rewrite length_map; apply length_indexed).
    reflexivity. }
  unfold MoveMapObjects at 1. rewrite Hacc. unfold MoveMapObjects.
  cbn [procedures_ dynamic_walls_ static_models_ set_static_models_
       set_dynamic_walls_].
  set (acc := accumulate_transformations m).
  assert (Hw : map (apply_wall_transformation acc)
                 (indexed (map (apply_wall_transformation acc)
                               (indexed (dynamic_walls_ m)))) =
               map (apply_wall_transformation acc) (indexed (dynamic_walls_ m))).
  { apply list_eq. intros i. rewrite !lookup_map_indexed.
    destruct (dynamic_walls_ m !! i); reflexivity. }
  assert (Hm : map (apply_model_transformation acc)
                 (indexed (map (apply_model_transformation acc)
                               (indexed (static_models_ m)))) =
               map (apply_model_transformation acc) (indexed (static_models_ m))).
  { apply list_eq. intros i. rewrite !lookup_map_indexed.
    destruct (static_models_ m !! i) as [model|]; [|reflexivity].
    cbn [fmap option_fmap option_map]. f_equal.
    unfold apply_model_transformation. cbn [fst snd].
    destruct (nth i (models_transformation acc) (Transformation_Clear, 0))
      as [tr a]. reflexivity. }
  rewrite Hw, Hm. reflexivity.
Qed.

Lemma absolute_action_stage_range (clock : Time) (procedure_state : ProcedureState) :
  movement_ok clock (movement_of procedure_state) ->
  0 <= absolute_action_stage procedure_state <= 1.
Proof using Type.
  destruct procedure_state as [lk fp s stage last].
  unfold movement_ok, movement_of, absolute_action_stage. cbn.
  destruct s; intros [H0 H]; lra.
Qed.

(** X23.  In every state the procedures can reach, with all the [Up] commands
    that name an object lifting it upward, the lift of the object is
    between 0 and the sum of the heights of these commands: a door is never
    below its closed position and never above its open one. *)
Theorem lift_of_reachable (clock : Time) (m : Map)
    (element_type : IndexElement.Type_) (index : nat) :
  0 <= procedures_speed_scale ->
  reachable clock m ->
  (forall p command, command ∈ action_commands (procedure_at p) ->
     0 <= up_height command element_type index) ->
  0 <= lift_of m element_type index <= full_lift_of m element_type index.
Proof using Type.
  intros Hscale Hreach Hup. unfold lift_of, full_lift_of.
  generalize (seq 0 (length (procedures_ m))). intros indices.
  induction indices as [|p indices IH]; [cbn; lra|].
  cbn [flat_map]. rewrite !sum_R_app.
  assert (Hp : 0 <= sum_R (procedure_lifts m element_type index p) <=
               sum_R (map (fun command => up_height command element_type index)
                          (action_commands (procedure_at p)))).
  { unfold procedure_lifts.
    assert (Hall : forall command, command ∈ action_commands (procedure_at p) ->
                     0 <= up_height command element_type index)
      by (intros c Hc; apply (Hup p c Hc)).
    revert Hall. generalize (action_commands (procedure_at p)). intros commands Hall.
    destruct (procedures_ m !! p) as [ps|] eqn:Hps.
    - assert (Hstage : 0 <= absolute_action_stage ps <= 1).
      { apply (absolute_action_stage_range clock).
        apply (reachable_movement_ok clock m Hscale Hreach p).
        rewrite movements_lookup, Hps. reflexivity. }
      induction commands as [|c commands IHc]; [cbn; lra|].
      cbn [map]. unfold sum_R in *. cbn [foldr].
      assert (Hc : 0 <= up_height c element_type index)
        by (apply Hall, list_elem_of_here).
      assert (Hrest : forall command, command ∈ commands ->
                        0 <= up_height command element_type index)
        by (intros c' Hc'; apply Hall, list_elem_of_further, Hc').
      specialize (IHc Hrest). nra.
    - change (sum_R []) with 0. split; [lra|].
      induction commands as [|c commands IHc]; [cbn; lra|].
      cbn [map]. unfold sum_R in *. cbn [foldr].
      assert (Hc : 0 <= up_height c element_type index)
        by (apply Hall, list_elem_of_here).
      assert (Hrest : forall command, command ∈ commands ->
                        0 <= up_height command element_type index)
        by (intros c' Hc'; apply Hall, list_elem_of_further, Hc').
      specialize (IHc Hrest). lra. }
  lra.
Qed.

End MapModel.

(** * Concrete instances *)

(** Evaluation of the comparisons of [R] at concrete numbers. *)
Ltac Rcompare :=
  repeat match goal with
  | |- context [Rlt_dec ?a ?b] => destruct (Rlt_dec a b); try lra
  | |- context [Rle_dec ?a ?b] => destruct (Rle_dec a b); try lra
  end.

(** ** Collision between monsters *)

Lemma example_pair_collides :
  pair_collides example_resources example_player example_monster.
Proof.
  unfold pair_collides, collision_radius, monster_z_minmax, SquareLength2,
    sub2, add2, xy; simpl.
  repeat split; try lia; lra.
Qed.

Lemma example_pair_correction :
  pair_correction example_resources example_player example_monster =
  mkVec2 1 0.
Proof.
  unfold pair_correction, collision_radius, Normalize2, Length2,
    SquareLength2, sub2, scale2, xy; simpl.
  replace ((1 - 0) * (1 - 0) + (0 - 0) * (0 - 0)) with 1 by ring.
  replace ((0 - 1) * (0 - 1) + (0 - 0) * (0 - 0)) with 1 by ring.
  rewrite sqrt_1, Rinv_1. f_equal; ring.
Qed.

(** C1 as stated fails: a player and a monster that interpenetrate; the
    pass moves the player by the whole correction and leaves the monster
    where it is. *)
Lemma collide_player_monster_counterexample :
  pair_collides example_resources example_player example_monster /\
  MonsterId example_player = 0%nat /\ MonsterId example_monster <> 0%nat /\
  Position (fst (collide_monsters example_resources example_player
                   example_monster)) = mkVec3 (-1) 0 0 /\
  Position (fst (collide_monsters example_resources example_player
                   example_monster)) <> Position example_player /\
  Position (snd (collide_monsters example_resources example_player
                   example_monster)) = Position example_monster.
Proof.
  assert (E : Position (fst (collide_monsters example_resources example_player
                               example_monster)) = mkVec3 (-1) 0 0).
  { rewrite (collide_pair_colliding _ _ _ example_pair_collides).
    rewrite example_pair_correction. unfold first_monster_k_of.
    simpl. unfold Vec3_of, sub2, scale2; simpl. f_equal; ring. }
  split; [exact example_pair_collides|]. split; [reflexivity|].
  split; [discriminate|]. split; [exact E|]. split.
  - rewrite E. simpl. intros H. injection H. lra.
  - rewrite (collide_pair_colliding _ _ _ example_pair_collides).
    rewrite example_pair_correction. unfold first_monster_k_of.
    simpl. unfold Vec3_of, add2, scale2; simpl. f_equal; ring.
Qed.

Lemma collide_monsters_correction_witness :
  pair_collides example_resources example_player example_monster /\
  xy (Position (fst (collide_monsters example_resources example_player
                       example_monster))) =
    sub2 (xy (Position example_player))
         (pair_correction example_resources example_player example_monster).
Proof.
  split; [exact example_pair_collides|].
  apply (collide_monsters_correction example_resources example_player
           example_monster example_pair_collides);
    [reflexivity | discriminate].
Defined.

(** ** Collision with the map *)

Lemma CollideWithMap_z_range_witness :
  0 < 1 < 2 /\
  0 <= v3z (fst (CollideWithMap example_map_data 0 (fun _ _ _ _ => None)
                   (fun _ _ => []) example_empty_map (mkVec3 0 0 5) 1 1)) <= 2 - 1.
Proof.
  assert (H : 0 < 1 < 2) by lra.
  split; [exact H|].
  apply (CollideWithMap_z_range example_map_data 0 (fun _ _ _ _ => None)
           (fun _ _ => []) example_empty_map (mkVec3 0 0 5) 1 1 H).
Defined.

(** ** The hold at the end of the movement *)

(** C3 as stated fails when [back_wait] is zero: five seconds after the
    door entered [BackWait] a [Tick] leaves it there. *)
Lemma Tick_BackWait_zero_counterexample :
  let m := example_map [in_state MovementState.BackWait 0 0;
                        in_state MovementState.None 0 0] in
  back_wait_s (procedure_at example_level 0) = 0 /\
  movements m !! 0%nat = Some (MovementState.BackWait, 0, 0) /\
  back_wait_s (procedure_at example_level 0) <= 5 - 0 /\
  movements (Tick_procedures example_level 64 0 1 5 m) !! 0%nat =
    Some (MovementState.BackWait, 0, 0).
Proof.
  cbn zeta. split; [reflexivity|]. split; [reflexivity|].
  split; [cbn; lra|].
  rewrite movements_Tick_procedures. cbn.
  destruct (Rlt_dec 0 0) as [H|_]; [lra|reflexivity].
Qed.

Lemma Tick_BackWait_witness :
  let m := example_map [in_state MovementState.BackWait 0 0;
                        in_state MovementState.BackWait 0 0] in
  movements (Tick_procedures example_level 64 0 1 5 m) !! 1%nat =
    Some (MovementState.ReverseMovement, 0, 5).
Proof.
  cbn zeta.
  assert (Hpos : 0 < back_wait_s (procedure_at example_level 1)) by (cbn; lra).
  assert (Hwait : back_wait_s (procedure_at example_level 1) <=
                  5 - last_state_change_time (in_state MovementState.BackWait 0 0))
    by (cbn; lra).
  apply (Tick_BackWait example_level 64 0 1 5
           (example_map [in_state MovementState.BackWait 0 0;
                         in_state MovementState.BackWait 0 0])
           1 (in_state MovementState.BackWait 0 0) eq_refl eq_refl);
    assumption.
Defined.

(** ** Stage bounds and edges *)

Local Abbreviation example_reachable :=
  (reachable example_level 64 0 1 example_gate).
Local Abbreviation example_run :=
  (run_call example_level 64 0 1 example_gate).
Local Abbreviation example_Tick :=
  (Tick_procedures example_level 64 0 1).

Lemma example_initial_reachable : example_reachable 0 example_initial_map.
Proof. apply reachable_initial. reflexivity. Qed.

Lemma example_waiting_reachable : example_reachable 0 example_waiting_map.
Proof.
  apply (reachable_call example_level 64 0 1 example_gate 0
           example_initial_map (CallProcedureProcessShoot 0 0)
           example_initial_reachable).
  cbn. lra.
Qed.

Lemma example_waiting_movements :
  movements example_waiting_map !! 0%nat = Some (MovementState.StartWait, 0, 0).
Proof. reflexivity. Qed.

Lemma example_moving_movements :
  movements (example_Tick 10 example_waiting_map) !! 0%nat =
  Some (MovementState.Movement, 0, 10).
Proof.
  rewrite movements_Tick_procedures, example_waiting_movements. cbn.
  destruct (Rle_dec 10 (10 - 0)) as [_|N]; [reflexivity|lra].
Qed.

(** C2 as stated fails twice.  A procedure that waits ten seconds before
    it moves has stage 5 after five seconds in [StartWait]; and
    [ProcedureProcessDestroy] takes a procedure from [Movement] back to
    [StartWait], which is not one of the listed edges. *)
Lemma stage_and_edges_counterexample :
  (exists clock m,
     example_reachable clock m /\
     movements m !! 0%nat = Some (MovementState.StartWait, 5, 0) /\
     ~ 5 <= 1) /\
  (exists clock m c,
     example_reachable clock m /\ clock <= call_time c /\
     movements m !! 0%nat = Some (MovementState.Movement, 0, 10) /\
     movements (example_run c m) !! 0%nat =
       Some (MovementState.StartWait, 0, 10) /\
     ~ listed_edge MovementState.Movement MovementState.StartWait).
Proof.
  split.
  - exists 5, (example_Tick 5 example_waiting_map).
    split; [|split; [|lra]].
    + apply (reachable_call example_level 64 0 1 example_gate 0 _ (CallTick 5)
               example_waiting_reachable). cbn. lra.
    + rewrite movements_Tick_procedures, example_waiting_movements. cbn.
      destruct (Rle_dec 10 (5 - 0)) as [H|_]; [lra|].
      unfold new_stage_of. cbn.
      destruct (Rlt_dec 0 1) as [_|N]; [|lra].
      replace ((5 - 0) * 1 * 1) with 5 by lra. reflexivity.
  - exists 10, (example_Tick 10 example_waiting_map),
      (CallProcedureProcessDestroy 0 10).
    split; [|split; [|split; [|split]]].
    + apply (reachable_call example_level 64 0 1 example_gate 0 _ (CallTick 10)
               example_waiting_reachable). cbn. lra.
    + cbn. lra.
    + exact example_moving_movements.
    + cbn [run_call]. rewrite movements_ProcedureProcessDestroy.
      rewrite list_lookup_alter_eq, example_moving_movements. reflexivity.
    + cbn. auto.
Qed.

Lemma procedures_stage_and_edges_witness :
  0 <= 1 /\ example_reachable 0 example_initial_map /\
  forall q ps, procedures_ example_initial_map !! q = Some ps ->
    0 <= movement_stage ps /\
    (movement_state ps = MovementState.Movement \/
     movement_state ps = MovementState.BackWait \/
     movement_state ps = MovementState.ReverseMovement ->
     movement_stage ps < 1).
Proof.
  assert (H : 0 <= 1) by lra.
  split; [exact H|]. split; [exact example_initial_reachable|].
  exact (proj1 (procedures_stage_and_edges example_level 64 0 1 example_gate
                  0 example_initial_map H example_initial_reachable)).
Defined.

(** ** Early reversal *)

Lemma ReturnProcedure_cases_witness :
  0 <= 1 /\ example_reachable 0 example_initial_map /\ 0 <= 5 /\
  ReturnProcedure example_level 1 0 5 example_initial_map =
  example_initial_map.
Proof.
  assert (H : 0 <= 1) by lra. assert (H5 : 0 <= 5) by lra.
  split; [exact H|]. split; [exact example_initial_reachable|].
  split; [exact H5|].
  apply (ReturnProcedure_cases example_level 64 0 1 example_gate 0 5
           example_initial_map 0 (in_state MovementState.None 0 0) H
           example_initial_reachable H5 eq_refl).
  right. left. reflexivity.
Defined.

(** ** Activation of procedures *)

Lemma TryActivateProcedure_gate_witness :
  example_gate keyless_player 1%nat 0 = (true, keyless_player) /\
  exists before after,
    snd (fst (TryActivateProcedure example_level example_gate 1 0
                keyless_player [] example_initial_map)) =
    [] ++ before ++ mkTextMessage 7 :: after.
Proof.
  split; [reflexivity|].
  destruct (TryActivateProcedure_gate example_level example_gate 1 0
              keyless_player keyless_player [] example_initial_map
              (in_state MovementState.None 0 0) eq_refl eq_refl)
    as (ps' & _ & Hfail & _).
  apply Hfail; [left; reflexivity|]. cbn. discriminate.
Defined.

(** C8 as stated fails for a procedure that is already running: the second
    door, which needs the red key, is started by a shot (which asks for no
    key) and waits in [StartWait]; an attempt the player permits, made
    without the key, sends the lock message 7 and leaves the door in
    [StartWait], not in [None]. *)
Lemma TryActivateProcedure_gate_counterexample :
  let m := ProcedureProcessShoot 1 0 example_initial_map in
  example_reachable 0 m /\
  example_gate keyless_player 1%nat 0 = (true, keyless_player) /\
  have_necessary_keys (procedure_at example_level 1) keyless_player = false /\
  snd (fst (TryActivateProcedure example_level example_gate 1 0
              keyless_player [] m)) = [mkTextMessage 7] /\
  movements (snd (TryActivateProcedure example_level example_gate 1 0
                    keyless_player [] m)) !! 1%nat =
    Some (MovementState.StartWait, 0, 0) /\
  MovementState.StartWait <> MovementState.None.
Proof.
  cbv zeta. split; [|split; [|split; [|split; [|split]]]];
    try reflexivity; try discriminate.
  apply (reachable_call example_level 64 0 1 example_gate 0
           example_initial_map (CallProcedureProcessShoot 1 0)
           example_initial_reachable).
  cbn. lra.
Qed.

(** ** Nearest hit *)

Local Abbreviation example_ProcessShot :=
  (ProcessShot example_walled_level 64 0 255 example_RayCast
     example_RayIntersectWall no_cylinder no_plane no_TryShot).

(** A shot along the x axis with the wall three units away and a reach of
    ten units returns the wall, three units from the start; with a reach of
    two units it returns no hit. *)
Lemma ProcessShot_wall_example :
  example_ProcessShot example_empty_map (mkVec3 0 0 1) (mkVec3 1 0 0) 10 0%nat =
    mkHitResult ObjectType.StaticWall 0
      (add3 (mkVec3 0 0 1) (scale3 (mkVec3 1 0 0) 3)) /\
  example_ProcessShot example_empty_map (mkVec3 0 0 1) (mkVec3 1 0 0) 2 0%nat =
    no_hit.
Proof.
  unfold ProcessShot, ProcessShot_acc. cbn.
  unfold process_candidate_shot_pos, SquareLength3, sub3, add3, scale3. cbn.
  split.
  - destruct (Rlt_dec _ _) as [_|N]; [reflexivity|]. exfalso. apply N. lra.
  - destruct (Rlt_dec _ _) as [H|_]; [|reflexivity]. exfalso. lra.
Qed.

(** ** Rockets *)

Local Abbreviation example_tick_rocket :=
  (tick_rocket example_walled_level example_resources 64 0 255 1 10 20 1000
     example_RayCast example_RayIntersectWall no_cylinder no_plane no_TryShot
     example_Hit example_Rotate).
Local Abbreviation example_rocket_advance :=
  (rocket_advance example_walled_level example_resources 64 0 255 1 10 20 1000
     example_RayCast example_RayIntersectWall no_cylinder no_plane no_TryShot
     example_Rotate).

Lemma reflecting_rocket_tick_witness :
  rockets_ example_grenade_map !! 0%nat = Some example_grenade /\
  HasInfiniteSpeed example_resources example_grenade = false /\
  reflect (rocket_description_at example_resources
             (rocket_type_id example_grenade)) = true /\
  normalized_direction
    (snd (fst (example_rocket_advance 1 1 example_grenade_map example_grenade))) =
  Normalize3
    (rocket_speed
       (snd (fst (example_rocket_advance 1 1 example_grenade_map
                    example_grenade)))).
Proof.
  split; [reflexivity|]. split; [reflexivity|]. split; [reflexivity|].
  apply (reflecting_rocket_tick example_walled_level example_resources 64 0 255
           1 10 20 1000 example_RayCast example_RayIntersectWall no_cylinder
           no_plane no_TryShot example_Hit example_Rotate 1 1 0
           example_grenade_map example_grenade eq_refl eq_refl eq_refl).
Defined.

(** ** Mines *)

Local Abbreviation example_mine_need_kill :=
  (mine_need_kill example_resources 1 2 (1 / 2)).
Local Abbreviation example_Tick_mines :=
  (Tick_mines example_resources 1 2 (1 / 2)).
Local Abbreviation example_run_ballistic :=
  (run_ballistic example_walled_level example_resources 64 0 255 1 2 (1 / 2)
     1 10 20 1000 example_RayCast example_RayIntersectWall no_cylinder
     no_plane no_TryShot 16 example_Hit example_Rotate).

Lemma example_activation_distances_ok :
  activation_distances_ok example_resources 2 (1 / 2) example_mine_map.
Proof. intros mv H. inversion H. Qed.

Lemma example_mine_too_old : example_mine_need_kill 31 example_mine example_mine_map = true.
Proof.
  unfold mine_need_kill, mine_too_old. cbn.
  destruct (Rlt_dec 30 (31 - 0)) as [_|N]; [reflexivity|lra].
Qed.

Lemma mine_lifetime_witness :
  activation_distances_ok example_resources 2 (1 / 2) example_mine_map /\
  0 < 1 /\
  mine_death example_mine ∈
    dynamic_items_death_messages_ (example_Tick_mines 31 example_mine_map) /\
  example_mine ∉
    mines_ (foldl example_run_ballistic (example_Tick_mines 31 example_mine_map)
              [CallPlantMine (mkVec3 5 5 0) 31; CallTickBallistics 32 1]).
Proof.
  assert (Hprep : 0 < 1) by lra.
  split; [exact example_activation_distances_ok|].
  split; [exact Hprep|].
  destruct (mine_lifetime example_walled_level example_resources 64 0 255
           1 2 (1 / 2) 1 10 20 1000 example_RayCast example_RayIntersectWall
           no_cylinder no_plane no_TryShot 16 example_Hit example_Rotate
           31 example_mine_map example_activation_distances_ok Hprep)
    as [_ [Hmines _]].
  destruct (Hmines example_mine (list_elem_of_here _ _)) as [_ Hkill].
  destruct (Hkill example_mine_too_old) as (_ & Hdeath & _ & Hgone).
  split; [exact Hdeath|]. apply Hgone.
  repeat constructor; cbn; lra.
Defined.

(** ** A planted mine *)

Lemma PlantMine_inert_witness :
  1 / 2 - 0 < 1 /\ 1 / 2 - 0 <= 30 /\
  planted_mine example_map_data (mkVec3 5 5 0) 0 example_empty_map ∈
    mines_ (example_Tick_mines (1 / 2)
              (PlantMine example_map_data 16 (mkVec3 5 5 0) 0
                 example_empty_map)).
Proof.
  assert (H1 : 1 / 2 - 0 < 1) by lra.
  assert (H2 : 1 / 2 - 0 <= 30) by lra.
  split; [exact H1|]. split; [exact H2|].
  pose proof (PlantMine_inert example_map_data example_resources 1 2 (1 / 2)
                16 (mkVec3 5 5 0) 0 (1 / 2) example_empty_map H1 H2) as H.
  cbv zeta in H. destruct H as (_ & _ & _ & _ & _ & _ & H). exact H.
Defined.

(** ** Identities of rockets and mines *)

Lemma example_ballistic_ids_fresh : ballistic_ids_fresh 16 1 example_mine_map.
Proof.
  assert (H : (1 < EntityId_count 16)%nat)
    by (apply Nat.ltb_lt; vm_compute; reflexivity).
  apply (ballistic_ids_fresh_below 16 example_mine_map).
  - exact H.
  - cbn. apply NoDup_singleton.
  - cbn. constructor; [lia|constructor].
Qed.

Lemma ballistic_ids_distinct_witness :
  let calls :=
    [CallPlantMine (mkVec3 1 1 0) 1;
     CallShoot 0 2 (mkVec3 0 0 1) (mkVec3 1 0 0) 1;
     CallTickBallistics 2 1] in
  ballistic_ids_fresh 16 1 example_mine_map /\
  (1 + allocations calls <= EntityId_count 16)%nat /\
  ballistic_ids_fresh 16 (1 + allocations calls)
    (foldl example_run_ballistic example_mine_map calls).
Proof.
  cbv zeta.
  assert (H : (1 + allocations
                     [CallPlantMine (mkVec3 1 1 0) 1;
                      CallShoot 0 2 (mkVec3 0 0 1) (mkVec3 1 0 0) 1;
                      CallTickBallistics 2 1] <= EntityId_count 16)%nat)
    by (apply Nat.leb_le; vm_compute; reflexivity).
  split; [exact example_ballistic_ids_fresh|]. split; [exact H|].
  apply (ballistic_ids_distinct example_walled_level example_resources 64 0
           255 1 2 (1 / 2) 1 10 20 1000 example_RayCast
           example_RayIntersectWall no_cylinder no_plane no_TryShot 16
           example_Hit example_Rotate 1
           [CallPlantMine (mkVec3 1 1 0) 1;
            CallShoot 0 2 (mkVec3 0 0 1) (mkVec3 1 0 0) 1;
            CallTickBallistics 2 1]
           example_mine_map example_ballistic_ids_fresh H).
Defined.

(** ** The smoke trail *)

Lemma smoke_trail_on_segment_witness :
  0 <= track_length example_grenade /\
  snd (smoke_trail 7 example_grenade (mkVec3 0 0 0)) =
  track_length example_grenade +
  Length3 (sub3 (mkVec3 0 0 0) (previous_position example_grenade)) * 2.
Proof.
  assert (H : 0 <= track_length example_grenade) by (cbn; lra).
  split; [exact H|].
  pose proof (smoke_trail_on_segment 7 example_grenade (mkVec3 0 0 0) H) as Hs.
  cbv zeta in Hs. exact (proj1 Hs).
Defined.

(** ** The first message of a procedure *)

Lemma first_message_once_witness :
  let m := example_map [in_state MovementState.None 0 0] in
  procedures_ m !! 0%nat = Some (in_state MovementState.None 0 0) /\
  exists ps',
    procedures_
      (snd (TryActivateProcedure example_greeting_level example_gate 0 0
              keyless_player [] m)) !! 0%nat = Some ps' /\
    first_message_printed ps' = true.
Proof.
  cbv zeta.
  assert (H : procedures_ (example_map [in_state MovementState.None 0 0])
                !! 0%nat = Some (in_state MovementState.None 0 0))
    by reflexivity.
  split; [exact H|].
  destruct (first_message_once example_greeting_level 64 0 1 example_gate 0
              (example_map [in_state MovementState.None 0 0])
              (in_state MovementState.None 0 0) H) as [Hfirst _].
  destruct (Hfirst 0 keyless_player keyless_player [] eq_refl)
    as (ps' & Hps' & Hprinted & _).
  - cbn. discriminate.
  - exists ps'. split; [exact Hps'|exact Hprinted].
Defined.

(** ** The animation of a switch *)

Lemma example_played : float_round ((1 - 0) * 1) = 1%Z.
Proof.
  unfold float_round. destruct (Rle_dec 0 ((1 - 0) * 1)) as [_|N]; [|lra].
  symmetry. apply Int_part_spec. lra.
Qed.

Lemma switch_animation_settles_witness :
  animation_state example_switch_model = AnimationState.SingleFrame /\
  model_at example_switch_level (model_id example_switch_model) =
    Some (mkModel 0 1 4) /\
  (1 <= frame_count (mkModel 0 1 4) < 2 ^ 32)%Z /\
  0 <= (1 - 0) * 1 /\
  current_animation_frame
    (tick_static_model example_switch_level 1 1
       (activate_switch_model example_switch_level false 0
          example_switch_model)) = 1%Z /\
  current_animation_frame
    (tick_static_model example_switch_level 1 1
       (activate_switch_model example_switch_level true 0
          example_switch_model)) = 2%Z.
Proof.
  assert (H3 : (1 <= frame_count (mkModel 0 1 4) < 2 ^ 32)%Z) by (cbn; lia).
  assert (H4 : 0 <= (1 - 0) * 1) by lra.
  split; [reflexivity|]. split; [reflexivity|]. split; [exact H3|].
  split; [exact H4|].
  pose proof (switch_animation_settles example_switch_level 1 0 1 2
                example_switch_model (mkModel 0 1 4) eq_refl eq_refl H3 H4)
    as H.
  cbv zeta in H. destruct H as [H _]. rewrite example_played in H.
  destruct H as (_ & Hpressed & _ & Hreleased); [cbn; lia|].
  split; [exact Hpressed|exact Hreleased].
Defined.

(** ** The death ticks *)

Lemma death_ticks_additive_witness :
  0 <= 1 /\ 0 <= 0 <= 1 /\ 1 <= 2 /\
  (Z.of_nat (float_to_uint (1 * 2)) < 2 ^ 32)%Z /\
  (death_ticks 1 1 (1 - 0) + death_ticks 1 2 (2 - 1))%Z =
  death_ticks 1 2 (2 - 0).
Proof.
  assert (H0 : 0 <= 1) by lra.
  assert (H1 : 0 <= 0 <= 1) by lra.
  assert (H2 : 1 <= 2) by lra.
  assert (H3 : (Z.of_nat (float_to_uint (1 * 2)) < 2 ^ 32)%Z).
  { replace (1 * 2) with (IZR 2) by lra. unfold float_to_uint.
    rewrite float_to_int_IZR. cbn. lia. }
  split; [exact H0|]. split; [exact H1|]. split; [exact H2|].
  split; [exact H3|].
  exact (proj1 (death_ticks_additive 1 0 1 2 H0 H1 H2 H3)).
Defined.

(** ** Monsters and the map *)

Lemma Tick_collide_with_map_range_witness :
  0 < 1 < walls_height /\
  monsters_ example_monsters_map !! 0%nat =
    Some (0%nat, SetPosition (mkVec3 0 0 5) example_player) /\
  exists monster',
    monsters_
      (Tick_collide_with_map example_map_data example_resources (1 / 2) 0
         (fun _ _ _ _ => None) (fun _ _ => []) 1 (fun _ monster => monster)
         example_monsters_map) !! 0%nat = Some (0%nat, monster') /\
    0 <= v3z (Position monster') <= walls_height - 1.
Proof.
  assert (H : 0 < 1 < walls_height) by (unfold walls_height; lra).
  split; [exact H|]. split; [reflexivity|].
  destruct (Tick_collide_with_map_range example_map_data example_resources
              (1 / 2) 0 (fun _ _ _ _ => None) (fun _ _ => []) 1
              (fun _ monster => monster) example_monsters_map 0 0
              (SetPosition (mkVec3 0 0 5) example_player) H eq_refl)
    as (monster' & Hlookup & _ & Hrest).
  exists monster'. split; [exact Hlookup|].
  cbn in Hrest. destruct Hrest as (_ & _ & Hrange & _). exact Hrange.
Defined.

(** ** The lift of a wall *)

Lemma example_lift_heights (p : nat) (command : ActionCommand) :
  command ∈ action_commands (procedure_at example_lift_level p) ->
  0 <= up_height example_lift_level 64 command IndexElement.DynamicWall 0.
Proof.
  intros Hin. unfold procedure_at in Hin.
  destruct p as [|[|p]]; cbn in Hin.
  - apply list_elem_of_singleton in Hin. subst command.
    unfold up_height. cbn [cmd_id].
    destruct (command_targets _ _ _ _ _);
      unfold arg, g_commands_coords_scale; cbn; lra.
  - inversion Hin.
  - inversion Hin.
Qed.

Lemma lift_of_reachable_witness :
  let m := example_map [in_state MovementState.None 0 0] in
  0 <= 1 /\
  reachable example_lift_level 64 0 1 example_gate 0 m /\
  0 <= lift_of example_lift_level 64 m IndexElement.DynamicWall 0 <=
    full_lift_of example_lift_level 64 m IndexElement.DynamicWall 0.
Proof.
  cbv zeta.
  assert (H : 0 <= 1) by lra.
  assert (Hreach : reachable example_lift_level 64 0 1 example_gate 0
                     (example_map [in_state MovementState.None 0 0]))
    by (apply reachable_initial; reflexivity).
  split; [exact H|]. split; [exact Hreach|].
  apply (lift_of_reachable example_lift_level 64 0 1 example_gate 0
           (example_map [in_state MovementState.None 0 0])
           IndexElement.DynamicWall 0 H Hreach example_lift_heights).
Defined.

(** ** Wind and death zones *)

Lemma ProcessWind_cells_witness :
  (true = true ->
   (-128 <= float_to_int (arg example_wind_command 4) <= 127)%Z /\
   (-128 <= float_to_int (arg example_wind_command 5) <= 127)%Z) /\
  wind_field_ (ProcessWind 64 example_wind_command true example_empty_map)
    (1 + 1 * 64)%nat = (3%Z, (-4)%Z).
Proof.
  assert (Hrange : true = true ->
            (-128 <= float_to_int (arg example_wind_command 4) <= 127)%Z /\
            (-128 <= float_to_int (arg example_wind_command 5) <= 127)%Z).
  { intros _. unfold arg. cbn [nth args example_wind_command].
    rewrite !float_to_int_IZR. lia. }
  split; [exact Hrange|].
  assert (Hx : (1 < 64)%nat) by lia.
  rewrite (proj1 (ProcessWind_cells 64 example_wind_command true
                    example_empty_map Hrange) 1%nat 1%nat Hx).
  unfold command_rect, float_to_uint, arg. cbn [nth args example_wind_command].
  rewrite !float_to_int_IZR. reflexivity.
Defined.

Lemma ProcessDeathZone_cells_witness :
  (true = true ->
   (0 <= float_to_int (arg example_death_command 6) <= 255)%Z) /\
  forall j, (64 * 64 <= j)%nat ->
    death_field_
      (ProcessDeathZone 64 example_death_command true example_empty_map) j =
    death_field_ example_empty_map j.
Proof.
  assert (Hrange : true = true ->
            (0 <= float_to_int (arg example_death_command 6) <= 255)%Z).
  { intros _. unfold arg. cbn [nth args example_death_command].
    rewrite float_to_int_IZR. lia. }
  split; [exact Hrange|].
  exact (proj1 (proj2 (ProcessDeathZone_cells 64 example_death_command true
                         example_empty_map Hrange))).
Defined.

(** * Properties of the sound engine *)

Import SoundEngine.

Lemma Tick_lookup (e : SoundEngine.t) (i : nat) (source : Source)
    (channel : Channel) :
  sources_ e !! i = Some source -> channels e !! i = Some channel ->
  sources_ (SoundEngine.Tick e) !! i =
    Some (fst (tick_channel (global_sounds_ e) source channel)) /\
  channels (SoundEngine.Tick e) !! i =
    Some (snd (tick_channel (global_sounds_ e) source channel)).
Proof.
  intros Hs Hc. unfold SoundEngine.Tick. cbn [sources_ channels].
  change (map ?f ?l) with (f <$> l).
  rewrite !list_lookup_fmap, lookup_zip_with, Hs, Hc. split; reflexivity.
Qed.

(** X24.  [SoundEngine::Tick] keeps the sounds and the number of sources and
    channels.  After it a channel is active exactly when its source is
    busy.  A free source stays free; a busy source whose channel was already
    playing is freed exactly when the channel has played all the samples of
    its sound; the sound of a source never changes.  An active channel
    plays at full volume on both sides. *)
Theorem SoundEngine_Tick_spec (e : SoundEngine.t) :
  length (sources_ e) = length (channels e) ->
  global_sounds_ (SoundEngine.Tick e) = global_sounds_ e /\
  length (sources_ (SoundEngine.Tick e)) = length (sources_ e) /\
  length (channels (SoundEngine.Tick e)) = length (channels e) /\
  channels_follow_sources (SoundEngine.Tick e) /\
  forall i source channel,
    sources_ e !! i = Some source -> channels e !! i = Some channel ->
    exists source' channel',
      sources_ (SoundEngine.Tick e) !! i = Some source' /\
      channels (SoundEngine.Tick e) !! i = Some channel' /\
      is_active channel' = negb (is_free source') /\
      sound_id source' = sound_id source /\
      (is_free source = true -> is_free source' = true) /\
      (is_active channel' = true ->
       volume0 channel' = 1 /\ volume1 channel' = 1) /\
      (is_free source = false -> is_active channel = true ->
       (is_free source' = true <->
        exists sound, src_sound_data channel = Some sound /\
          (sample_count_ sound <= position_samples channel)%nat)).
Proof.
  intros Hlen.
  assert (Hstep : forall g source channel,
            let source' := fst (tick_channel g source channel) in
            let channel' := snd (tick_channel g source channel) in
            is_active channel' = negb (is_free source') /\
            sound_id source' = sound_id source /\
            (is_free source = true -> is_free source' = true) /\
            (is_active channel' = true ->
             volume0 channel' = 1 /\ volume1 channel' = 1) /\
            (is_free source = false -> is_active channel = true ->
             (is_free source' = true <->
              exists sound, src_sound_data channel = Some sound /\
                (sample_count_ sound <= position_samples channel)%nat))).
  { intros g source channel. cbn zeta. unfold tick_channel.
    destruct (is_free source) eqn:Hfree; cbn [fst snd is_active is_free].
    { rewrite Hfree. repeat split; try discriminate; auto. }
    destruct (is_active channel) eqn:Hact;
      cbn [negb is_active src_sound_data position_samples volume0 volume1 andb].
    - destruct (src_sound_data channel) as [sound|] eqn:Hdata.
      + destruct (Nat.leb_spec (sample_count_ sound) (position_samples channel))
          as [Hle|Hgt]; cbn [fst snd is_active is_free sound_id volume0 volume1];
          rewrite ?Hfree; repeat split; try discriminate; auto.
        * intros _. exists sound. auto.
        * intros (sound' & E & Hle). injection E as <-. lia.
      + cbn [fst snd is_active is_free sound_id volume0 volume1].
        rewrite Hfree. repeat split; try discriminate; auto.
        intros (sound' & E & _). discriminate.
    - destruct (sound_at g (sound_id source)) as [sound|];
        [destruct (sample_count_ sound <=? 0)%nat|];
        cbn [fst snd is_active is_free sound_id volume0 volume1];
        rewrite ?Hfree; repeat split; try discriminate; auto. }
  split; [reflexivity|].
  assert (Hl : length (zip_with (tick_channel (global_sounds_ e)) (sources_ e)
                         (channels e)) = length (sources_ e))
    by (apply length_zip_with_l_eq; exact Hlen).
  split; [unfold SoundEngine.Tick; cbn [sources_]; rewrite length_map; exact Hl|].
  split; [unfold SoundEngine.Tick; cbn [channels]; rewrite length_map, Hl;
          exact Hlen|].
  assert (Hall : forall i source channel,
            sources_ e !! i = Some source -> channels e !! i = Some channel ->
            exists source' channel',
              sources_ (SoundEngine.Tick e) !! i = Some source' /\
              channels (SoundEngine.Tick e) !! i = Some channel' /\
              is_active channel' = negb (is_free source') /\
              sound_id source' = sound_id source /\
              (is_free source = true -> is_free source' = true) /\
              (is_active channel' = true ->
               volume0 channel' = 1 /\ volume1 channel' = 1) /\
              (is_free source = false -> is_active channel = true ->
               (is_free source' = true <->
                exists sound, src_sound_data channel = Some sound /\
                  (sample_count_ sound <= position_samples channel)%nat))).
  { intros i source channel Hs Hc.
    destruct (Tick_lookup e i source channel Hs Hc) as [Hs' Hc'].
    do 2 eexists. split; [exact Hs'|]. split; [exact Hc'|].
    apply Hstep. }
  split; [|exact Hall].
  intros i source' channel' Hs' Hc' Hactive.
  assert (Hi : (i < length (sources_ e))%nat).
  { apply lookup_lt_Some in Hs'. unfold SoundEngine.Tick in Hs'.
    cbn [sources_] in Hs'. rewrite length_map, Hl in Hs'. exact Hs'. }
  destruct (lookup_lt_is_Some_2 (sources_ e) i Hi) as [source Hs].
  destruct (lookup_lt_is_Some_2 (channels e) i ltac:(lia)) as [channel Hc].
  destruct (Hall i source channel Hs Hc)
    as (source2 & channel2 & Hs2 & Hc2 & Hiff & _).
  rewrite Hs' in Hs2. rewrite Hc' in Hc2.
  injection Hs2 as <-. injection Hc2 as <-.
  rewrite Hactive in Hiff. destruct (is_free source'); [discriminate|reflexivity].
Qed.

(** X25.  [SoundEngine::PlayHeadSound] never touches the sounds or the channels.
    It does nothing when no source is free, and nothing when the sound is
    not loaded.  Otherwise it takes the first free source, and only that
    one, for the sound, at position 0.  No channel becomes active on a free
    source by it. *)
Theorem SoundEngine_PlayHeadSound_spec (sound_number : nat) (e : SoundEngine.t) :
  let e' := PlayHeadSound sound_number e in
  global_sounds_ e' = global_sounds_ e /\ channels e' = channels e /\
  length (sources_ e') = length (sources_ e) /\
  (Forall (fun source => is_free source = false) (sources_ e) -> e' = e) /\
  (sound_at (global_sounds_ e) sound_number = None -> e' = e) /\
  (forall i source,
     sources_ e !! i = Some source -> is_free source = true ->
     (forall j source_j, sources_ e !! j = Some source_j -> (j < i)%nat ->
        is_free source_j = false) ->
     sound_at (global_sounds_ e) sound_number <> None ->
     sources_ e' = <[i := mkSource false sound_number 0]> (sources_ e)) /\
  (channels_follow_sources e -> channels_follow_sources e').
Proof.
  cbn zeta. unfold PlayHeadSound.
  destruct (list_find (fun s => is_free s = true) (sources_ e))
    as [[i0 s0]|] eqn:Hfind.
  - apply list_find_Some in Hfind as (Hi0 & Hfree0 & Hfirst).
    destruct (sound_at (global_sounds_ e) sound_number) as [sound|] eqn:Hsound.
    + cbn [global_sounds_ channels sources_].
      split; [reflexivity|]. split; [reflexivity|].
      split; [apply length_insert|]. split; [|split; [discriminate|split]].
      * intros Hall. exfalso.
        pose proof (proj1 (Forall_forall _ _) Hall s0
                      (list_elem_of_lookup_2 _ _ _ Hi0)) as H.
        cbn in H. congruence.
      * intros i source Hi Hfree Hbefore _.
        assert (i = i0) as ->; [|reflexivity].
        destruct (lt_eq_lt_dec i i0) as [[Hlt| ->]|Hgt]; [|reflexivity|].
        -- exfalso. apply (Hfirst i source Hi Hlt). exact Hfree.
        -- exfalso. pose proof (Hbefore i0 s0 Hi0 Hgt). congruence.
      * intros Hinv i source channel Hs Hc Hactive.
        cbn [sources_ channels] in Hs, Hc.
        destruct (decide (i0 = i)) as [->|Hne].
        -- rewrite list_lookup_insert_eq in Hs
             by (eapply lookup_lt_Some; exact Hi0).
           injection Hs as <-. reflexivity.
        -- rewrite list_lookup_insert_ne in Hs by exact Hne.
           apply (Hinv i source channel Hs Hc Hactive).
    + repeat split; auto. intros i source _ _ _ H. contradiction.
  - apply list_find_None in Hfind.
    repeat split; auto. intros i source Hi Hfree _ _. exfalso.
    apply (proj1 (Forall_forall _ _) Hfind source
             (list_elem_of_lookup_2 _ _ _ Hi)). exact Hfree.
Qed.

Lemma PlayHeadSound_first_free (sound_number : nat) (e : SoundEngine.t) (i : nat)
    (source : Source) (sound : SoundData) :
  sources_ e !! i = Some source -> is_free source = true ->
  (forall j source_j, sources_ e !! j = Some source_j -> (j < i)%nat ->
     is_free source_j = false) ->
  sound_at (global_sounds_ e) sound_number = Some sound ->
  PlayHeadSound sound_number e =
  mkSoundEngine (global_sounds_ e)
    (<[i := mkSource false sound_number 0]> (sources_ e)) (channels e).
Proof.
  intros Hi Hfree Hbefore Hsound. unfold PlayHeadSound.
  assert (Hfind : list_find (fun s => is_free s = true) (sources_ e) =
                  Some (i, source)).
  { apply list_find_Some. split; [exact Hi|]. split; [exact Hfree|].
    intros j y Hj Hlt. rewrite (Hbefore j y Hj Hlt). discriminate. }
  rewrite Hfind, Hsound. reflexivity.
Qed.

(** X26.  A sound played by [SoundEngine::PlayHeadSound] starts from its first
    sample.  In an engine where no channel is active on a free source, after
    [PlayHeadSound] has taken the first free source for a loaded sound, the
    next [Tick] makes the channel of that source active, at position 0, on
    the data of that sound and at full volume; a sound without samples is
    over at once: the source is free again and the channel is not active. *)
Theorem SoundEngine_play_then_tick (sound_number : nat) (e : SoundEngine.t)
    (i : nat) (source : Source) (channel : Channel) (sound : SoundData) :
  channels_follow_sources e ->
  sources_ e !! i = Some source -> is_free source = true ->
  (forall j source_j, sources_ e !! j = Some source_j -> (j < i)%nat ->
     is_free source_j = false) ->
  channels e !! i = Some channel ->
  sound_at (global_sounds_ e) sound_number = Some sound ->
  let e' := SoundEngine.Tick (PlayHeadSound sound_number e) in
  if (sample_count_ sound =? 0)%nat
  then sources_ e' !! i = Some (mkSource true sound_number 0) /\
       channels e' !! i = Some (mkChannel false 1 1 0 (Some sound))
  else sources_ e' !! i = Some (mkSource false sound_number 0) /\
       channels e' !! i = Some (mkChannel true 1 1 0 (Some sound)).
Proof.
  intros Hinv Hi Hfree Hbefore Hc Hsound e'. subst e'.
  rewrite (PlayHeadSound_first_free sound_number e i source sound
             Hi Hfree Hbefore Hsound).
  assert (Hinactive : is_active channel = false).
  { destruct (is_active channel) eqn:E; [|reflexivity].
    pose proof (Hinv i source channel Hi Hc E). congruence. }
  assert (Hs' : <[i := mkSource false sound_number 0]> (sources_ e) !! i =
                Some (mkSource false sound_number 0)).
  { apply list_lookup_insert_eq. eapply lookup_lt_Some. exact Hi. }
  destruct (Tick_lookup
              (mkSoundEngine (global_sounds_ e)
                 (<[i := mkSource false sound_number 0]> (sources_ e))
                 (channels e)) i _ channel Hs' Hc) as [H1 H2].
  rewrite H1, H2. cbn [global_sounds_]. unfold tick_channel.
  cbn [is_free is_active sound_id]. rewrite Hinactive. cbn [negb].
  rewrite Hsound. cbn [is_active src_sound_data position_samples andb].
  destruct (Nat.eqb_spec (sample_count_ sound) 0) as [E|E].
  - rewrite E. cbn. split; reflexivity.
  - destruct (Nat.leb_spec (sample_count_ sound) 0) as [Hle|_]; [lia|].
    cbn. split; reflexivity.
Qed.

(** ** Concrete instances *)

Lemma example_engine_follows : channels_follow_sources example_engine.
Proof.
  intros i source channel Hs Hc Hactive.
  destruct i as [|[|i]]; cbn in Hs, Hc.
  - injection Hs as <-. reflexivity.
  - injection Hc as <-. discriminate.
  - discriminate.
Qed.

Lemma SoundEngine_Tick_spec_witness :
  length (sources_ example_engine) = length (channels example_engine) /\
  channels_follow_sources (SoundEngine.Tick example_engine) /\
  global_sounds_ (SoundEngine.Tick example_engine) =
    global_sounds_ example_engine.
Proof.
  split; [reflexivity|].
  destruct (SoundEngine_Tick_spec example_engine eq_refl)
    as (Hsounds & _ & _ & Hfollow & _).
  split; [exact Hfollow|exact Hsounds].
Defined.

Lemma SoundEngine_play_then_tick_witness :
  channels_follow_sources example_engine /\
  sources_ (SoundEngine.Tick (PlayHeadSound 1 example_engine)) !! 1%nat =
    Some (mkSource false 1 0) /\
  channels (SoundEngine.Tick (PlayHeadSound 1 example_engine)) !! 1%nat =
    Some (mkChannel true 1 1 0 (Some (mkSoundData 4 8))).
Proof.
  split; [exact example_engine_follows|].
  assert (Hbefore : forall j source_j,
            sources_ example_engine !! j = Some source_j -> (j < 1)%nat ->
            is_free source_j = false).
  { intros j source_j Hj Hlt. destruct j as [|j]; [|lia].
    cbn in Hj. injection Hj as <-. reflexivity. }
  exact (SoundEngine_play_then_tick 1 example_engine 1 (mkSource true 0 0)
           (mkChannel false 0 0 0 None) (mkSoundData 4 8)
           example_engine_follows eq_refl eq_refl Hbefore eq_refl eq_refl).
Defined.
